(** * faster-whisper-transcriber: the output side of [transcribe.py]

    A shallow embedding of the pure and file-writing parts of
    [src/transcribe.py]: [format_srt_timestamp], the three writers
    [write_srt], [write_txt], [write_json], the prompt loops of
    [get_user_choice] and [interactive_setup], and the output stage of
    [main] (lines 243-262).

    Conventions of the model.
    - A Python [str] is a list of code points ([pystr]); a file opened in
      text mode holds such a list. The UTF-8 encoding is not modelled: a
      text is taken to hold no lone surrogate, the one thing that makes
      the writer of a UTF-8 text file raise.
    - A Python [float] is an IEEE-754 binary64 value, [spec_float] of the
      Standard Library at precision 53 and maximal exponent 1024.
    - An exception is a value [Raise e] of [result]; [Ok v] is a normal
      return.
    - The file system is a finite map of regular files and a finite set
      of directories. A regular file is kept under the path it was
      opened with; a directory under the normal form of its path, in
      which empty and [.] components are dropped ([..] and symbolic
      links are not resolved). [os.makedirs] is the function of the
      standard library over [os.mkdir]; [open] for writing is modelled
      on its success path.
    - [int(str)], [str.lower] and [float.__repr__] are builtins of the
      interpreter driven by Unicode tables and by shortest-round-trip
      printing; they are an interface ([Builtins]) of which the program is
      a client. *)

From Stdlib Require Import ZArith Lia List Bool Ascii String.
From Stdlib Require Import Floats.SpecFloat.
From stdpp Require Import base option list gmap.

Set Warnings "-register-all".
Local Open Scope Z_scope.

(** ** Python values: strings, exceptions *)

Module Py.

Definition codepoint := N.
Definition pystr := list codepoint.

(** A literal of the source, given by its ASCII characters. *)
Definition lit (s : string) : pystr :=
  map N_of_ascii (list_ascii_of_string s).

Definition LF : codepoint := 10%N.
Definition QUOTE : codepoint := 34%N.
Definition APOSTROPHE : codepoint := 39%N.
Definition COMMA : codepoint := 44%N.
Definition SLASH : codepoint := 47%N.
Definition DOT : codepoint := 46%N.

Inductive exn :=
| ValueError | OverflowError | EOFError | IndexError | TypeError
| FileNotFoundError | FileExistsError | NotADirectoryError | RecursionError.

Inductive result (A : Type) : Type :=
| Ok (a : A)
| Raise (e : exn).
Arguments Ok {A} a.
Arguments Raise {A} e.

Definition bind {A B} (r : result A) (k : A -> result B) : result B :=
  match r with
  | Ok a => k a
  | Raise e => Raise e
  end.

(** [str.isspace] of one character: the code points whose bidirectional
    class is WS, B or S, or whose category is Zs. *)
Definition isspace (c : codepoint) : bool :=
  ((9 <=? c) && (c <=? 13) || (28 <=? c) && (c <=? 32)
   || (c =? 133) || (c =? 160) || (c =? 5760)
   || (8192 <=? c) && (c <=? 8202)
   || (c =? 8232) || (c =? 8233) || (c =? 8239) || (c =? 8287)
   || (c =? 12288))%N.

Fixpoint lstrip_by (p : codepoint -> bool) (s : pystr) : pystr :=
  match s with
  | [] => []
  | c :: r => if p c then lstrip_by p r else s
  end.

Definition rstrip_by (p : codepoint -> bool) (s : pystr) : pystr :=
  rev (lstrip_by p (rev s)).

Definition strip_by (p : codepoint -> bool) (s : pystr) : pystr :=
  rstrip_by p (lstrip_by p s).

(** [s.strip()] *)
Definition strip (s : pystr) : pystr := strip_by isspace s.

(** [s.strip(chars)] *)
Definition strip_chars (chars : pystr) (s : pystr) : pystr :=
  strip_by (fun c => existsb (N.eqb c) chars) s.

(** [s.split(sep)] for a one-character separator: never empty, the empty
    string splits into one empty field. *)
Fixpoint split (sep : codepoint) (s : pystr) : list pystr :=
  match s with
  | [] => [[]]
  | c :: r =>
      if (c =? sep)%N then [] :: split sep r
      else match split sep r with
           | [] => [[c]]
           | w :: ws => (c :: w) :: ws
           end
  end.

(** [x in l] for a list of strings. *)
Definition str_eqb (a b : pystr) : bool := bool_decide (a = b).
Definition contains (l : list pystr) (x : pystr) : bool :=
  existsb (str_eqb x) l.

(** Decimal digits of a natural number, most significant first. The fuel
    is the binary logarithm, which bounds the number of divisions by ten. *)
Definition digit (d : Z) : codepoint := Z.to_N (48 + d).

Fixpoint digits_fuel (fuel : nat) (n : Z) (acc : pystr) : pystr :=
  match fuel with
  | O => digit (n mod 10) :: acc
  | S f =>
      if n <? 10 then digit (n mod 10) :: acc
      else digits_fuel f (n / 10) (digit (n mod 10) :: acc)
  end.

Definition str_nat (n : Z) : pystr :=
  digits_fuel (Z.to_nat (Z.log2 n)) n [].

(** [str(i)], also [f"{i}"]. *)
Definition str_int (i : Z) : pystr :=
  if i <? 0 then lit "-" ++ str_nat (- i) else str_nat i.

Definition zfill (w : nat) (s : pystr) : pystr :=
  replicate (w - length s)%nat (digit 0) ++ s.

(** [f"{i:0w}"]: the sign first, then zeros up to the width, then the
    digits; a number wider than the field is not cut. *)
Definition format_zero (w : nat) (i : Z) : pystr :=
  if i <? 0 then lit "-" ++ zfill (w - 1) (str_nat (- i))
  else zfill w (str_nat i).

(** Lower-case hexadecimal, four digits: [format(n, "04x")] for
    [n < 0x10000]. *)
Definition hex_digit (d : N) : codepoint :=
  (if d <? 10 then 48 + d else 87 + d)%N.

Definition hex4 (n : N) : pystr :=
  [hex_digit (n / 4096 mod 16); hex_digit (n / 256 mod 16);
   hex_digit (n / 16 mod 16); hex_digit (n mod 16)]%N.

End Py.

(** ** binary64 floats *)

Module F64.
Import Py.

Definition prec : Z := 53.
Definition emax : Z := 1024.
Definition float := spec_float.

Definition valid (x : float) : bool := valid_binary prec emax x.

Definition is_nan (x : float) : bool :=
  match x with S754_nan => true | _ => false end.

Definition is_finite (x : float) : bool :=
  match x with S754_zero _ | S754_finite _ _ _ => true | _ => false end.

(** [x >= 0] for a float that is not NaN. *)
Definition nonneg (x : float) : bool :=
  match x with
  | S754_zero _ => true
  | S754_finite s _ _ | S754_infinity s => negb s
  | S754_nan => false
  end.

(** [float(n)]: the nearest binary64, ties to even. *)
Definition of_Z (n : Z) : float := binary_normalize prec emax n 0 false.

(** The float nearest to [m * 2^e]; exact when [m] has at most 53 bits. *)
Definition dyadic (m e : Z) : float := binary_normalize prec emax m e false.

Definition mul (x y : float) : float := SFmul prec emax x y.

(** [int(x)], and [PyLong_FromDouble] of C: truncation toward zero. *)
Definition trunc (x : float) : result Z :=
  match x with
  | S754_nan => Raise ValueError
  | S754_infinity _ => Raise OverflowError
  | S754_zero _ => Ok 0
  | S754_finite s m e =>
      Ok (cond_Zopp s (if 0 <=? e then Zpos m * 2 ^ e else Zpos m / 2 ^ (- e)))
  end.

(** The fractional part of [math.modf]: it carries the sign of [x] and is
    exact. *)
Definition fracpart (x : float) : float :=
  match x with
  | S754_nan => S754_nan
  | S754_infinity s | S754_zero s => S754_zero s
  | S754_finite s m e =>
      if 0 <=? e then S754_zero s
      else binary_normalize prec emax (cond_Zopp s (Zpos m mod 2 ^ (- e))) e s
  end.

(** [round(x)] with one argument: the nearest integer, ties to even. *)
Definition round_half_even (x : float) : result Z :=
  match x with
  | S754_nan => Raise ValueError
  | S754_infinity _ => Raise OverflowError
  | S754_zero _ => Ok 0
  | S754_finite s m e =>
      if 0 <=? e then Ok (cond_Zopp s (Zpos m * 2 ^ e))
      else
        let k := - e in
        let q := Zpos m / 2 ^ k in
        let r := Zpos m mod 2 ^ k in
        let half := 2 ^ (k - 1) in
        let up := (half <? r) || ((r =? half) && Z.odd q) in
        Ok (cond_Zopp s (if up then q + 1 else q))
  end.

(** [a / b] of two integers, [b > 0]: the quotient correctly rounded to
    binary64; a quotient beyond the largest float raises. *)
Definition true_div (a b : Z) : result float :=
  match a with
  | Z0 => Ok (S754_zero false)
  | _ =>
      let '(q, e, l) := SFdiv_core_binary prec emax (Z.abs a) 0 b 0 in
      match binary_round_aux prec emax (a <? 0) q e l with
      | S754_infinity _ => Raise OverflowError
      | f => Ok f
      end
  end.

(** Zero, or a positive finite float below [2^B]. *)
Definition nonneg_finite (B : Z) (f : float) : Prop :=
  match f with
  | S754_zero _ => True
  | S754_finite s m e => s = false /\ Zdigits2 (Zpos m) + e <= B
  | _ => False
  end.

End F64.

(** ** [datetime.timedelta] *)

Module Datetime.
Import Py F64.

(** The normalised fields: [0 <= seconds < 86400],
    [0 <= microseconds < 1000000], [|days| <= 999999999]. *)
Record timedelta := { days : Z; seconds : Z; microseconds : Z }.

Definition MAX_DELTA_DAYS : Z := 999999999.

Definition of_microseconds (us : Z) : result timedelta :=
  let s := us / 1000000 in
  let d := s / 86400 in
  if Z.abs d <=? MAX_DELTA_DAYS
  then Ok {| days := d; seconds := s mod 86400; microseconds := us mod 1000000 |}
  else Raise OverflowError.

(** [timedelta(seconds=x)] for a float [x]: the whole seconds are taken
    exactly, the fraction is scaled by the float [1e6] and rounded to the
    nearest microsecond, ties to even. *)
Definition of_seconds (x : float) : result timedelta :=
  bind (trunc x) (fun whole =>
  bind (round_half_even (mul (fracpart x) (of_Z 1000000))) (fun us =>
  of_microseconds (whole * 1000000 + us))).

(** [td.total_seconds()] *)
Definition total_seconds (td : timedelta) : result float :=
  true_div ((days td * 86400 + seconds td) * 1000000 + microseconds td) 1000000.

End Datetime.

(** ** Builtins taken as an interface

    [int(s)] accepts signs, underscores and every Unicode decimal digit;
    [s.lower()] follows the Unicode case tables; [repr(x)] of a finite
    float is the shortest decimal that reads back as [x]. None of them is
    code of this program. *)

Class Builtins := {
  py_int : Py.pystr -> option Z;
  str_lower : Py.pystr -> Py.pystr;
  float_repr : F64.float -> Py.pystr
}.

(** ** [json.dump(obj, f, indent=2)] *)

Module Json.
Import Py F64.

(** The values the program hands to [json.dump]. *)
Inductive json :=
| JFloat (x : float)
| JStr (s : pystr)
| JList (l : list json)
| JDict (items : list (pystr * json)).

(** [ensure_ascii=True]: the quote and the backslash are escaped, every
    character outside [' '..'~'] is written as [\uXXXX], above the basic
    plane as a surrogate pair. *)
Definition escape_char (c : codepoint) : pystr :=
  (if c =? 34 then lit "\" ++ [QUOTE]
   else if c =? 92 then lit "\\"
   else if c =? 10 then lit "\n"
   else if c =? 13 then lit "\r"
   else if c =? 9 then lit "\t"
   else if c =? 8 then lit "\b"
   else if c =? 12 then lit "\f"
   else if (32 <=? c) && (c <=? 126) then [c]
   else if c <? 65536 then lit "\u" ++ hex4 c
   else
     let n := c - 65536 in
     lit "\u" ++ hex4 (55296 + n / 1024 mod 1024)
     ++ lit "\u" ++ hex4 (56320 + n mod 1024))%N.

Definition encode_str (s : pystr) : pystr :=
  [QUOTE] ++ concat (map escape_char s) ++ [QUOTE].

(** [allow_nan=True]: the three non-finite floats have names of their
    own; they are not numbers of the JSON grammar. *)
Definition floatstr `{Builtins} (x : float) : pystr :=
  match x with
  | S754_nan => lit "NaN"
  | S754_infinity false => lit "Infinity"
  | S754_infinity true => lit "-Infinity"
  | _ => float_repr x
  end.

Definition newline_indent (level : nat) : pystr :=
  LF :: concat (replicate level (lit "  ")).

(** The text written for a value at a nesting level: an empty container
    is [[]] or [{}]; otherwise each item stands on a line of its own, one
    level deeper, items separated by [","], keys by [": "]. *)
Fixpoint encode `{Builtins} (level : nat) (v : json) : pystr :=
  match v with
  | JFloat x => floatstr x
  | JStr s => encode_str s
  | JList [] => lit "[]"
  | JList (x :: xs) =>
      lit "[" ++ newline_indent (S level) ++ encode (S level) x
      ++ (fix items (l : list json) : pystr :=
            match l with
            | [] => []
            | y :: l' =>
                lit "," ++ newline_indent (S level) ++ encode (S level) y
                ++ items l'
            end) xs
      ++ newline_indent level ++ lit "]"
  | JDict [] => lit "{}"
  | JDict ((k, x) :: xs) =>
      lit "{" ++ newline_indent (S level)
      ++ encode_str k ++ lit ": " ++ encode (S level) x
      ++ (fix items (l : list (pystr * json)) : pystr :=
            match l with
            | [] => []
            | (k', y) :: l' =>
                lit "," ++ newline_indent (S level)
                ++ encode_str k' ++ lit ": " ++ encode (S level) y
                ++ items l'
            end) xs
      ++ newline_indent level ++ lit "}"
  end.

Definition dumps `{Builtins} (v : json) : pystr := encode 0 v.

(** A value of RFC 8259: every number is finite. *)
Fixpoint rfc_value (v : json) : bool :=
  match v with
  | JFloat x => is_finite x
  | JStr _ => true
  | JList l => forallb rfc_value l
  | JDict items =>
      (fix all (l : list (pystr * json)) : bool :=
         match l with
         | [] => true
         | (_, y) :: l' => rfc_value y && all l'
         end) items
  end.

End Json.

(** ** The JSON grammar of RFC 8259, as a recogniser

    Each function reads one construct at the head of a text and returns
    the rest of the text, or [None] when the text does not start with the
    construct. The fuel bounds the nesting and the number of items; the
    length of the text is always enough. *)

Module Rfc8259.
Import Py.

Definition is_ws (c : codepoint) : bool :=
  ((c =? 32) || (c =? 9) || (c =? 10) || (c =? 13))%N.

Definition is_digit (c : codepoint) : bool := ((48 <=? c) && (c <=? 57))%N.

Definition is_hex (c : codepoint) : bool :=
  (is_digit c || (97 <=? c) && (c <=? 102) || (65 <=? c) && (c <=? 70))%N.

Definition skip_ws (s : pystr) : pystr := lstrip_by is_ws s.
Definition skip_digits (s : pystr) : pystr := lstrip_by is_digit s.

(** [1*DIGIT] *)
Definition digits1 (s : pystr) : option pystr :=
  match s with
  | c :: r => if is_digit c then Some (skip_digits r) else None
  | [] => None
  end.

(** [[ minus ]] *)
Definition minus (s : pystr) : pystr :=
  match s with
  | c :: r => if (c =? 45)%N then r else s
  | [] => []
  end.

(** [int = zero / ( digit1-9 *DIGIT )] *)
Definition int (s : pystr) : option pystr :=
  match s with
  | c :: r =>
      if (c =? 48)%N then Some r
      else if is_digit c then Some (skip_digits r)
      else None
  | [] => None
  end.

(** [[ frac ]], [frac = decimal-point 1*DIGIT] *)
Definition frac (s : pystr) : option pystr :=
  match s with
  | c :: r => if (c =? 46)%N then digits1 r else Some s
  | [] => Some []
  end.

(** [[ exp ]], [exp = e [ minus / plus ] 1*DIGIT] *)
Definition exp (s : pystr) : option pystr :=
  match s with
  | c :: r =>
      if ((c =? 101) || (c =? 69))%N
      then digits1 (match r with
                    | c' :: r' => if ((c' =? 43) || (c' =? 45))%N then r' else r
                    | [] => []
                    end)
      else Some s
  | [] => Some []
  end.

(** [number = [ minus ] int [ frac ] [ exp ]] *)
Definition number (s : pystr) : option pystr :=
  match int (minus s) with
  | Some s1 => match frac s1 with
               | Some s2 => exp s2
               | None => None
               end
  | None => None
  end.

(** The characters of a string after its opening quotation mark, up to
    and including the closing one. *)
Fixpoint chars (s : pystr) : option pystr :=
  match s with
  | [] => None
  | c :: r =>
      if (c =? 34)%N then Some r
      else if (c =? 92)%N then
        match r with
        | e :: r' =>
            if ((e =? 34) || (e =? 92) || (e =? 47) || (e =? 98) || (e =? 102)
                || (e =? 110) || (e =? 114) || (e =? 116))%N
            then chars r'
            else if (e =? 117)%N then
              match r' with
              | h1 :: h2 :: h3 :: h4 :: r'' =>
                  if is_hex h1 && is_hex h2 && is_hex h3 && is_hex h4
                  then chars r'' else None
              | _ => None
              end
            else None
        | [] => None
        end
      else if (c <? 32)%N then None
      else chars r
  end.

Definition string_ (s : pystr) : option pystr :=
  match s with
  | c :: r => if (c =? 34)%N then chars r else None
  | [] => None
  end.

(** A literal name: [true], [false], [null]. *)
Fixpoint name (l : pystr) (s : pystr) : option pystr :=
  match l, s with
  | [], _ => Some s
  | a :: l', c :: r => if (a =? c)%N then name l' r else None
  | _ :: _, [] => None
  end.

(** [value], the items of an array after its first bracket, and the
    members of an object after its first brace. *)
Fixpoint value (fuel : nat) (s : pystr) : option pystr :=
  match fuel with
  | O => None
  | S f =>
      match s with
      | [] => None
      | c :: r =>
          if (c =? 34)%N then string_ s
          else if (c =? 91)%N then
            match skip_ws r with
            | c' :: r' => if (c' =? 93)%N then Some r' else elements f (c' :: r')
            | [] => None
            end
          else if (c =? 123)%N then
            match skip_ws r with
            | c' :: r' => if (c' =? 125)%N then Some r' else members f (c' :: r')
            | [] => None
            end
          else if (c =? 116)%N then name (lit "true") s
          else if (c =? 102)%N then name (lit "false") s
          else if (c =? 110)%N then name (lit "null") s
          else number s
      end
  end
with elements (fuel : nat) (s : pystr) : option pystr :=
  match fuel with
  | O => None
  | S f =>
      match value f s with
      | Some r =>
          match skip_ws r with
          | c :: r' =>
              if (c =? 44)%N then elements f (skip_ws r')
              else if (c =? 93)%N then Some r'
              else None
          | [] => None
          end
      | None => None
      end
  end
with members (fuel : nat) (s : pystr) : option pystr :=
  match fuel with
  | O => None
  | S f =>
      match string_ s with
      | Some r =>
          match skip_ws r with
          | c :: r' =>
              if (c =? 58)%N then
                match value f (skip_ws r') with
                | Some r2 =>
                    match skip_ws r2 with
                    | c2 :: r3 =>
                        if (c2 =? 44)%N then members f (skip_ws r3)
                        else if (c2 =? 125)%N then Some r3
                        else None
                    | [] => None
                    end
                | None => None
                end
              else None
          | [] => None
          end
      | None => None
      end
  end.

(** [JSON-text = ws value ws] *)
Definition json_text (s : pystr) : bool :=
  match value (S (length s)) (skip_ws s) with
  | Some r => match skip_ws r with [] => true | _ => false end
  | None => false
  end.

(** A text whose first character, if any, cannot continue a number. *)
Definition ends_number (rest : pystr) : bool :=
  match rest with
  | [] => true
  | c :: _ =>
      negb (is_digit c || (c =? 43) || (c =? 45) || (c =? 46)
            || (c =? 101) || (c =? 69))%N
  end.

End Rfc8259.

(** ** [os.path] of POSIX *)

Module PosixPath.
Import Py.

(** [s.rfind(c)]: the last index of [c], or [-1]. *)
Fixpoint rfind_from (c : codepoint) (s : pystr) (i : Z) (found : Z) : Z :=
  match s with
  | [] => found
  | x :: r => rfind_from c r (i + 1) (if (x =? c)%N then i else found)
  end.

Definition rfind (c : codepoint) (s : pystr) : Z := rfind_from c s 0 (-1).

Definition slice_from (i : Z) (s : pystr) : pystr := drop (Z.to_nat i) s.
Definition slice_to (i : Z) (s : pystr) : pystr := take (Z.to_nat i) s.

Definition basename (p : pystr) : pystr := slice_from (rfind SLASH p + 1) p.

(** [os.path.splitext]: the extension starts at the last dot of the last
    component, unless only dots precede it there. *)
Definition splitext (p : pystr) : pystr * pystr :=
  let sepIndex := rfind SLASH p in
  let dotIndex := rfind DOT p in
  if (sepIndex <? dotIndex)
     && negb (forallb (N.eqb DOT)
                (slice_to (dotIndex - (sepIndex + 1)) (slice_from (sepIndex + 1) p)))
  then (slice_to dotIndex p, slice_from dotIndex p)
  else (p, []).

Definition startswith_sep (p : pystr) : bool :=
  match p with c :: _ => (c =? SLASH)%N | [] => false end.

Definition endswith_sep (p : pystr) : bool :=
  match rev p with c :: _ => (c =? SLASH)%N | [] => false end.

(** [os.path.split] (named apart from [str.split]): the text up to the
    last slash and the component after it; the head loses its trailing
    slashes unless it is made of slashes only. *)
Definition path_split (p : pystr) : pystr * pystr :=
  let i := rfind SLASH p + 1 in
  let head := slice_to i p in
  let tail := slice_from i p in
  (if match head with [] => false | _ => negb (forallb (N.eqb SLASH) head) end
   then rstrip_by (N.eqb SLASH) head
   else head,
   tail).

(** The components of a path that name something: the fields between
    slashes, without the empty ones and without [.], which stands for the
    directory it is met in. *)
Definition components (p : pystr) : list pystr :=
  List.filter (fun c => match c with [] => false | _ => negb (str_eqb c (lit ".")) end)
    (split SLASH p).

Fixpoint join_components (l : list pystr) : pystr :=
  match l with
  | [] => []
  | [c] => c
  | c :: l' => c ++ SLASH :: join_components l'
  end.

(** The normal form of a path: its components, under the root when the
    path starts with a slash. Neither [..] nor a symbolic link is
    resolved. *)
Definition norm (p : pystr) : pystr :=
  (if startswith_sep p then [SLASH] else []) ++ join_components (components p).

(** [os.path.join(a, b)] *)
Definition join (a b : pystr) : pystr :=
  if startswith_sep b then b
  else if match a with [] => true | _ => endswith_sep a end then a ++ b
  else a ++ [SLASH] ++ b.

End PosixPath.

(** ** Files and directories *)

Module OS.
Import Py PosixPath.

Record fs := { files : gmap pystr pystr; dirs : gset pystr }.

Definition isfile (p : pystr) (σ : fs) : bool :=
  bool_decide (is_Some (files σ !! p)).

(** [os.path.isdir]: the empty string names nothing; a path without
    components is the current directory or the root, which every state
    has; any other directory is in [dirs] under its normal form. *)
Definition isdir (p : pystr) (σ : fs) : bool :=
  match p with
  | [] => false
  | _ =>
      match components p with
      | [] => true
      | _ => bool_decide (norm p ∈ dirs σ)
      end
  end.

Definition exists_ (p : pystr) (σ : fs) : bool := isfile p σ || isdir p σ.

(** The first lines of [os.makedirs]: the name is split, once more when
    it ends with a slash. *)
Definition head_tail (name : pystr) : pystr * pystr :=
  let '(head, tail) := path_split name in
  match tail with
  | [] => path_split head
  | _ => (head, tail)
  end.

(** [os.mkdir(p)]: one directory is made, under a parent that is there:
    [ENOENT] for the empty name, [EEXIST] for a name that is taken,
    [ENOTDIR] under a regular file, [ENOENT] under nothing. The parent
    is the head of the name; an empty head is the current directory and
    a head of slashes is the root. *)
Definition mkdir (p : pystr) (σ : fs) : fs * result unit :=
  match p with
  | [] => (σ, Raise FileNotFoundError)
  | _ =>
      if exists_ p σ then (σ, Raise FileExistsError)
      else
        let parent := fst (head_tail p) in
        if forallb (N.eqb SLASH) parent || isdir parent σ
        then ({| files := files σ; dirs := {[ norm p ]} ∪ dirs σ |}, Ok tt)
        else if isfile parent σ then (σ, Raise NotADirectoryError)
        else (σ, Raise FileNotFoundError)
  end.

(** The test [head and tail and not path.exists(head)]. *)
Definition missing_parent (name : pystr) (σ : fs) : bool :=
  let '(head, tail) := head_tail name in
  match head, tail with
  | _ :: _, _ :: _ => negb (exists_ head σ)
  | _, _ => false
  end.

(** [try: ... except FileExistsError: pass] *)
Definition except_exists (st : fs * result unit) : fs * result unit :=
  match st with
  | (σ, Raise FileExistsError) => (σ, Ok tt)
  | _ => st
  end.

(** [try: mkdir(name) except OSError: if not path.isdir(name): raise] *)
Definition mkdir_exist_ok (name : pystr) (σ : fs) : fs * result unit :=
  match mkdir name σ with
  | (σ', Raise e) => if isdir name σ' then (σ', Ok tt) else (σ', Raise e)
  | st => st
  end.

(** [os.makedirs(name, exist_ok=True)], as the standard library has it:
    a missing parent is made first, by the same function; a name whose
    last component is [.] is done once its parent is made; the error of
    [os.mkdir] is passed over when the name is a directory. Each call on
    a parent is on a shorter name, and [fuel] counts these calls. *)
Fixpoint makedirs_from (fuel : nat) (name : pystr) (σ : fs) : fs * result unit :=
  match fuel with
  | O => (σ, Raise RecursionError)
  | S fuel' =>
      let '(head, tail) := head_tail name in
      if missing_parent name σ then
        match except_exists (makedirs_from fuel' head σ) with
        | (σ', Raise e) => (σ', Raise e)
        | (σ', Ok _) =>
            if str_eqb tail (lit ".") then (σ', Ok tt)
            else mkdir_exist_ok name σ'
        end
      else mkdir_exist_ok name σ
  end.

Definition makedirs (name : pystr) (σ : fs) : fs * result unit :=
  makedirs_from (S (length name)) name σ.

(** [open(p, "w")]: the file is created, or emptied when it exists. *)
Definition open_w (p : pystr) (σ : fs) : fs :=
  {| files := <[ p := [] ]> (files σ); dirs := dirs σ |}.

(** [f.write(s)] on the file opened at [p]: the text goes at the end. *)
Definition write (p : pystr) (s : pystr) (σ : fs) : fs :=
  {| files := alter (fun c => c ++ s) p (files σ); dirs := dirs σ |}.

Definition write_all (p : pystr) (chunks : list pystr) (σ : fs) : fs :=
  foldl (fun σ' s => write p s σ') σ chunks.

End OS.

(** ** The program *)

Module Transcribe.
Import Py F64 Datetime Json PosixPath OS.

(** A segment of the external model: [seg.start], [seg.end], [seg.text]. *)
Record Segment := { start : float; end_ : float; text : pystr }.

(** The namespace of [argparse]; [--file] and [--language] default to
    [None]. *)
Record Args := {
  file : option pystr;
  language : option pystr;
  output_dir : pystr;
  formats : pystr;
  model_size : pystr;
  device : pystr;
  compute_type : pystr;
  cpu_threads : Z;
  beam_size : Z
}.

(** Lines 16-23. *)
Definition format_srt_timestamp (seconds : float) : result pystr :=
  bind (of_seconds seconds) (fun td =>
  bind (total_seconds td) (fun ts =>
  bind (trunc ts) (fun total_seconds =>
  let hours := total_seconds / 3600 in
  let remainder := total_seconds mod 3600 in
  let minutes := remainder / 60 in
  let seconds := remainder mod 60 in
  let milliseconds := microseconds td / 1000 in
  Ok (format_zero 2 hours ++ lit ":" ++ format_zero 2 minutes ++ lit ":"
      ++ format_zero 2 seconds ++ lit "," ++ format_zero 3 milliseconds)))).

(** Lines 18-19: [int(timedelta(seconds=seconds).total_seconds())]. *)
Definition total_seconds_int (seconds : float) : result Z :=
  bind (of_seconds seconds) (fun td => bind (total_seconds td) trunc).

(** The strings handed to [f.write] by the loop of [write_srt] (lines
    27-30), in order, with the counter [i] of [enumerate]. A timestamp
    that raises ends the loop after the writes already made. *)
Fixpoint srt_writes (i : Z) (segments : list Segment)
  : list pystr * result unit :=
  match segments with
  | [] => ([], Ok tt)
  | seg :: rest =>
      let number := str_int i ++ [LF] in
      match format_srt_timestamp (start seg) with
      | Raise e => ([number], Raise e)
      | Ok a =>
          match format_srt_timestamp (end_ seg) with
          | Raise e => ([number], Raise e)
          | Ok b =>
              let '(ws, r) := srt_writes (i + 1) rest in
              (number
               :: (a ++ lit " --> " ++ b ++ [LF])
               :: (strip (text seg) ++ [LF; LF])
               :: ws, r)
          end
      end
  end.

(** Lines 25-30. *)
Definition write_srt (segments : list Segment) (out_path : pystr) (σ : fs)
  : fs * result unit :=
  let '(ws, r) := srt_writes 1 segments in
  (write_all out_path ws (open_w out_path σ), r).

(** The strings handed to [f.write] by the loop of [write_txt]. *)
Fixpoint txt_writes (segments : list Segment) : list pystr :=
  match segments with
  | [] => []
  | seg :: rest => (strip (text seg) ++ [LF]) :: txt_writes rest
  end.

(** Lines 32-35. *)
Definition write_txt (segments : list Segment) (out_path : pystr) (σ : fs)
  : fs * result unit :=
  (write_all out_path (txt_writes segments) (open_w out_path σ), Ok tt).

(** Lines 38-44: the list [output], grown by one [append] per segment. *)
Definition json_output (segments : list Segment) : list json :=
  foldl (fun output seg =>
           output ++ [JDict [(lit "start", JFloat (start seg));
                             (lit "end", JFloat (end_ seg));
                             (lit "text", JStr (strip (text seg)))]])
        [] segments.

(** Lines 37-46. [json.dump] writes the encoder's pieces one after the
    other; the file holds their concatenation. *)
Definition write_json `{Builtins} (segments : list Segment) (out_path : pystr)
  (σ : fs) : fs * result unit :=
  let output := json_output segments in
  (write out_path (dumps (JList output)) (open_w out_path σ), Ok tt).

(** *** Prompts

    [input()] takes the next line of the standard input, or raises
    [EOFError] at its end; what is printed is not modelled. *)

(** Lines 48-68. *)
Fixpoint get_user_choice `{Builtins} (options : list pystr)
  (default : option pystr) (stdin : list pystr)
  : result (pystr * list pystr) :=
  match stdin with
  | [] => Raise EOFError
  | line :: rest =>
      let choice_str := strip line in
      match choice_str, default with
      | [], Some d => Ok (d, rest)
      | _, _ =>
          match py_int choice_str with
          | None => get_user_choice options default rest
          | Some choice =>
              if (1 <=? choice) && (choice <=? Z.of_nat (length options))
              then match options !! Z.to_nat (choice - 1) with
                   | Some o => Ok (o, rest)
                   | None => Raise IndexError
                   end
              else get_user_choice options default rest
          end
      end
  end.

(** Lines 76-84. *)
Fixpoint ask_file (σ : fs) (stdin : list pystr)
  : result (pystr * list pystr) :=
  match stdin with
  | [] => Raise EOFError
  | line :: rest =>
      let file_path := strip line in
      let file_path := strip_chars [APOSTROPHE] (strip_chars [QUOTE] file_path) in
      if exists_ file_path σ && isfile file_path σ
      then Ok (file_path, rest)
      else ask_file σ rest
  end.

(** Lines 114-127. *)
Fixpoint ask_cpu_threads `{Builtins} (stdin : list pystr)
  : result (Z * list pystr) :=
  match stdin with
  | [] => Raise EOFError
  | line :: rest =>
      let cpu_threads_str := strip line in
      match cpu_threads_str with
      | [] => Ok (0, rest)
      | _ =>
          match py_int cpu_threads_str with
          | None => ask_cpu_threads rest
          | Some cpu_threads =>
              if 0 <=? cpu_threads then Ok (cpu_threads, rest)
              else ask_cpu_threads rest
          end
      end
  end.

(** Lines 130-143. *)
Fixpoint ask_beam_size `{Builtins} (stdin : list pystr)
  : result (Z * list pystr) :=
  match stdin with
  | [] => Raise EOFError
  | line :: rest =>
      let beam_size_str := strip line in
      match beam_size_str with
      | [] => Ok (5, rest)
      | _ =>
          match py_int beam_size_str with
          | None => ask_beam_size rest
          | Some beam_size =>
              if 0 <? beam_size then Ok (beam_size, rest)
              else ask_beam_size rest
          end
      end
  end.

Definition input (stdin : list pystr) : result (pystr * list pystr) :=
  match stdin with
  | [] => Raise EOFError
  | line :: rest => Ok (line, rest)
  end.

Definition is_empty (s : pystr) : bool :=
  match s with [] => true | _ => false end.

(** Lines 70-158. [has_gpu] is [torch.cuda.is_available()]; the result is
    the updated namespace and the input left unread. *)
Definition interactive_setup `{Builtins} (σ : fs) (has_gpu : bool)
  (args : Args) (stdin : list pystr) : result (Args * list pystr) :=
  bind (ask_file σ stdin) (fun '(file_path, stdin) =>
  let available_devices :=
    if has_gpu then [lit "cuda"; lit "cpu"] else [lit "cpu"] in
  let default_device := if has_gpu then lit "cuda" else lit "cpu" in
  bind (if (1 <? Z.of_nat (length available_devices))
        then get_user_choice available_devices (Some default_device) stdin
        else Ok (default_device, stdin)) (fun '(device, stdin) =>
  let model_sizes :=
    [lit "tiny"; lit "base"; lit "small"; lit "medium"; lit "large-v2";
     lit "large-v3"] in
  bind (get_user_choice model_sizes (Some (lit "medium")) stdin)
    (fun '(model_size, stdin) =>
  let '(compute_types, default_compute) :=
    if str_eqb device (lit "cuda")
    then ([lit "float16"; lit "int8_float16"; lit "int8"], lit "float16")
    else ([lit "int8"; lit "float32"], lit "int8") in
  bind (get_user_choice compute_types (Some default_compute) stdin)
    (fun '(compute_type, stdin) =>
  bind (if str_eqb device (lit "cpu")
        then ask_cpu_threads stdin
        else Ok (cpu_threads args, stdin)) (fun '(cpu_threads, stdin) =>
  bind (ask_beam_size stdin) (fun '(beam_size, stdin) =>
  bind (input stdin) (fun '(line, stdin) =>
  let lang_input := strip line in
  let language := if is_empty lang_input then None else Some lang_input in
  bind (input stdin) (fun '(line, stdin) =>
  let output_dir_input := strip line in
  let output_dir :=
    if is_empty output_dir_input then lit "output" else output_dir_input in
  bind (input stdin) (fun '(line, stdin) =>
  let formats_input := str_lower (strip line) in
  let formats := if is_empty formats_input then lit "srt" else formats_input in
  Ok ({| file := Some file_path; language := language;
         output_dir := output_dir; formats := formats;
         model_size := model_size; device := device;
         compute_type := compute_type; cpu_threads := cpu_threads;
         beam_size := beam_size |}, stdin)))))))))).

(** *** The output stage of [main], lines 243-262 *)

(** Line 245. *)
Definition parse_formats `{Builtins} (formats : pystr) : list pystr :=
  map (fun fmt => str_lower (strip fmt)) (split COMMA formats).

Definition target (output_dir base_filename ext : pystr) : pystr :=
  join output_dir (base_filename ++ ext).

(** Line 243. *)
Definition base_filename (path : pystr) : pystr :=
  fst (splitext (basename path)).

(** The tests ["srt" in formats], ["json" in formats], ["txt" in formats]
    of lines 249, 254 and 259. *)
Definition requested `{Builtins} (args : Args) (name : string) : bool :=
  contains (parse_formats (formats args)) (lit name).

(** The paths of lines 250, 255 and 260 for an input file [path]. *)
Definition output_path (args : Args) (path : pystr) (ext : string) : pystr :=
  target (output_dir args) (base_filename path) (lit ext).

(** One [if "fmt" in formats:] block. *)
Definition write_if (requested : bool)
  (writer : fs -> fs * result unit) (st : fs * result unit)
  : fs * result unit :=
  match st with
  | (σ, Ok _) => if requested then writer σ else (σ, Ok tt)
  | (σ, Raise e) => (σ, Raise e)
  end.

(** The namespace with another [--formats] string. *)
Definition with_formats (args : Args) (formats' : pystr) : Args :=
  {| file := file args; language := language args;
     output_dir := output_dir args; formats := formats';
     model_size := model_size args; device := device args;
     compute_type := compute_type args; cpu_threads := cpu_threads args;
     beam_size := beam_size args |}.

Definition main_output `{Builtins} (args : Args) (segment_list : list Segment)
  (σ : fs) : fs * result unit :=
  match file args with
  | None => (σ, Raise TypeError)
  | Some path =>
      let base_filename := fst (splitext (basename path)) in
      let st := makedirs (output_dir args) σ in
      let formats := parse_formats (formats args) in
      let st :=
        write_if (contains formats (lit "srt"))
          (write_srt segment_list
             (target (output_dir args) base_filename (lit ".srt"))) st in
      let st :=
        write_if (contains formats (lit "json"))
          (write_json segment_list
             (target (output_dir args) base_filename (lit ".json"))) st in
      write_if (contains formats (lit "txt"))
        (write_txt segment_list
           (target (output_dir args) base_filename (lit ".txt"))) st
  end.

End Transcribe.

(** ** An instance of the builtins on ASCII input

    Used to run the program on concrete inputs. [ascii_int] reads an
    optional sign and ASCII decimal digits, [ascii_lower] maps [A-Z] to
    [a-z], [dyadic_repr] prints the exact decimal expansion of a float.
    On such numerals, on ASCII text, and on floats between [1e-4] and
    [1e16] whose expansion has at most 15 significant digits, they return
    what [int], [str.lower] and [repr] return. *)

Module Ascii_builtins.
Import Py F64.

Fixpoint digits_value (acc : Z) (s : pystr) : option Z :=
  match s with
  | [] => Some acc
  | c :: r =>
      if ((48 <=? c) && (c <=? 57))%N
      then digits_value (10 * acc + (Z.of_N c - 48)) r
      else None
  end.

Definition unsigned_value (s : pystr) : option Z :=
  match s with
  | [] => None
  | _ => digits_value 0 s
  end.

Definition ascii_int (s : pystr) : option Z :=
  match s with
  | c :: r =>
      if (c =? 45)%N then option_map Z.opp (unsigned_value r)
      else if (c =? 43)%N then unsigned_value r
      else unsigned_value s
  | [] => None
  end.

Definition ascii_lower (s : pystr) : pystr :=
  map (fun c => if ((65 <=? c) && (c <=? 90))%N then (c + 32)%N else c) s.

(** The digits of [m / 2^k] after the point, [0 <= m < 2^k]: [k] digits
    at most, trailing zeros dropped, one digit at least. *)
Fixpoint fraction_digits (k : nat) (m : Z) (scale : Z) : pystr :=
  match k with
  | O => []
  | S k' =>
      let d := 10 * m / scale in
      let m' := (10 * m) mod scale in
      digit d :: (if m' =? 0 then [] else fraction_digits k' m' scale)
  end.

Definition dyadic_repr (x : float) : pystr :=
  match x with
  | S754_zero s => (if s then lit "-" else []) ++ lit "0.0"
  | S754_finite s m e =>
      (if s then lit "-" else [])
      ++ (if 0 <=? e then str_nat (Zpos m * 2 ^ e) ++ lit ".0"
          else
            let scale := 2 ^ (- e) in
            str_nat (Zpos m / scale) ++ lit "."
            ++ match fraction_digits (Z.to_nat (- e)) (Zpos m mod scale) scale with
               | [] => lit "0"
               | ds => ds
               end)
  | _ => []
  end.

#[export] Instance ascii : Builtins :=
  {| py_int := ascii_int; str_lower := ascii_lower; float_repr := dyadic_repr |}.

(** [float(s)] on the number literals of JSON: a sign, digits, a
    fraction, an exponent. The decimal [m * 10^e10] is rounded once, to
    the nearest binary64, ties to even; a decimal beyond the largest
    float gives an infinity. *)
Definition decimal_float (neg : bool) (m e10 : Z) : float :=
  match m with
  | Z0 => S754_zero neg
  | _ =>
      let '(q, e, l) :=
        SFdiv_core_binary prec emax (m * 10 ^ Z.max e10 0) 0 (10 ^ Z.max (- e10) 0) 0 in
      binary_round_aux prec emax neg q e l
  end.

Fixpoint span_digits (s : pystr) : pystr * pystr :=
  match s with
  | c :: r =>
      if ((48 <=? c) && (c <=? 57))%N
      then let '(ds, rest) := span_digits r in (c :: ds, rest)
      else ([], s)
  | [] => ([], [])
  end.

Definition ascii_float (s : pystr) : option float :=
  let '(neg, s1) :=
    match s with
    | c :: r => if (c =? 45)%N then (true, r) else (false, s)
    | [] => (false, s)
    end in
  let '(ip, s2) := span_digits s1 in
  let '(dot, fp, s3) :=
    match s2 with
    | c :: r => if (c =? 46)%N
                then let '(ds, rest) := span_digits r in (true, ds, rest)
                else (false, [], s2)
    | [] => (false, [], s2)
    end in
  let ex :=
    match s3 with
    | c :: r => if ((c =? 101) || (c =? 69))%N then ascii_int r else None
    | [] => Some 0
    end in
  match ip, dot, fp, ex with
  | [], _, _, _ => None
  | _, true, [], _ => None
  | _, _, _, None => None
  | _, _, _, Some e =>
      match digits_value 0 (ip ++ fp) with
      | Some m => Some (decimal_float neg m (e - Z.of_nat (length fp)))
      | None => None
      end
  end.

End Ascii_builtins.

(** ** Shapes of the output, as recognisers *)

Module Shape.
Import Py F64 Json Transcribe.

Definition is_digit (c : codepoint) : bool := ((48 <=? c) && (c <=? 57))%N.

(** [:MM:SS,mmm] *)
Definition is_clock_tail (t : pystr) : bool :=
  match t with
  | [c1; m1; m2; c2; s1; s2; c3; x1; x2; x3] =>
      (c1 =? 58)%N && is_digit m1 && is_digit m2
      && (c2 =? 58)%N && is_digit s1 && is_digit s2
      && (c3 =? 44)%N && is_digit x1 && is_digit x2 && is_digit x3
  | _ => false
  end.

(** [HH:MM:SS,mmm]: twelve characters, two of them for the hours. *)
Definition is_srt_timestamp (s : pystr) : bool :=
  match s with
  | h1 :: h2 :: t => is_digit h1 && is_digit h2 && is_clock_tail t
  | _ => false
  end.

(** [H..H:MM:SS,mmm]: two hour digits or more. *)
Definition is_long_timestamp (s : pystr) : bool :=
  let n := (length s - 10)%nat in
  (2 <=? n)%nat && forallb is_digit (take n s) && is_clock_tail (drop n s).

(** The lines of a text: the runs of characters ended by a line feed,
    and the unterminated rest if there is one. *)
Fixpoint lines_from (cur : pystr) (s : pystr) : list pystr :=
  match s with
  | [] => match cur with [] => [] | _ => [rev cur] end
  | c :: r =>
      if (c =? LF)%N then rev cur :: lines_from [] r
      else lines_from (c :: cur) r
  end.

Definition lines (s : pystr) : list pystr := lines_from [] s.

Definition has_LF (s : pystr) : bool := existsb (N.eqb LF) s.

(** The object appended to [output] for one segment (lines 40-44). *)
Definition json_segment (seg : Segment) : json :=
  JDict [(lit "start", JFloat (start seg));
         (lit "end", JFloat (end_ seg));
         (lit "text", JStr (strip (text seg)))].

(** Both times of a segment are finite floats. *)
Definition finite_times (seg : Segment) : bool :=
  is_finite (start seg) && is_finite (end_ seg).

(** *** The text of [json.dump], read by the grammar

    What the encoder writes before each item after the first, of a list
    and of a dict, at the level [L] of the items. *)
Definition list_sep `{Builtins} (L : nat) (y : json) : pystr :=
  (44 :: newline_indent L ++ encode L y)%N.

Definition dict_sep `{Builtins} (L : nat) (kv : pystr * json) : pystr :=
  (44 :: newline_indent L ++ encode_str kv.1 ++ 58 :: 32 :: encode L kv.2)%N.

(** The text of [v] at the head of a text is read as one value, with
    fuel for each of its characters. *)
Definition accepted `{Builtins} (v : json) : Prop :=
  forall level rest fuel,
    Rfc8259.ends_number rest = true ->
    (length (encode level v) <= fuel)%nat ->
    Rfc8259.value fuel (encode level v ++ rest) = Some rest.

(** With any fuel, the text of [v] at the head of a text is refused. *)
Definition rejected `{Builtins} (v : json) : Prop :=
  forall level rest fuel, Rfc8259.value fuel (encode level v ++ rest) = None.

(** *** Answers to the prompts

    What one typed line answers to a prompt: the value taken, or [None]
    when the line is refused and the prompt is shown again. *)

Definition file_answer (σ : OS.fs) (line : pystr) : option pystr :=
  let file_path := strip_chars [APOSTROPHE] (strip_chars [QUOTE] (strip line)) in
  if OS.exists_ file_path σ && OS.isfile file_path σ then Some file_path else None.

Definition choice_answer `{Builtins} (options : list pystr)
  (default : option pystr) (line : pystr) : option pystr :=
  match strip line, default with
  | [], Some d => Some d
  | choice_str, _ =>
      match py_int choice_str with
      | Some choice =>
          if (1 <=? choice) && (choice <=? Z.of_nat (length options))
          then options !! Z.to_nat (choice - 1)
          else None
      | None => None
      end
  end.

Definition cpu_threads_answer `{Builtins} (line : pystr) : option Z :=
  match strip line with
  | [] => Some 0
  | s => match py_int s with
         | Some n => if 0 <=? n then Some n else None
         | None => None
         end
  end.

Definition beam_size_answer `{Builtins} (line : pystr) : option Z :=
  match strip line with
  | [] => Some 5
  | s => match py_int s with
         | Some n => if 0 <? n then Some n else None
         | None => None
         end
  end.

(** A prompt that is shown again until a line is taken. *)
Fixpoint retry {A} (answer : pystr -> option A) (stdin : list pystr)
  : result (A * list pystr) :=
  match stdin with
  | [] => Raise EOFError
  | line :: rest =>
      match answer line with
      | Some v => Ok (v, rest)
      | None => retry answer rest
      end
  end.

End Shape.

(** ** A run used as an example *)

Module Demo.
Import Py F64 OS Transcribe.

Definition segments : list Segment :=
  [ {| start := of_Z 0; end_ := dyadic 5 (-1); text := lit " Hello " |};
    {| start := dyadic 5 (-1); end_ := of_Z 4; text := lit "world" |} ].

Definition args : Args :=
  {| file := Some (lit "audio/talk.mp3"); language := None;
     output_dir := lit "out"; formats := lit "SRT, json,foo";
     model_size := lit "medium"; device := lit "auto";
     compute_type := lit "auto"; cpu_threads := 0; beam_size := 5 |}.

(** The same run with another [--output_dir]. *)
Definition into (output_dir' : pystr) : Args :=
  {| file := file args; language := language args;
     output_dir := output_dir'; formats := formats args;
     model_size := model_size args; device := device args;
     compute_type := compute_type args; cpu_threads := cpu_threads args;
     beam_size := beam_size args |}.

Definition empty : fs := {| files := ∅; dirs := ∅ |}.

(** One audio file [a.mp3] and a directory [d]. *)
Definition disk : fs := {| files := {[ lit "a.mp3" := [] ]}; dirs := {[ lit "d" ]} |}.


(** The namespace [argparse] returns when no option is given. *)
Definition defaults : Args :=
  {| file := None; language := None; output_dir := lit ".";
     formats := lit "srt,json"; model_size := lit "medium";
     device := lit "auto"; compute_type := lit "auto";
     cpu_threads := 0; beam_size := 5 |}.

Definition typed : list pystr :=
  map lit ["nope"; " 'a.mp3' "; "9"; "2"; ""; "x"; "-1"; "4"; "0"; "";
           "en"; ""; "SRT,Txt"; "unread"]%string.

(** What [interactive_setup] returns on [disk] from [typed], without a
    GPU. *)
Definition answered : Args :=
  {| file := Some (lit "a.mp3"); language := Some (lit "en");
     output_dir := lit "output"; formats := lit "srt,txt";
     model_size := lit "base"; device := lit "cpu";
     compute_type := lit "int8"; cpu_threads := 4; beam_size := 5 |}.

End Demo.

(** ** [setup.py]: the requirements file *)

Module Setup.
Import Py OS.

(** What [open(filename, 'r')] raises. *)
Inductive os_error := FileNotFoundError | IsADirectoryError.

Inductive outcome (A : Type) : Type :=
| Returns (a : A)
| Fails (e : os_error).
Arguments Returns {A} a.
Arguments Fails {A} e.

(** Reading in text mode with the default [newline=None]: a carriage
    return followed by a line feed, and a carriage return alone, are read
    as one line feed. *)
Fixpoint universal_newlines (s : pystr) : pystr :=
  match s with
  | [] => []
  | c :: r =>
      if (c =? 13)%N
      then LF :: match r with
                 | c' :: r' =>
                     if (c' =? LF)%N then universal_newlines r'
                     else universal_newlines r
                 | [] => []
                 end
      else c :: universal_newlines r
  end.

(** [for line in f]: the lines of the text, each with the line feed that
    ends it; the last one has none when the text does not end with one. *)
Fixpoint readlines (s : pystr) : list pystr :=
  match s with
  | [] => []
  | c :: r =>
      if (c =? LF)%N then [c] :: readlines r
      else match readlines r with
           | [] => [[c]]
           | l :: ls => (c :: l) :: ls
           end
  end.

(** [open(filename, 'r')] and the text read from it. *)
Definition open_r (filename : pystr) (σ : fs) : outcome pystr :=
  match files σ !! filename with
  | Some content => Returns (universal_newlines content)
  | None =>
      Fails (if isdir filename σ then IsADirectoryError else FileNotFoundError)
  end.

(** [s.startswith(prefix)] *)
Definition startswith (prefix : pystr) (s : pystr) : bool :=
  bool_decide (take (length prefix) s = prefix).

(** The condition of line 8: [line and not line.startswith("#")]. *)
Definition kept (line : pystr) : bool :=
  negb (Transcribe.is_empty line) && negb (startswith (lit "#") line).

(** Lines 7-8 on the text of the file. *)
Definition requirements (text : pystr) : list pystr :=
  let lineiter := map strip (readlines text) in
  List.filter kept lineiter.

(** Lines 4-8. *)
Definition parse_requirements (filename : pystr) (σ : fs)
  : outcome (list pystr) :=
  match open_r filename σ with
  | Returns text => Returns (requirements text)
  | Fails e => Fails e
  end.

End Setup.

(** ** The start of [main], lines 176-220 *)

Module Launch.
Import Py OS Transcribe.

(** Lines 177-178: the prompts are shown when [args.file] is [None] or
    empty. *)
Definition setup `{Builtins} (σ : fs) (has_gpu : bool) (args : Args)
  (stdin : list pystr) : result (Args * list pystr) :=
  match file args with
  | Some (_ :: _) => Ok (args, stdin)
  | _ => interactive_setup σ has_gpu args stdin
  end.

(** Lines 181-183. *)
Definition resolve_device (has_gpu : bool) (args : Args) : pystr :=
  if str_eqb (device args) (lit "auto")
  then (if has_gpu then lit "cuda" else lit "cpu")
  else device args.

(** Lines 185-187. *)
Definition resolve_compute_type (device : pystr) (args : Args) : pystr :=
  if str_eqb (compute_type args) (lit "auto")
  then (if str_eqb device (lit "cuda") then lit "float16" else lit "int8")
  else compute_type args.

(** A value of the keyword dict: a string or an integer. *)
Inductive kwarg := KStr (s : pystr) | KInt (n : Z).

(** Lines 191-196: the dict [model_kwargs]. *)
Definition model_kwargs (has_gpu : bool) (args : Args) : gmap pystr kwarg :=
  let device := resolve_device has_gpu args in
  let compute_type := resolve_compute_type device args in
  let model_kwargs : gmap pystr kwarg :=
    <[ lit "compute_type" := KStr compute_type ]>
      (<[ lit "device" := KStr device ]> ∅) in
  if str_eqb device (lit "cpu")
  then <[ lit "cpu_threads" := KInt (cpu_threads args) ]> model_kwargs
  else model_kwargs.

End Launch.

(** ** The text a JSON string denotes

    Section 7 of RFC 8259, as [json.loads] reads it: an escape stands for
    its character, [\uXXXX] for the character of that code, and the
    escape of a high surrogate followed by the escape of a low one for the
    single character above the basic plane that the pair encodes. *)

Module Json_read.
Import Py.

Definition hex_value (c : codepoint) : option N :=
  (if (48 <=? c) && (c <=? 57) then Some (c - 48)
   else if (97 <=? c) && (c <=? 102) then Some (c - 87)
   else if (65 <=? c) && (c <=? 70) then Some (c - 55)
   else None)%N.

Definition hex4_value (h1 h2 h3 h4 : codepoint) : option N :=
  match hex_value h1, hex_value h2, hex_value h3, hex_value h4 with
  | Some a, Some b, Some c, Some d => Some (((a * 16 + b) * 16 + c) * 16 + d)%N
  | _, _, _, _ => None
  end.

(** The character of a two-character escape. *)
Definition simple_escape (e : codepoint) : option codepoint :=
  (if e =? 34 then Some 34
   else if e =? 92 then Some 92
   else if e =? 47 then Some 47
   else if e =? 98 then Some 8
   else if e =? 102 then Some 12
   else if e =? 110 then Some 10
   else if e =? 114 then Some 13
   else if e =? 116 then Some 9
   else None)%N.

(** The low surrogate escaped at the head of a text, and what follows
    it. *)
Definition low_surrogate (s : pystr) : option N :=
  match s with
  | b :: u :: g1 :: g2 :: g3 :: g4 :: _ =>
      if ((b =? 92) && (u =? 117))%N
      then match hex4_value g1 g2 g3 g4 with
           | Some uni2 =>
               if ((56320 <=? uni2) && (uni2 <=? 57343))%N then Some uni2 else None
           | None => None
           end
      else None
  | _ => None
  end.

(** The characters of a string after its opening quotation mark, up to
    the closing one, and the text after it. *)
Fixpoint scanstring (s : pystr) : option (pystr * pystr) :=
  match s with
  | [] => None
  | c :: r =>
      if (c =? 34)%N then Some ([], r)
      else if (c =? 92)%N then
        match r with
        | [] => None
        | e :: r1 =>
            if (e =? 117)%N then
              match r1 with
              | h1 :: h2 :: h3 :: h4 :: r2 =>
                  match hex4_value h1 h2 h3 h4 with
                  | None => None
                  | Some uni =>
                      match (if ((55296 <=? uni) && (uni <=? 56319))%N
                             then low_surrogate r2 else None), r2 with
                      | Some uni2, _ :: _ :: _ :: _ :: _ :: _ :: r3 =>
                          match scanstring r3 with
                          | Some (t, rest) =>
                              Some ((65536 + N.lor (N.shiftl (uni - 55296) 10)
                                                   (uni2 - 56320))%N :: t, rest)
                          | None => None
                          end
                      | _, _ =>
                          match scanstring r2 with
                          | Some (t, rest) => Some (uni :: t, rest)
                          | None => None
                          end
                      end
                  end
              | _ => None
              end
            else
              match simple_escape e with
              | Some ch =>
                  match scanstring r1 with
                  | Some (t, rest) => Some (ch :: t, rest)
                  | None => None
                  end
              | None => None
              end
        end
      else if (c <? 32)%N then None
      else match scanstring r with
           | Some (t, rest) => Some (c :: t, rest)
           | None => None
           end
  end.

(** The text of a whole JSON string, quotation marks included. *)
Definition loads_string (s : pystr) : option pystr :=
  match s with
  | c :: r =>
      if (c =? 34)%N
      then match scanstring r with
           | Some (t, []) => Some t
           | _ => None
           end
      else None
  | [] => None
  end.

(** *** [json.loads]

    What [json.loads] returns: [None], a [bool], an [int], a [float], a
    [str], a [list], or a [dict], whose items are kept in the order of
    their first insertion. *)
Inductive pyobj :=
| PNone
| PBool (b : bool)
| PInt (i : Z)
| PFloat (x : F64.float)
| PStr (s : pystr)
| PList (l : list pyobj)
| PDict (items : list (pystr * pyobj)).

(** [d[k] = v] *)
Fixpoint dict_set (k : pystr) (v : pyobj) (d : list (pystr * pyobj))
  : list (pystr * pyobj) :=
  match d with
  | [] => [(k, v)]
  | (k', v') :: d' =>
      if str_eqb k k' then (k, v) :: d' else (k', v') :: dict_set k v d'
  end.

(** [dict(pairs)]: a key met again takes the later value. *)
Definition dict_of (pairs : list (pystr * pyobj)) : list (pystr * pyobj) :=
  foldl (fun d kv => dict_set kv.1 kv.2 d) [] pairs.

Section Loads.
Context `{Builtins}.

(** [parse_float], which is [float] unless the caller gives another. *)
Variable parse_float : pystr -> option F64.float.

(** A number: the longest text of the grammar of numbers, handed to
    [parse_float] when it has a fraction or an exponent and to [int]
    otherwise. Where the regular expression of [json.scanner] would stop
    before a [.] or an [e] that no digit follows, [json.loads] fails at
    that character; so does this reader. *)
Definition number (s : pystr) : option (pyobj * pystr) :=
  match Rfc8259.number s with
  | Some rest =>
      let text := take (length s - length rest) s in
      if existsb (fun c => (c =? 46) || (c =? 101) || (c =? 69))%N text
      then match parse_float text with
           | Some x => Some (PFloat x, rest)
           | None => None
           end
      else match py_int text with
           | Some i => Some (PInt i, rest)
           | None => None
           end
  | None => None
  end.

(** The three names [json.loads] takes besides the numbers of the
    grammar. *)
Definition constant (s : pystr) : option (pyobj * pystr) :=
  match Rfc8259.name (lit "NaN") s with
  | Some r => Some (PFloat S754_nan, r)
  | None =>
      match Rfc8259.name (lit "Infinity") s with
      | Some r => Some (PFloat (S754_infinity false), r)
      | None =>
          match Rfc8259.name (lit "-Infinity") s with
          | Some r => Some (PFloat (S754_infinity true), r)
          | None => None
          end
      end
  end.

(** One value at the head of a text; the values of an array after its
    first bracket; the pairs of an object from its first key on. The
    fuel bounds the nesting and the number of items. *)
Fixpoint value (fuel : nat) (s : pystr) : option (pyobj * pystr) :=
  match fuel with
  | O => None
  | S f =>
      match s with
      | [] => None
      | c :: r =>
          if (c =? 34)%N then
            match scanstring r with
            | Some (t, rest) => Some (PStr t, rest)
            | None => None
            end
          else if (c =? 123)%N then
            match Rfc8259.skip_ws r with
            | c' :: r' =>
                if (c' =? 125)%N then Some (PDict [], r')
                else match members f (c' :: r') with
                     | Some (pairs, rest) => Some (PDict (dict_of pairs), rest)
                     | None => None
                     end
            | [] => None
            end
          else if (c =? 91)%N then
            match Rfc8259.skip_ws r with
            | c' :: r' =>
                if (c' =? 93)%N then Some (PList [], r')
                else match elements f (c' :: r') with
                     | Some (l, rest) => Some (PList l, rest)
                     | None => None
                     end
            | [] => None
            end
          else
            match (if (c =? 110)%N then Rfc8259.name (lit "null") s else None),
                  (if (c =? 116)%N then Rfc8259.name (lit "true") s else None),
                  (if (c =? 102)%N then Rfc8259.name (lit "false") s else None) with
            | Some rest, _, _ => Some (PNone, rest)
            | None, Some rest, _ => Some (PBool true, rest)
            | None, None, Some rest => Some (PBool false, rest)
            | None, None, None =>
                match number s with
                | Some v => Some v
                | None => constant s
                end
            end
      end
  end
with elements (fuel : nat) (s : pystr) : option (list pyobj * pystr) :=
  match fuel with
  | O => None
  | S f =>
      match value f s with
      | Some (v, r) =>
          match Rfc8259.skip_ws r with
          | c :: r' =>
              if (c =? 93)%N then Some ([v], r')
              else if (c =? 44)%N then
                match elements f (Rfc8259.skip_ws r') with
                | Some (l, rest) => Some (v :: l, rest)
                | None => None
                end
              else None
          | [] => None
          end
      | None => None
      end
  end
with members (fuel : nat) (s : pystr) : option (list (pystr * pyobj) * pystr) :=
  match fuel with
  | O => None
  | S f =>
      match s with
      | c :: r =>
          if (c =? 34)%N then
            match scanstring r with
            | Some (key, r1) =>
                match Rfc8259.skip_ws r1 with
                | c1 :: r2 =>
                    if (c1 =? 58)%N then
                      match value f (Rfc8259.skip_ws r2) with
                      | Some (v, r3) =>
                          match Rfc8259.skip_ws r3 with
                          | c3 :: r4 =>
                              if (c3 =? 125)%N then Some ([(key, v)], r4)
                              else if (c3 =? 44)%N then
                                match members f (Rfc8259.skip_ws r4) with
                                | Some (l, rest) => Some ((key, v) :: l, rest)
                                | None => None
                                end
                              else None
                          | [] => None
                          end
                      | None => None
                      end
                    else None
                | [] => None
                end
            | None => None
            end
          else None
      | [] => None
      end
  end.

(** [json.loads(s)]: one value between white space, and nothing after. *)
Definition loads (s : pystr) : option pyobj :=
  match value (S (length s)) (Rfc8259.skip_ws s) with
  | Some (v, rest) => match Rfc8259.skip_ws rest with [] => Some v | _ => None end
  | None => None
  end.

End Loads.

(** *** What is written, read back *)

(** A text of Unicode scalar values: no surrogate code point. *)
Definition scalar (s : pystr) : Prop :=
  Forall (fun c => (c < 1114112)%N /\ ~ (55296 <= c <= 57343)%N) s.

(** [repr(x)] is a number of the JSON grammar with a fraction or an
    exponent, and [parse_float] reads it back as [x]: what Python's
    [repr] and [float] do for every finite float. *)
Definition float_reads_back `{Builtins} (parse_float : pystr -> option F64.float)
  (x : F64.float) : Prop :=
  F64.is_finite x = true
  /\ Rfc8259.number (float_repr x) = Some []
  /\ existsb (fun c => (c =? 46) || (c =? 101) || (c =? 69))%N (float_repr x) = true
  /\ parse_float (float_repr x) = Some x.

(** The text of [v], written at any level before a text that cannot
    continue a number, is read as [o], with fuel for each character. *)
Definition read_back `{Builtins} (parse_float : pystr -> option F64.float)
  (v : Json.json) (o : pyobj) : Prop :=
  forall level rest fuel,
    Rfc8259.ends_number rest = true ->
    (length (Json.encode level v) <= fuel)%nat ->
    value parse_float fuel (Json.encode level v ++ rest) = Some (o, rest).

End Json_read.

Import Py F64 Datetime Json PosixPath OS Transcribe Shape.

(** * Proofs *)

(** ** Decimal formatting *)

Lemma is_digit_digit d : 0 <= d < 10 -> is_digit (digit d) = true.
Proof.
  intros Hd. unfold is_digit, digit.
  apply andb_true_intro; split; apply N.leb_le; lia.
Qed.

Lemma digits_fuel_digits fuel : forall n acc,
  Forall (fun c => is_digit c = true) acc ->
  Forall (fun c => is_digit c = true) (digits_fuel fuel n acc).
Proof.
  induction fuel as [|f IH]; intros n acc Hacc; simpl.
  - constructor; [apply is_digit_digit, Z.mod_pos_bound; lia | exact Hacc].
  - destruct (n <? 10).
    + constructor; [apply is_digit_digit, Z.mod_pos_bound; lia | exact Hacc].
    + apply IH. constructor; [apply is_digit_digit, Z.mod_pos_bound; lia | exact Hacc].
Qed.

(** A number of [k+1] decimal digits is printed with [k+1] characters
    as soon as the fuel is [k] or more. *)
Lemma digits_fuel_length fuel : forall k n acc,
  (k <= fuel)%nat -> 0 <= n < 10 ^ Z.of_nat (S k) ->
  (k <> O -> 10 ^ Z.of_nat k <= n) ->
  length (digits_fuel fuel n acc) = (S k + length acc)%nat.
Proof.
  induction fuel as [|f IH]; intros k n acc Hk Hn Hlow.
  - assert (k = O) by lia. subst k. reflexivity.
  - simpl. destruct (Z.ltb_spec n 10) as [Hlt|Hge].
    + destruct k as [|k]; [reflexivity|].
      exfalso. specialize (Hlow ltac:(lia)).
      assert (10 ^ 1 <= 10 ^ Z.of_nat (S k)) by (apply Z.pow_le_mono_r; lia).
      lia.
    + destruct k as [|k].
      * change (10 ^ Z.of_nat 1) with 10 in Hn. lia.
      * rewrite (IH k); [simpl; lia | lia | |].
        -- rewrite Nat2Z.inj_succ, Z.pow_succ_r in Hn by lia.
           split; [apply Z.div_pos; lia|].
           apply Z.div_lt_upper_bound; lia.
        -- intros _. specialize (Hlow ltac:(lia)).
           rewrite Nat2Z.inj_succ, Z.pow_succ_r in Hlow by lia.
           apply Z.div_le_lower_bound; lia.
Qed.

Lemma log2_pow10 k n : 10 ^ Z.of_nat k <= n -> (k <= Z.to_nat (Z.log2 n))%nat.
Proof.
  intros H.
  assert (H2 : 2 ^ Z.of_nat k <= 10 ^ Z.of_nat k)
    by (apply Z.pow_le_mono_l; lia).
  assert (0 < 2 ^ Z.of_nat k) by (apply Z.pow_pos_nonneg; lia).
  assert (Z.of_nat k <= Z.log2 n) by (apply Z.log2_le_pow2; lia).
  lia.
Qed.

Lemma str_nat_length k n :
  0 <= n < 10 ^ Z.of_nat (S k) -> (k <> O -> 10 ^ Z.of_nat k <= n) ->
  length (str_nat n) = S k.
Proof.
  intros Hn Hlow. unfold str_nat.
  rewrite (digits_fuel_length _ k); [simpl; lia | | exact Hn | exact Hlow].
  destruct k as [|k]; [lia|]. apply log2_pow10, Hlow. lia.
Qed.

Lemma str_nat_digits n : Forall (fun c => is_digit c = true) (str_nat n).
Proof. apply digits_fuel_digits. constructor. Qed.

Lemma digits_fuel_length_acc f : forall m acc,
  (length acc < length (digits_fuel f m acc))%nat.
Proof.
  induction f as [|f IH]; intros m acc; simpl; [lia|].
  destruct (m <? 10); simpl; [lia|].
  etransitivity; [|apply IH]. simpl; lia.
Qed.

Lemma digits_fuel_length_ge k : forall n acc f,
  (k <= f)%nat -> 10 ^ Z.of_nat k <= n ->
  (S k + length acc <= length (digits_fuel f n acc))%nat.
Proof.
  induction k as [|k IH]; intros n acc f Hf H.
  - pose proof (digits_fuel_length_acc f n acc). lia.
  - destruct f as [|f]; [lia|]. simpl.
    rewrite Nat2Z.inj_succ, Z.pow_succ_r in H by lia.
    assert (0 < 10 ^ Z.of_nat k) by (apply Z.pow_pos_nonneg; lia).
    destruct (Z.ltb_spec n 10); [lia|].
    etransitivity; [|apply IH]; [simpl; lia | lia | apply Z.div_le_lower_bound; lia].
Qed.

Lemma str_nat_length_ge k n :
  10 ^ Z.of_nat k <= n -> (S k <= length (str_nat n))%nat.
Proof.
  intros H. unfold str_nat.
  pose proof (digits_fuel_length_ge k n [] _ (log2_pow10 _ _ H) H). simpl in *. lia.
Qed.

Lemma format_zero_nonneg w n : 0 <= n -> format_zero w n = zfill w (str_nat n).
Proof. intros H. unfold format_zero. destruct (Z.ltb_spec n 0); [lia | reflexivity]. Qed.

Lemma zfill_length w s : length (zfill w s) = Nat.max w (length s).
Proof. unfold zfill. rewrite length_app, length_replicate. lia. Qed.

Lemma zfill_digits w s :
  Forall (fun c => is_digit c = true) s ->
  Forall (fun c => is_digit c = true) (zfill w s).
Proof.
  intros H. unfold zfill. apply Forall_app; split; [|exact H].
  apply Forall_replicate. reflexivity.
Qed.

(** Below one hundred, [{:02}] prints two digits. *)
Lemma format_zero_two n :
  0 <= n < 100 ->
  exists a b, format_zero 2 n = [a; b] /\ is_digit a = true /\ is_digit b = true.
Proof.
  intros Hn. rewrite format_zero_nonneg by lia.
  assert (Hd := zfill_digits 2 _ (str_nat_digits n)).
  assert (Hl : length (zfill 2 (str_nat n)) = 2%nat).
  { rewrite zfill_length.
    destruct (Z.ltb_spec n 10).
    - rewrite (str_nat_length 0); [reflexivity | simpl; lia | lia].
    - rewrite (str_nat_length 1); [reflexivity | simpl; lia | simpl; lia]. }
  destruct (zfill 2 (str_nat n)) as [|a [|b [|c l]]]; simpl in Hl; try lia.
  exists a, b. inversion Hd as [|? ? Ha Hd']; subst. inversion Hd' as [|? ? Hb _]; subst.
  auto.
Qed.

(** Below one thousand, [{:03}] prints three digits. *)
Lemma format_zero_three n :
  0 <= n < 1000 ->
  exists a b c, format_zero 3 n = [a; b; c]
    /\ is_digit a = true /\ is_digit b = true /\ is_digit c = true.
Proof.
  intros Hn. rewrite format_zero_nonneg by lia.
  assert (Hd := zfill_digits 3 _ (str_nat_digits n)).
  assert (Hl : length (zfill 3 (str_nat n)) = 3%nat).
  { rewrite zfill_length.
    destruct (Z.ltb_spec n 10).
    - rewrite (str_nat_length 0); [reflexivity | simpl; lia | lia].
    - destruct (Z.ltb_spec n 100).
      + rewrite (str_nat_length 1); [reflexivity | simpl; lia | simpl; lia].
      + rewrite (str_nat_length 2); [reflexivity | simpl; lia | simpl; lia]. }
  destruct (zfill 3 (str_nat n)) as [|a [|b [|c [|d l]]]]; simpl in Hl; try lia.
  exists a, b, c.
  inversion Hd as [|? ? Ha Hd']; subst. inversion Hd' as [|? ? Hb Hd'']; subst.
  inversion Hd'' as [|? ? Hc _]; subst. auto.
Qed.

(** From one hundred on, [{:02}] prints all the digits: three or more. *)
Lemma format_zero_wide n :
  100 <= n ->
  format_zero 2 n = str_nat n /\ (3 <= length (str_nat n))%nat.
Proof.
  intros Hn.
  assert (Hl : (3 <= length (str_nat n))%nat) by (apply (str_nat_length_ge 2); simpl; lia).
  split; [|exact Hl].
  rewrite format_zero_nonneg by lia. unfold zfill.
  replace (2 - length (str_nat n))%nat with O by lia. reflexivity.
Qed.

(** ** Rounding to binary64: signs and magnitudes *)

Lemma digits2_pos_bounds p :
  2 ^ (Zpos (digits2_pos p) - 1) <= Zpos p < 2 ^ Zpos (digits2_pos p).
Proof.
  induction p as [p IH|p IH|]; simpl digits2_pos.
  - rewrite Pos2Z.inj_succ.
    replace (Z.succ (Zpos (digits2_pos p)) - 1) with (Z.succ (Zpos (digits2_pos p) - 1)) by lia.
    rewrite !Z.pow_succ_r by lia. lia.
  - rewrite Pos2Z.inj_succ.
    replace (Z.succ (Zpos (digits2_pos p)) - 1) with (Z.succ (Zpos (digits2_pos p) - 1)) by lia.
    rewrite !Z.pow_succ_r by lia. lia.
  - simpl. lia.
Qed.

Lemma Zdigits2_nonneg z : 0 <= Zdigits2 z.
Proof. destruct z; simpl; lia. Qed.

Lemma Zdigits2_lt z : 0 <= z -> z < 2 ^ Zdigits2 z.
Proof.
  destruct z as [|p|p]; simpl; intros H; [lia | apply digits2_pos_bounds | lia].
Qed.

Lemma Zdigits2_le z k : 0 <= z < 2 ^ k -> 0 <= k -> Zdigits2 z <= k.
Proof.
  destruct z as [|p|p]; simpl; intros [H0 H1] Hk; [lia | | lia].
  pose proof (digits2_pos_bounds p) as [Hlo _].
  destruct (Z.le_gt_cases (Zpos (digits2_pos p)) k) as [|Hgt]; [assumption|].
  assert (2 ^ k <= 2 ^ (Zpos (digits2_pos p) - 1)) by (apply Z.pow_le_mono_r; lia).
  lia.
Qed.

Lemma Zdigits2_mono a b : 0 <= a <= b -> Zdigits2 a <= Zdigits2 b.
Proof.
  intros [Ha Hab]. apply Zdigits2_le; [|apply Zdigits2_nonneg].
  split; [assumption|]. pose proof (Zdigits2_lt b). lia.
Qed.

Lemma Zdigits2_mul a b : 0 <= a -> 0 <= b -> Zdigits2 (a * b) <= Zdigits2 a + Zdigits2 b.
Proof.
  intros Ha Hb.
  pose proof (Zdigits2_nonneg a). pose proof (Zdigits2_nonneg b).
  apply Zdigits2_le; [|lia]. split; [lia|].
  rewrite Z.pow_add_r by lia.
  pose proof (Zdigits2_lt a Ha). pose proof (Zdigits2_lt b Hb). nia.
Qed.

Lemma Zdigits2_succ a : 0 <= a -> Zdigits2 (a + 1) <= Zdigits2 a + 1.
Proof.
  intros Ha. pose proof (Zdigits2_nonneg a).
  apply Zdigits2_le; [|lia]. split; [lia|].
  rewrite Z.pow_add_r by lia. pose proof (Zdigits2_lt a Ha). change (2 ^ 1) with 2. lia.
Qed.

(** A shift to the right by [n] keeps [m' * 2^n <= m]. *)
Lemma shr_1_bound mrs :
  0 <= shr_m mrs -> 0 <= shr_m (shr_1 mrs) /\ 2 * shr_m (shr_1 mrs) <= shr_m mrs.
Proof.
  destruct mrs as [m r s]. simpl.
  destruct m as [|[p|p|]|p]; simpl; intros H; lia.
Qed.

Lemma iter_shr_1_bound p : forall mrs,
  0 <= shr_m mrs ->
  0 <= shr_m (SpecFloat.iter_pos shr_1 p mrs)
  /\ 2 ^ Zpos p * shr_m (SpecFloat.iter_pos shr_1 p mrs) <= shr_m mrs.
Proof.
  induction p as [p IH|p IH|]; intros mrs H; simpl SpecFloat.iter_pos.
  - destruct (shr_1_bound mrs H) as [H1 H1'].
    destruct (IH _ H1) as [H2 H2']. destruct (IH _ H2) as [H3 H3'].
    split; [assumption|].
    replace (Zpos p~1) with (Zpos p + Zpos p + 1) by lia.
    rewrite !Z.pow_add_r by lia. change (2 ^ 1) with 2.
    assert (0 < 2 ^ Zpos p) by (apply Z.pow_pos_nonneg; lia). nia.
  - destruct (IH _ H) as [H2 H2']. destruct (IH _ H2) as [H3 H3'].
    split; [assumption|].
    replace (Zpos p~0) with (Zpos p + Zpos p) by lia.
    rewrite !Z.pow_add_r by lia.
    assert (0 < 2 ^ Zpos p) by (apply Z.pow_pos_nonneg; lia). nia.
  - destruct (shr_1_bound mrs H). change (2 ^ 1) with 2. lia.
Qed.

Lemma shr_record_of_loc_m m l : shr_m (shr_record_of_loc m l) = m.
Proof. destruct l as [|[]]; reflexivity. Qed.

(** [shr_fexp] on a non-negative mantissa: the exponent becomes the
    larger of [e] and [fexp], and the binade does not grow. *)
Lemma shr_fexp_bound m e l :
  0 <= m ->
  let '(mrs, e') := shr_fexp prec emax m e l in
  0 <= shr_m mrs
  /\ e' = Z.max e (fexp prec emax (Zdigits2 m + e))
  /\ (0 < shr_m mrs -> Zdigits2 (shr_m mrs) + e' <= Zdigits2 m + e).
Proof.
  intros Hm. unfold shr_fexp, shr.
  set (n := fexp prec emax (Zdigits2 m + e) - e).
  destruct n as [|p|p] eqn:En.
  - rewrite shr_record_of_loc_m. repeat split; [lia | lia | lia].
  - pose proof (iter_shr_1_bound p (shr_record_of_loc m l)) as Hb.
    rewrite shr_record_of_loc_m in Hb. destruct (Hb Hm) as [H0 H1].
    split; [assumption|]. split; [lia|].
    intros Hpos.
    set (m' := shr_m (SpecFloat.iter_pos shr_1 p (shr_record_of_loc m l))) in *.
    assert (Zdigits2 m' + Zpos p <= Zdigits2 m); [|lia].
    destruct m' as [|q|q] eqn:Em'; try lia.
    pose proof (digits2_pos_bounds q) as [Hlo _].
    pose proof (Zdigits2_lt m Hm) as Hhi.
    simpl Zdigits2 at 1.
    destruct (Z.le_gt_cases (Zpos (digits2_pos q) + Zpos p) (Zdigits2 m)) as [|Hgt]; [assumption|].
    exfalso.
    assert (2 ^ Zdigits2 m <= 2 ^ (Zpos (digits2_pos q) - 1 + Zpos p))
      by (apply Z.pow_le_mono_r; lia).
    rewrite Z.pow_add_r in H by lia.
    assert (0 < 2 ^ Zpos p) by (apply Z.pow_pos_nonneg; lia).
    nia.
  - rewrite shr_record_of_loc_m. repeat split; [lia | lia | lia].
Qed.

Lemma round_nearest_even_bound m l :
  0 <= m -> m <= round_nearest_even m l <= m + 1.
Proof.
  intros H. destruct l as [|[]]; simpl; try lia. destruct (Z.even m); lia.
Qed.

(** Rounding a non-negative [m * 2^e] in the range of binary64 gives
    zero or a positive finite float, at most one binade higher. *)
Lemma binary_round_aux_nonneg m e l :
  0 <= m -> e <= 971 -> Zdigits2 m + e <= 1023 ->
  nonneg_finite (Z.max (Zdigits2 m + e) (-1074) + 1)
    (binary_round_aux prec emax false m e l).
Proof.
  intros Hm He HB. unfold binary_round_aux.
  pose proof (shr_fexp_bound m e l Hm) as H1.
  destruct (shr_fexp prec emax m e l) as [mrs' e'].
  destruct H1 as (H1m & H1e & H1d).
  pose proof (round_nearest_even_bound (shr_m mrs') (loc_of_shr_record mrs') H1m) as Hr.
  set (m2 := round_nearest_even (shr_m mrs') (loc_of_shr_record mrs')) in *.
  assert (Hm2 : 0 <= m2) by lia.
  pose proof (shr_fexp_bound m2 e' loc_Exact Hm2) as H2.
  destruct (shr_fexp prec emax m2 e' loc_Exact) as [mrs'' e''].
  destruct H2 as (H2m & H2e & H2d).
  assert (Hfe : forall k, fexp prec emax k = Z.max (k - 53) (-1074)) by reflexivity.
  rewrite Hfe in H1e, H2e.
  pose proof (Zdigits2_nonneg m) as Hdm.
  assert (Hd2 : Zdigits2 m2 + e' <= Z.max (Zdigits2 m + e) (-1074) + 1).
  { destruct (Z.eq_dec (shr_m mrs') 0) as [Hz|Hnz].
    - assert (Zdigits2 m2 <= 1).
      { apply Zdigits2_le; [|lia]. change (2 ^ 1) with 2. lia. }
      lia.
    - pose proof (Zdigits2_succ (shr_m mrs') H1m).
      pose proof (Zdigits2_mono m2 (shr_m mrs' + 1) ltac:(lia)).
      specialize (H1d ltac:(lia)). lia. }
  destruct (shr_m mrs'') as [|q|q] eqn:Eq; simpl; [exact I | | lia].
  specialize (H2d ltac:(lia)). simpl in H2d.
  destruct (Z.leb_spec e'' (emax - prec)) as [Hle|Hgt]; simpl.
  - split; [reflexivity|]. lia.
  - change (emax - prec) with 971 in Hgt.
    pose proof (Zdigits2_nonneg m2). lia.
Qed.

Lemma nonneg_finite_mono B B' f : nonneg_finite B f -> B <= B' -> nonneg_finite B' f.
Proof. destruct f; simpl; intuition lia. Qed.

Lemma digits2_pos_iter_xO m d :
  Zpos (digits2_pos (Pos.iter xO m d)) = Zpos (digits2_pos m) + Zpos d.
Proof.
  induction d as [|d IH] using Pos.peano_ind.
  - simpl. lia.
  - rewrite Pos.iter_succ. simpl digits2_pos. rewrite Pos2Z.inj_succ, IH. lia.
Qed.

Lemma shl_align_bound mx ex ex' :
  let '(mz, ez) := shl_align mx ex ex' in
  Zdigits2 (Zpos mz) + ez = Zdigits2 (Zpos mx) + ex /\ ez <= ex.
Proof.
  unfold shl_align. destruct (ex' - ex) as [|d|d] eqn:E; simpl; try lia.
  rewrite digits2_pos_iter_xO. lia.
Qed.

Lemma binary_round_nonneg mx ex :
  ex <= 971 -> Zdigits2 (Zpos mx) + ex <= 1023 ->
  nonneg_finite (Z.max (Zdigits2 (Zpos mx) + ex) (-1074) + 1)
    (binary_round prec emax false mx ex).
Proof.
  intros He HB. unfold binary_round.
  pose proof (shl_align_bound mx ex (fexp prec emax (Zpos (digits2_pos mx) + ex))) as Hs.
  destruct (shl_align mx ex _) as [mz ez]. destruct Hs as [Hd Hle].
  rewrite <- Hd. apply binary_round_aux_nonneg; lia.
Qed.

(** The fractional part of a non-negative float is below one. *)
Lemma fracpart_nonneg x :
  is_finite x = true -> nonneg x = true -> nonneg_finite 1 (fracpart x).
Proof.
  destruct x as [s|s| |s m e]; simpl; try discriminate; [trivial|].
  intros _ Hs. destruct s; [discriminate|]. clear Hs.
  destruct (Z.leb_spec 0 e) as [|Hneg]; simpl; [trivial|].
  assert (Hpow : 0 < 2 ^ (- e)) by (apply Z.pow_pos_nonneg; lia).
  pose proof (Z.mod_pos_bound (Zpos m) (2 ^ (- e)) Hpow) as Hmod.
  destruct (Zpos m mod 2 ^ (- e)) as [|p|p] eqn:Ep; simpl; [trivial | | lia].
  assert (Hd : Zdigits2 (Zpos p) <= - e) by (apply Zdigits2_le; lia).
  eapply nonneg_finite_mono; [apply binary_round_nonneg; lia | lia].
Qed.

Lemma of_Z_million : of_Z 1000000 = S754_finite false 8589934592000000 (-33).
Proof. reflexivity. Qed.

(** The fraction scaled to microseconds stays below [2^22]. *)
Lemma mul_million_nonneg f :
  nonneg_finite 1 f -> nonneg_finite 22 (mul f (of_Z 1000000)).
Proof.
  rewrite of_Z_million. destruct f as [s|s| |s m e]; simpl; try tauto.
  intros [-> Hd]. unfold mul, SFmul. simpl xorb.
  pose proof (Zdigits2_mul (Zpos m) 8589934592000000 ltac:(lia) ltac:(lia)) as Hm.
  change (Zdigits2 8589934592000000) with 53 in Hm.
  pose proof (Zdigits2_nonneg (Zpos m)).
  change (Zpos (m * 8589934592000000)) with (Zpos m * 8589934592000000).
  eapply nonneg_finite_mono; [apply binary_round_aux_nonneg; simpl Zdigits2 in *; lia|].
  simpl Zdigits2 in *. lia.
Qed.

Lemma round_half_even_nonneg c f :
  0 <= c -> nonneg_finite c f ->
  exists r, round_half_even f = Ok r /\ 0 <= r <= 2 ^ c.
Proof.
  intros Hc. assert (0 < 2 ^ c) by (apply Z.pow_pos_nonneg; lia).
  destruct f as [s|s| |s m e]; simpl; try tauto.
  - intros _. exists 0. split; [reflexivity | lia].
  - intros [-> Hd]. simpl cond_Zopp.
    pose proof (digits2_pos_bounds m) as [_ Hhi].
    assert (Hle : 2 ^ Zpos (digits2_pos m) <= 2 ^ (c - e))
      by (apply Z.pow_le_mono_r; lia).
    destruct (Z.leb_spec 0 e) as [Hpos|Hneg].
    + eexists; split; [reflexivity|].
      assert (0 < 2 ^ e) by (apply Z.pow_pos_nonneg; lia).
      replace c with (c - e + e) by lia. rewrite Z.pow_add_r by lia. nia.
    + assert (Hk : 0 < 2 ^ (- e)) by (apply Z.pow_pos_nonneg; lia).
      replace (c - e) with (c + - e) in Hle by lia. rewrite Z.pow_add_r in Hle by lia.
      assert (Hq : Zpos m / 2 ^ (- e) < 2 ^ c)
        by (apply Z.div_lt_upper_bound; lia).
      assert (0 <= Zpos m / 2 ^ (- e)) by (apply Z.div_pos; lia).
      eexists; split; [reflexivity|]. simpl cond_Zopp.
      destruct (_ || _); lia.
Qed.

Lemma trunc_nonneg c f :
  nonneg_finite c f -> exists t, trunc f = Ok t /\ 0 <= t.
Proof.
  destruct f as [s|s| |s m e]; simpl; try tauto.
  - intros _. exists 0. split; [reflexivity | lia].
  - intros [-> _]. eexists; split; [reflexivity|]. simpl cond_Zopp.
    destruct (Z.leb_spec 0 e).
    + assert (0 <= 2 ^ e) by (apply Z.pow_nonneg; lia). nia.
    + apply Z.div_pos; [lia|]. apply Z.pow_pos_nonneg; lia.
Qed.

(** The quotient of two positive integers is a positive finite float
    when the dividend has at most 1023 bits. *)
Lemma true_div_nonneg a b :
  0 <= a -> 0 < b -> Zdigits2 a <= 1023 ->
  exists f, true_div a b = Ok f /\ nonneg_finite 1024 f.
Proof.
  intros Ha Hb Hd. unfold true_div.
  destruct a as [|p|p]; [eexists; split; [reflexivity | exact I] | | lia].
  change (Z.abs (Zpos p)) with (Zpos p). change (Zpos p <? 0) with false.
  unfold SFdiv_core_binary.
  set (e' := Z.min (fexp prec emax (Zdigits2 (Zpos p) + 0 - (Zdigits2 b + 0))) (0 - 0)).
  assert (He' : e' <= 0) by (unfold e'; lia).
  set (m' := match 0 - 0 - e' with Z0 => Zpos p | Zpos _ => Z.shiftl (Zpos p) (0 - 0 - e') | Zneg _ => 0 end).
  assert (Hm' : 0 <= m' /\ Zdigits2 m' <= Zdigits2 (Zpos p) - e').
  { unfold m'. destruct (0 - 0 - e') as [|s|s] eqn:Es; try lia.
    rewrite Z.shiftl_mul_pow2 by lia.
    assert (0 < 2 ^ Zpos s) by (apply Z.pow_pos_nonneg; lia).
    split; [lia|].
    apply Zdigits2_le; [|pose proof (Zdigits2_nonneg (Zpos p)); lia].
    split; [lia|]. replace (Zdigits2 (Zpos p) - e') with (Zdigits2 (Zpos p) + Zpos s) by lia.
    rewrite Z.pow_add_r by (pose proof (Zdigits2_nonneg (Zpos p)); lia).
    pose proof (Zdigits2_lt (Zpos p)). nia. }
  destruct Hm' as [Hm0 Hmd].
  pose proof (Z_div_mod m' b ltac:(lia)) as Hdm.
  destruct (Z.div_eucl m' b) as [q r]. destruct Hdm as [Heq Hr].
  assert (Hq : 0 <= q <= m') by nia.
  pose proof (Zdigits2_mono q m' Hq).
  pose proof (binary_round_aux_nonneg q e' (new_location b r) ltac:(lia) ltac:(lia) ltac:(lia)) as Hbr.
  destruct (binary_round_aux prec emax false q e' (new_location b r)) as [s|s| |s m e];
    simpl in Hbr; try tauto.
  - eexists; split; [reflexivity | exact I].
  - eexists; split; [reflexivity|]. simpl. destruct Hbr as [-> Hbr]. split; [reflexivity|]. lia.
Qed.

(** *** The division, exactly *)

Lemma shr_1_half mrs : 0 <= shr_m mrs -> shr_m (shr_1 mrs) = shr_m mrs / 2.
Proof.
  destruct mrs as [m r s]. cbn [shr_m]. intros Hm.
  destruct m as [|[p|p|]|p]; cbn [shr_1 shr_m];
    first [ lia | reflexivity
          | apply (Z.div_unique _ 2 _ 1); lia
          | apply (Z.div_unique _ 2 _ 0); lia ].
Qed.

Lemma iter_shr_1_div p : forall mrs,
  0 <= shr_m mrs ->
  shr_m (SpecFloat.iter_pos shr_1 p mrs) = shr_m mrs / 2 ^ Zpos p.
Proof.
  assert (Hpos : forall q, 0 < 2 ^ Zpos q) by (intros; apply Z.pow_pos_nonneg; lia).
  induction p as [p IH|p IH|]; intros mrs H; simpl SpecFloat.iter_pos.
  - pose proof (shr_1_bound mrs H) as [H1 _].
    pose proof (iter_shr_1_bound p _ H1) as [H2 _].
    rewrite IH, IH, shr_1_half by assumption.
    pose proof (Hpos p).
    rewrite !Zdiv.Zdiv_Zdiv by lia. f_equal.
    replace (Zpos p~1) with (1 + Zpos p + Zpos p) by lia.
    rewrite !Z.pow_add_r by lia. change (2 ^ 1) with 2. lia.
  - pose proof (iter_shr_1_bound p _ H) as [H2 _].
    rewrite IH, IH by assumption. pose proof (Hpos p).
    rewrite !Zdiv.Zdiv_Zdiv by lia. f_equal.
    replace (Zpos p~0) with (Zpos p + Zpos p) by lia.
    rewrite !Z.pow_add_r by lia. lia.
  - rewrite shr_1_half by assumption. reflexivity.
Qed.

(** [shr_fexp] divides the mantissa by the power of two that brings the
    exponent up to [fexp]. *)
Lemma shr_fexp_div m e l :
  0 <= m ->
  let e' := Z.max e (fexp prec emax (Zdigits2 m + e)) in
  shr_m (fst (shr_fexp prec emax m e l)) = m / 2 ^ (e' - e)
  /\ snd (shr_fexp prec emax m e l) = e'.
Proof.
  intros Hm e'. unfold shr_fexp, shr. subst e'.
  destruct (fexp prec emax (Zdigits2 m + e) - e) as [|p|p] eqn:En; cbn [fst snd].
  - rewrite shr_record_of_loc_m. replace (Z.max _ _ - e) with 0 by lia.
    rewrite Z.div_1_r. split; [reflexivity | lia].
  - rewrite iter_shr_1_div by (rewrite shr_record_of_loc_m; exact Hm).
    rewrite shr_record_of_loc_m. replace (Z.max _ _ - e) with (Zpos p) by lia.
    split; [reflexivity | lia].
  - rewrite shr_record_of_loc_m. replace (Z.max _ _ - e) with 0 by lia.
    rewrite Z.div_1_r. split; [reflexivity | lia].
Qed.

(** The two steps of [binary_round_aux]: a division, a rounding that adds
    at most one, a second division. *)
Lemma binary_round_aux_steps m e l :
  0 <= m ->
  exists m2,
    let e1 := Z.max e (fexp prec emax (Zdigits2 m + e)) in
    let e3 := Z.max e1 (fexp prec emax (Zdigits2 m2 + e1)) in
    m / 2 ^ (e1 - e) <= m2 <= m / 2 ^ (e1 - e) + 1
    /\ binary_round_aux prec emax false m e l
       = match m2 / 2 ^ (e3 - e1) with
         | Z0 => S754_zero false
         | Zpos p => if e3 <=? emax - prec then S754_finite false p e3
                     else S754_infinity false
         | Zneg _ => S754_nan
         end.
Proof.
  intros Hm. unfold binary_round_aux.
  pose proof (shr_fexp_div m e l Hm) as [H1m H1e].
  destruct (shr_fexp prec emax m e l) as [mrs' e']. cbn [fst snd] in H1m, H1e.
  set (m2 := round_nearest_even (shr_m mrs') (loc_of_shr_record mrs')).
  assert (Hm1 : 0 <= shr_m mrs').
  { rewrite H1m. apply Z.div_pos; [lia|]. apply Z.pow_pos_nonneg; lia. }
  pose proof (round_nearest_even_bound _ (loc_of_shr_record mrs') Hm1) as Hr. fold m2 in Hr.
  exists m2. cbv zeta. rewrite <- H1m, <- H1e. split; [exact Hr|].
  pose proof (shr_fexp_div m2 e' loc_Exact ltac:(lia)) as [H2m H2e].
  destruct (shr_fexp prec emax m2 e' loc_Exact) as [mrs'' e'']. cbn [fst snd] in H2m, H2e.
  rewrite H2m, H2e. reflexivity.
Qed.

Lemma div_succ_pow2 x j : 0 <= x -> 0 <= j -> (x + 1) / 2 ^ j <= x / 2 ^ j + 1.
Proof.
  intros Hx Hj. assert (Hp : 0 < 2 ^ j) by (apply Z.pow_pos_nonneg; lia).
  apply Z.lt_succ_r, Z.div_lt_upper_bound; [exact Hp|].
  pose proof (Z.mul_succ_div_gt x (2 ^ j) Hp). nia.
Qed.

(** [int(a / 1000000)] for an integer [a] below [2^67]: the floor of the
    quotient, or one more. *)
Lemma true_div_million_trunc a :
  0 <= a < 2 ^ 67 ->
  exists f T, true_div a 1000000 = Ok f /\ trunc f = Ok T
              /\ a / 1000000 <= T <= a / 1000000 + 1.
Proof.
  intros [Ha0 Ha]. unfold true_div.
  destruct a as [|p|p]; [| |lia].
  { exists (S754_zero false), 0.
    split; [reflexivity|]. split; [reflexivity|]. change (0 / 1000000) with 0. lia. }
  change (Z.abs (Zpos p)) with (Zpos p). change (Zpos p <? 0) with false.
  set (a := Zpos p) in *.
  assert (Hd : 1 <= Zdigits2 a <= 67).
  { split; [unfold a; simpl; lia|]. apply Zdigits2_le; lia. }
  unfold SFdiv_core_binary. change (Zdigits2 1000000) with 20.
  assert (Hfe : forall k, fexp prec emax k = Z.max (k - 53) (-1074)) by reflexivity.
  rewrite Hfe.
  replace (Z.min (Z.max (Zdigits2 a + 0 - (20 + 0) - 53) (-1074)) (0 - 0))
    with (Zdigits2 a - 73) by lia.
  set (s := 73 - Zdigits2 a). replace (0 - 0 - (Zdigits2 a - 73)) with s by (unfold s; lia).
  assert (Hs : 6 <= s <= 72) by (unfold s; lia).
  assert (Hm' : match s with
                | 0 => a | Zpos _ => Z.shiftl a s | Zneg _ => 0 end = a * 2 ^ s).
  { destruct s eqn:Es; try lia. rewrite Z.shiftl_mul_pow2 by lia. reflexivity. }
  rewrite Hm'. clear Hm'.
  assert (Hps : 0 < 2 ^ s) by (apply Z.pow_pos_nonneg; lia).
  pose proof (Z_div_mod (a * 2 ^ s) 1000000 ltac:(lia)) as Hdm.
  pose proof (Z.div_eucl_eq (a * 2 ^ s) 1000000 ltac:(lia)) as Hq.
  assert (HQ : fst (Z.div_eucl (a * 2 ^ s) 1000000) = a * 2 ^ s / 1000000) by reflexivity.
  destruct (Z.div_eucl (a * 2 ^ s) 1000000) as [Q r]. cbn [fst] in HQ. subst Q.
  clear Hdm Hq. set (Q := a * 2 ^ s / 1000000).
  assert (HQ0 : 0 <= Q) by (apply Z.div_pos; lia).
  assert (HQ54 : Q < 2 ^ 54).
  { apply Z.div_lt_upper_bound; [lia|].
    pose proof (Zdigits2_lt a Ha0) as Hlt.
    assert (2 ^ Zdigits2 a * 2 ^ s = 2 ^ 73)
      by (rewrite <- Z.pow_add_r by lia; f_equal; unfold s; lia).
    change (2 ^ 54) with 18014398509481984.
    change (2 ^ 73) with 9444732965739290427392 in *. nia. }
  assert (HQs : Q / 2 ^ s = a / 1000000).
  { unfold Q. rewrite Zdiv.Zdiv_Zdiv by lia.
    apply Z.div_mul_cancel_r; lia. }
  destruct (binary_round_aux_steps Q (Zdigits2 a - 73) (new_location 1000000 r) HQ0)
    as (m2 & Hm2 & ->).
  cbv zeta in Hm2. rewrite !Hfe in *.
  pose proof (Zdigits2_le Q 54 ltac:(lia) ltac:(lia)) as HDQ.
  pose proof (Zdigits2_nonneg Q) as HDQ0.
  set (e1 := Z.max (Zdigits2 a - 73) (Z.max (Zdigits2 Q + (Zdigits2 a - 73) - 53) (-1074))) in *.
  assert (Hn1 : 0 <= e1 - (Zdigits2 a - 73) <= 1) by (unfold e1; lia).
  set (n1 := e1 - (Zdigits2 a - 73)) in *.
  assert (Hp1 : 0 < 2 ^ n1) by (apply Z.pow_pos_nonneg; lia).
  assert (HQn : 0 <= Q / 2 ^ n1 < 2 ^ 53).
  { split; [apply Z.div_pos; lia|].
    destruct (Z.eq_dec n1 0) as [E0|E0].
    - rewrite E0, Z.div_1_r.
      assert (Zdigits2 Q <= 53) by (unfold n1, e1 in E0; lia).
      pose proof (Zdigits2_lt Q HQ0).
      assert (2 ^ Zdigits2 Q <= 2 ^ 53) by (apply Z.pow_le_mono_r; lia). lia.
    - replace n1 with 1 by lia. apply Z.div_lt_upper_bound; [lia|].
      change (2 ^ 1 * 2 ^ 53) with (2 ^ 54). lia. }
  assert (Hm2b : 0 <= m2 <= 2 ^ 53) by lia.
  pose proof (Zdigits2_le m2 54 ltac:(change (2 ^ 54) with (2 * 2 ^ 53); lia) ltac:(lia)) as HDm.
  pose proof (Zdigits2_nonneg m2) as HDm0.
  set (e3 := Z.max e1 (Z.max (Zdigits2 m2 + e1 - 53) (-1074))) in *.
  assert (Hn2 : 0 <= e3 - e1 <= 1) by (unfold e3; lia).
  set (n2 := e3 - e1) in *.
  assert (Hp2 : 0 < 2 ^ n2) by (apply Z.pow_pos_nonneg; lia).
  assert (He3 : e3 = n1 + n2 - s) by (unfold n2, n1, s; lia).
  set (m3 := m2 / 2 ^ n2).
  assert (Hm3 : Q / 2 ^ (n1 + n2) <= m3 <= Q / 2 ^ (n1 + n2) + 1).
  { unfold m3. rewrite Z.pow_add_r, <- Zdiv.Zdiv_Zdiv by lia. split.
    - apply Z.div_le_mono; lia.
    - etransitivity; [apply Z.div_le_mono; [lia | apply Hm2]|].
      apply div_succ_pow2; lia. }
  set (j := s - n1 - n2).
  assert (Hj : 1 <= j) by (unfold j; lia).
  assert (Hpj : 0 < 2 ^ j) by (apply Z.pow_pos_nonneg; lia).
  assert (HQj : Q / 2 ^ (n1 + n2) / 2 ^ j = a / 1000000).
  { rewrite Zdiv.Zdiv_Zdiv by (apply Z.pow_nonneg; lia).
    rewrite <- Z.pow_add_r by lia. replace (n1 + n2 + j) with s by (unfold j; lia).
    exact HQs. }
  assert (HT : a / 1000000 <= m3 / 2 ^ j <= a / 1000000 + 1).
  { rewrite <- HQj. split.
    - apply Z.div_le_mono; lia.
    - etransitivity; [apply Z.div_le_mono; [lia | apply Hm3]|].
      apply div_succ_pow2; [|lia].
      apply Z.div_pos; [lia | apply Z.pow_pos_nonneg; lia]. }
  assert (Hm30 : 0 <= m3) by (apply Z.div_pos; lia).
  destruct m3 as [|q|q] eqn:Em3; [| |lia].
  - exists (S754_zero false), 0. rewrite Z.div_0_l in HT by lia.
    repeat split; [lia | lia].
  - destruct (Z.leb_spec e3 (emax - prec)) as [_|Hbig];
      [|change (emax - prec) with 971 in Hbig; lia].
    exists (S754_finite false q e3), (Zpos q / 2 ^ j).
    split; [reflexivity|]. split; [|exact HT].
    cbn [trunc cond_Zopp]. destruct (Z.leb_spec 0 e3); [lia|].
    replace (- e3) with j by (unfold j; lia). reflexivity.
Qed.

(** ** [timedelta] and [format_srt_timestamp] *)

Lemma trunc_finite_nonneg x :
  is_finite x = true -> nonneg x = true -> exists w, trunc x = Ok w /\ 0 <= w.
Proof.
  intros Hf Hn. destruct x as [s|s| |s m e]; simpl in *; try discriminate.
  - exists 0. split; [reflexivity | lia].
  - destruct s; [discriminate|].
    apply (trunc_nonneg (Zdigits2 (Zpos m) + e) (S754_finite false m e)).
    simpl. split; [reflexivity | lia].
Qed.

(** A finite, non-negative number of seconds below [86399999999990] (one
    thousand million days, less ten seconds) is accepted by [timedelta]:
    the whole seconds [w] are kept, and the fraction adds less than five
    seconds of microseconds. *)
Lemma of_seconds_ok x w :
  is_finite x = true -> nonneg x = true ->
  trunc x = Ok w -> w < 86399999999990 ->
  exists us,
    w * 1000000 <= us <= w * 1000000 + 4194304
    /\ 0 <= w
    /\ of_seconds x
       = Ok {| days := us / 1000000 / 86400;
               seconds := (us / 1000000) mod 86400;
               microseconds := us mod 1000000 |}
    /\ us / 1000000 / 86400 <= MAX_DELTA_DAYS.
Proof.
  intros Hf Hn Hw Hb.
  destruct (trunc_finite_nonneg x Hf Hn) as (w' & Hw' & Hw0).
  rewrite Hw in Hw'. injection Hw' as <-.
  destruct (round_half_even_nonneg 22 _ ltac:(lia)
              (mul_million_nonneg _ (fracpart_nonneg x Hf Hn))) as (r & Hr & Hr0).
  change (2 ^ 22) with 4194304 in Hr0.
  exists (w * 1000000 + r).
  unfold of_seconds. rewrite Hw, Hr. simpl bind. unfold of_microseconds.
  assert (Hs : 0 <= (w * 1000000 + r) / 1000000 <= w + 4).
  { split; [apply Z.div_pos; lia|].
    apply Z.lt_succ_r, Z.div_lt_upper_bound; lia. }
  assert (Hd : 0 <= (w * 1000000 + r) / 1000000 / 86400 <= MAX_DELTA_DAYS).
  { unfold MAX_DELTA_DAYS. split; [apply Z.div_pos; lia|].
    apply Z.lt_succ_r, Z.div_lt_upper_bound; lia. }
  split; [lia|]. split; [exact Hw0|].
  destruct (Z.leb_spec (Z.abs ((w * 1000000 + r) / 1000000 / 86400)) MAX_DELTA_DAYS);
    [split; [reflexivity | lia] | lia].
Qed.

(** The whole seconds [T] of an accepted duration are those of the
    argument, or up to five more. *)
Lemma total_seconds_int_ok x w :
  is_finite x = true -> nonneg x = true ->
  trunc x = Ok w -> w < 86399999999990 ->
  exists td T,
    of_seconds x = Ok td /\ 0 <= microseconds td < 1000000
    /\ bind (total_seconds td) trunc = Ok T /\ 0 <= w <= T /\ T <= w + 5.
Proof.
  intros Hf Hn Hw Hb.
  destruct (of_seconds_ok x w Hf Hn Hw Hb) as (us & Hus & Hw0 & Htd & Hdays).
  eexists.
  assert (H6 : 0 < 1000000) by lia.
  pose proof (Z.mod_pos_bound us 1000000 H6) as Hmu.
  pose proof (Z.div_mod us 1000000 ltac:(lia)) as Hdm1.
  pose proof (Z.div_mod (us / 1000000) 86400 ltac:(lia)) as Hdm2.
  set (total := (us / 1000000 / 86400 * 86400 + (us / 1000000) mod 86400) * 1000000
                + us mod 1000000).
  assert (Htot : total = us) by (unfold total; lia).
  assert (Hq : w <= us / 1000000 <= w + 4).
  { split; [apply Z.div_le_lower_bound; lia|].
    apply Z.lt_succ_r, Z.div_lt_upper_bound; lia. }
  destruct (true_div_million_trunc total) as (f & T & Hdiv & HT & HTb).
  { rewrite Htot. change (2 ^ 67) with 147573952589676412928. lia. }
  rewrite Htot in HTb.
  exists T. split; [exact Htd|]. simpl microseconds. split; [exact Hmu|].
  change (total_seconds _) with (true_div total 1000000).
  rewrite Hdiv. simpl bind. split; [exact HT | lia].
Qed.

Lemma is_clock_tail_length t : is_clock_tail t = true -> length t = 10%nat.
Proof.
  unfold is_clock_tail.
  do 10 (destruct t as [|? t]; [intros; discriminate|]).
  destruct t; [reflexivity | intros; discriminate].
Qed.

Lemma is_srt_timestamp_length s : is_srt_timestamp s = true -> length s = 12%nat.
Proof.
  unfold is_srt_timestamp.
  destruct s as [|h1 [|h2 t]]; try discriminate.
  intros H. apply andb_true_iff in H as [_ H].
  apply is_clock_tail_length in H. simpl. lia.
Qed.

Lemma clock_tail_ok a b c d x y z :
  is_digit a = true -> is_digit b = true -> is_digit c = true ->
  is_digit d = true -> is_digit x = true -> is_digit y = true ->
  is_digit z = true ->
  is_clock_tail (lit ":" ++ [a; b] ++ lit ":" ++ [c; d] ++ lit "," ++ [x; y; z]) = true.
Proof.
  intros Ha Hb Hc Hd Hx Hy Hz. cbn.
  rewrite Ha, Hb, Hc, Hd, Hx, Hy, Hz. reflexivity.
Qed.

(** C1, as amended. For every finite non-negative duration below
    86 399 999 999 990 seconds, of [w] whole seconds, the function
    returns a string [H..H:MM:SS,mmm]: exactly two digits of minutes, two
    of seconds, three of milliseconds, and two or more digits of hours.
    The string is [HH:MM:SS,mmm], with exactly two hour digits, exactly
    when the whole seconds [T] of the [timedelta], which are [w] or up to
    five more, are below 360000: always when [w < 359995], never when
    [w >= 360000]. *)
Theorem format_srt_timestamp_shape x w :
  is_finite x = true -> nonneg x = true ->
  trunc x = Ok w -> w < 86399999999990 ->
  exists T s,
    total_seconds_int x = Ok T /\ 0 <= w <= T /\ T <= w + 5
    /\ format_srt_timestamp x = Ok s
    /\ is_long_timestamp s = true
    /\ (is_srt_timestamp s = true <-> T < 360000)
    /\ (w < 359995 -> is_srt_timestamp s = true)
    /\ (360000 <= w -> is_srt_timestamp s = false).
Proof.
  intros Hf Hn Hw Hb.
  destruct (total_seconds_int_ok x w Hf Hn Hw Hb)
    as (td & T & Htd & Hus & HT & HT0 & HT5).
  exists T. eexists.
  split; [unfold total_seconds_int; rewrite Htd; exact HT|].
  split; [exact HT0|]. split; [exact HT5|].
  unfold format_srt_timestamp. rewrite Htd. cbv [bind] in HT |- *.
  destruct (total_seconds td) as [ts|]; [|discriminate].
  rewrite HT. split; [reflexivity|].
  assert (Hh : 0 <= T / 3600) by (apply Z.div_pos; lia).
  pose proof (Z.mod_pos_bound T 3600 ltac:(lia)) as Hrem.
  assert (Hmin : 0 <= T mod 3600 / 60 < 100).
  { split; [apply Z.div_pos; lia | apply Z.div_lt_upper_bound; lia]. }
  assert (Hsec : 0 <= (T mod 3600) mod 60 < 100)
    by (pose proof (Z.mod_pos_bound (T mod 3600) 60 ltac:(lia)); lia).
  assert (Hms : 0 <= microseconds td / 1000 < 1000).
  { split; [apply Z.div_pos; lia | apply Z.div_lt_upper_bound; lia]. }
  destruct (format_zero_two _ Hmin) as (a & b & -> & Ha & Hb').
  destruct (format_zero_two _ Hsec) as (c & d & -> & Hc & Hd).
  destruct (format_zero_three _ Hms) as (p & q & r & -> & Hp & Hq & Hr).
  pose proof (clock_tail_ok a b c d p q r Ha Hb' Hc Hd Hp Hq Hr) as Htail.
  set (tail := lit ":" ++ [a; b] ++ lit ":" ++ [c; d] ++ lit "," ++ [p; q; r]) in *.
  assert (Hlt : length tail = 10%nat) by reflexivity.
  assert (Hhd : Forall (fun c => is_digit c = true) (format_zero 2 (T / 3600))
                /\ (2 <= length (format_zero 2 (T / 3600)))%nat).
  { rewrite format_zero_nonneg by lia. split.
    - apply zfill_digits, str_nat_digits.
    - rewrite zfill_length. lia. }
  destruct Hhd as [Hhd Hhl].
  assert (Hiff : is_srt_timestamp (format_zero 2 (T / 3600) ++ tail) = true
                 <-> T < 360000).
  { split.
    - intros Hs. apply is_srt_timestamp_length in Hs.
      rewrite length_app, Hlt in Hs.
      destruct (Z.lt_ge_cases T 360000) as [|Hge]; [assumption|exfalso].
      assert (100 <= T / 3600) by (apply Z.div_le_lower_bound; lia).
      destruct (format_zero_wide (T / 3600) ltac:(lia)) as [Heq Hlen].
      rewrite Heq in Hs. lia.
    - intros Hlt'.
      assert (Hh' : 0 <= T / 3600 < 100)
        by (split; [lia | apply Z.div_lt_upper_bound; lia]).
      destruct (format_zero_two _ Hh') as (h1 & h2 & -> & Hh1 & Hh2).
      simpl app. unfold is_srt_timestamp. rewrite Hh1, Hh2. exact Htail. }
  split; [|split; [exact Hiff|split]].
  - unfold is_long_timestamp. rewrite length_app, Hlt.
    replace (length (format_zero 2 (T / 3600)) + 10 - 10)%nat
      with (length (format_zero 2 (T / 3600))) by lia.
    rewrite take_app_length, drop_app_length, Htail.
    rewrite andb_true_r. apply andb_true_intro; split.
    + apply Nat.leb_le, Hhl.
    + apply forallb_forall. intros ch Hch.
      rewrite Forall_forall in Hhd. apply Hhd, list_elem_of_In, Hch.
  - intros Hsmall. apply Hiff. lia.
  - intros Hbig. apply not_true_is_false. intros E. apply Hiff in E. lia.
Qed.

(** At 3661.5 seconds the theorem gives [01:01:01,500]. *)
Lemma format_srt_timestamp_shape_witness :
  exists T s,
    total_seconds_int (dyadic 7323 (-1)) = Ok T /\ 0 <= 3661 <= T /\ T <= 3661 + 5
    /\ format_srt_timestamp (dyadic 7323 (-1)) = Ok s
    /\ is_long_timestamp s = true
    /\ (is_srt_timestamp s = true <-> T < 360000)
    /\ (3661 < 359995 -> is_srt_timestamp s = true)
    /\ (360000 <= 3661 -> is_srt_timestamp s = false).
Proof.
  apply (format_srt_timestamp_shape (dyadic 7323 (-1)) 3661);
    reflexivity.
Defined.

(** C1, as stated, fails: one hundred hours are printed with three hour
    digits, and a duration of one thousand million days makes
    [timedelta] raise. *)
Lemma format_srt_timestamp_hundred_hours :
  is_finite (of_Z 360000) = true /\ nonneg (of_Z 360000) = true
  /\ format_srt_timestamp (of_Z 360000) = Ok (lit "100:00:00,000")
  /\ is_srt_timestamp (lit "100:00:00,000") = false
  /\ nonneg (of_Z 86400000000000) = true
  /\ format_srt_timestamp (of_Z 86400000000000) = Raise OverflowError.
Proof. vm_compute. repeat split. Qed.

Example format_srt_timestamp_3661_5 :
  format_srt_timestamp (dyadic 7323 (-1)) = Ok (lit "01:01:01,500").
Proof. vm_compute. reflexivity. Qed.

(** ** Files: what a sequence of writes leaves behind *)

Lemma write_all_files p ws : forall σ,
  files (write_all p ws σ) = alter (fun c => c ++ concat ws) p (files σ).
Proof.
  unfold write_all. induction ws as [|w ws IH]; intros σ; simpl.
  - apply map_eq. intros q. destruct (decide (p = q)) as [<-|E].
    + rewrite lookup_alter_eq.
      destruct (files σ !! p); simpl; [rewrite app_nil_r|]; reflexivity.
    + rewrite lookup_alter_ne by exact E. reflexivity.
  - rewrite IH. simpl. apply map_eq. intros q. destruct (decide (p = q)) as [<-|E].
    + rewrite !lookup_alter_eq.
      destruct (files σ !! p); simpl; [rewrite app_assoc|]; reflexivity.
    + rewrite !lookup_alter_ne by exact E. reflexivity.
Qed.

Lemma write_all_dirs p ws : forall σ, dirs (write_all p ws σ) = dirs σ.
Proof.
  unfold write_all. induction ws as [|w ws IH]; intros σ; simpl; [reflexivity|].
  rewrite IH. reflexivity.
Qed.

(** After [open(p, "w")] and the writes [ws], the file at [p] holds the
    writes and nothing else; no other file changes. *)
Lemma open_write_all_lookup p ws σ q :
  files (write_all p ws (open_w p σ)) !! q
  = if decide (p = q) then Some (concat ws) else files σ !! q.
Proof.
  rewrite write_all_files. simpl. destruct (decide (p = q)) as [<-|E].
  - rewrite lookup_alter_eq, lookup_insert_eq. reflexivity.
  - rewrite lookup_alter_ne, lookup_insert_ne by exact E. reflexivity.
Qed.

Lemma open_write_lookup p w σ q :
  files (write p w (open_w p σ)) !! q
  = if decide (p = q) then Some w else files σ !! q.
Proof.
  simpl. destruct (decide (p = q)) as [<-|E].
  - rewrite lookup_alter_eq, lookup_insert_eq. reflexivity.
  - rewrite lookup_alter_ne, lookup_insert_ne by exact E. reflexivity.
Qed.

Lemma write_srt_file segments p σ q :
  files (fst (write_srt segments p σ)) !! q
  = if decide (p = q) then Some (concat (fst (srt_writes 1 segments)))
    else files σ !! q.
Proof.
  unfold write_srt. destruct (srt_writes 1 segments) as [ws r]. simpl fst.
  apply open_write_all_lookup.
Qed.

Lemma write_srt_result segments p σ :
  snd (write_srt segments p σ) = snd (srt_writes 1 segments).
Proof. unfold write_srt. destruct (srt_writes 1 segments). reflexivity. Qed.

Lemma write_srt_dirs segments p σ : dirs (fst (write_srt segments p σ)) = dirs σ.
Proof.
  unfold write_srt. destruct (srt_writes 1 segments). simpl fst.
  rewrite write_all_dirs. reflexivity.
Qed.

Lemma write_txt_file segments p σ q :
  files (fst (write_txt segments p σ)) !! q
  = if decide (p = q) then Some (concat (txt_writes segments))
    else files σ !! q.
Proof. apply open_write_all_lookup. Qed.

Lemma write_txt_dirs segments p σ : dirs (fst (write_txt segments p σ)) = dirs σ.
Proof. unfold write_txt. simpl fst. rewrite write_all_dirs. reflexivity. Qed.

Lemma write_json_file `{Builtins} segments p σ q :
  files (fst (write_json segments p σ)) !! q
  = if decide (p = q) then Some (dumps (JList (json_output segments)))
    else files σ !! q.
Proof. apply open_write_lookup. Qed.

Lemma write_json_dirs `{Builtins} segments p σ :
  dirs (fst (write_json segments p σ)) = dirs σ.
Proof. reflexivity. Qed.

(** ** The text of [json.dump] and the grammar of RFC 8259 *)

Module Json_grammar.
Import Rfc8259.
Local Open Scope N_scope.

(** *** Strings *)

Lemma is_hex_hex_digit d : d < 16 -> is_hex (hex_digit d) = true.
Proof.
  intros Hd. unfold is_hex, Rfc8259.is_digit, hex_digit.
  destruct (N.ltb_spec d 10).
  - replace (48 <=? 48 + d) with true by (symmetry; apply N.leb_le; lia).
    replace (48 + d <=? 57) with true by (symmetry; apply N.leb_le; lia).
    reflexivity.
  - replace (97 <=? 87 + d) with true by (symmetry; apply N.leb_le; lia).
    replace (87 + d <=? 102) with true by (symmetry; apply N.leb_le; lia).
    apply orb_true_iff. left. apply orb_true_r.
Qed.

Lemma chars_hex4 n tail : chars (lit "\u" ++ hex4 n ++ tail) = chars tail.
Proof.
  change (lit "\u" ++ hex4 n ++ tail)
    with (92 :: 117 :: hex_digit (n / 4096 mod 16) :: hex_digit (n / 256 mod 16)
          :: hex_digit (n / 16 mod 16) :: hex_digit (n mod 16) :: tail).
  cbn [chars]. change (92 =? 34) with false. change (92 =? 92) with true.
  cbv iota.
  change ((117 =? 34) || (117 =? 92) || (117 =? 47) || (117 =? 98) || (117 =? 102)
          || (117 =? 110) || (117 =? 114) || (117 =? 116)) with false.
  change (117 =? 117) with true. cbv iota.
  rewrite !is_hex_hex_digit by (apply N.mod_lt; lia). reflexivity.
Qed.

Lemma chars_plain c tail :
  32 <= c -> c <> 34 -> c <> 92 -> chars (c :: tail) = chars tail.
Proof.
  intros H1 H2 H3. cbn [chars].
  destruct (N.eqb_spec c 34); [contradiction|].
  destruct (N.eqb_spec c 92); [contradiction|].
  destruct (N.ltb_spec c 32); [lia|]. reflexivity.
Qed.

Lemma chars_escape_char c tail : chars (escape_char c ++ tail) = chars tail.
Proof.
  unfold escape_char.
  destruct (N.eqb_spec c 34); [reflexivity|].
  destruct (N.eqb_spec c 92); [reflexivity|].
  destruct (N.eqb_spec c 10); [reflexivity|].
  destruct (N.eqb_spec c 13); [reflexivity|].
  destruct (N.eqb_spec c 9); [reflexivity|].
  destruct (N.eqb_spec c 8); [reflexivity|].
  destruct (N.eqb_spec c 12); [reflexivity|].
  destruct (N.leb_spec 32 c); cbn [andb].
  - destruct (N.leb_spec c 126).
    + apply chars_plain; assumption.
    + destruct (N.ltb_spec c 65536).
      * apply chars_hex4.
      * rewrite <- !app_assoc. rewrite chars_hex4. apply chars_hex4.
  - destruct (N.ltb_spec c 65536); [|lia]. apply chars_hex4.
Qed.

Lemma chars_escape s rest :
  chars (concat (map escape_char s) ++ QUOTE :: rest) = Some rest.
Proof.
  induction s as [|c s IH]; [reflexivity|].
  cbn [map concat]. rewrite <- app_assoc, chars_escape_char. exact IH.
Qed.

Lemma string_encode_str s rest : string_ (encode_str s ++ rest) = Some rest.
Proof.
  unfold encode_str. cbn [app]. unfold string_.
  change (QUOTE =? 34) with true. cbv iota.
  rewrite <- app_assoc. apply chars_escape.
Qed.

(** *** Numbers *)

Lemma ends_number_head c rest :
  ends_number (c :: rest) = true ->
  Rfc8259.is_digit c = false /\ c <> 43 /\ c <> 45 /\ c <> 46 /\ c <> 101 /\ c <> 69.
Proof.
  unfold ends_number. rewrite negb_true_iff, !orb_false_iff.
  intros (((((H1 & H2) & H3) & H4) & H5) & H6).
  repeat split; try assumption; intros ->; discriminate.
Qed.

Lemma skip_digits_app s rest :
  ends_number rest = true -> skip_digits (s ++ rest) = skip_digits s ++ rest.
Proof.
  intros Hr. unfold skip_digits.
  induction s as [|c s IH]; cbn [app lstrip_by].
  - destruct rest as [|c rest]; [reflexivity|].
    apply ends_number_head in Hr as (Hd & _). cbn [lstrip_by]. rewrite Hd.
    reflexivity.
  - destruct (Rfc8259.is_digit c); [exact IH | reflexivity].
Qed.

Lemma digits1_app s r rest :
  ends_number rest = true -> digits1 s = Some r ->
  digits1 (s ++ rest) = Some (r ++ rest).
Proof.
  intros Hr. destruct s as [|c s]; [discriminate|]. cbn [app digits1].
  destruct (Rfc8259.is_digit c); [|discriminate].
  intros [= <-]. rewrite skip_digits_app by assumption. reflexivity.
Qed.

Lemma int_app s r rest :
  ends_number rest = true -> int s = Some r -> int (s ++ rest) = Some (r ++ rest).
Proof.
  intros Hr. destruct s as [|c s]; [discriminate|]. cbn [app int].
  destruct (c =? 48); [intros [= <-]; reflexivity|].
  destruct (Rfc8259.is_digit c); [|discriminate].
  intros [= <-]. rewrite skip_digits_app by assumption. reflexivity.
Qed.

Lemma frac_app s r rest :
  ends_number rest = true -> frac s = Some r -> frac (s ++ rest) = Some (r ++ rest).
Proof.
  intros Hr. destruct s as [|c s]; cbn [app frac].
  - intros [= <-]. destruct rest as [|c rest]; [reflexivity|].
    apply ends_number_head in Hr as (_ & _ & _ & H & _).
    cbn [frac]. destruct (N.eqb_spec c 46); [contradiction|reflexivity].
  - destruct (c =? 46); [apply digits1_app; assumption|].
    intros [= <-]. reflexivity.
Qed.

Lemma exp_app s r rest :
  ends_number rest = true -> exp s = Some r -> exp (s ++ rest) = Some (r ++ rest).
Proof.
  intros Hr. destruct s as [|c s]; cbn [app exp].
  - intros [= <-]. destruct rest as [|c rest]; [reflexivity|].
    apply ends_number_head in Hr as (_ & _ & _ & _ & H1 & H2).
    cbn [exp]. destruct (N.eqb_spec c 101); [contradiction|].
    destruct (N.eqb_spec c 69); [contradiction|]. reflexivity.
  - destruct ((c =? 101) || (c =? 69)); [|intros [= <-]; reflexivity].
    destruct s as [|c' s]; [discriminate|]. cbn [app].
    destruct ((c' =? 43) || (c' =? 45)).
    + apply digits1_app; assumption.
    + apply (digits1_app (c' :: s)); assumption.
Qed.

Lemma number_app s r rest :
  ends_number rest = true -> number s = Some r ->
  number (s ++ rest) = Some (r ++ rest).
Proof.
  intros Hr. unfold number.
  assert (Hm : int (minus s) <> None -> minus (s ++ rest) = minus s ++ rest).
  { destruct s as [|c s]; [intros H; exfalso; apply H; reflexivity|].
    intros _. cbn [app minus]. destruct (c =? 45); reflexivity. }
  destruct (int (minus s)) as [s1|] eqn:E1; [|discriminate].
  rewrite Hm by discriminate. rewrite (int_app _ _ _ Hr E1).
  destruct (frac s1) as [s2|] eqn:E2; [|discriminate].
  rewrite (frac_app _ _ _ Hr E2). apply exp_app. assumption.
Qed.

(** A number starts with a minus sign or a digit. *)
Lemma number_head s r :
  number s = Some r ->
  exists c t, s = c :: t /\ (c = 45 \/ Rfc8259.is_digit c = true).
Proof.
  unfold number. destruct s as [|c t]; [discriminate|].
  intros H. exists c, t. split; [reflexivity|].
  cbn [minus] in H. destruct (N.eqb_spec c 45); [left; assumption|].
  right. cbn [int] in H.
  destruct (N.eqb_spec c 48); [subst; reflexivity|].
  destruct (Rfc8259.is_digit c); [reflexivity|discriminate].
Qed.

Lemma is_digit_range c : Rfc8259.is_digit c = true -> 48 <= c <= 57.
Proof.
  unfold Rfc8259.is_digit. rewrite andb_true_iff, !N.leb_le. tauto.
Qed.

Lemma value_number f s r : number s = Some r -> value (S f) s = Some r.
Proof.
  intros H. destruct (number_head _ _ H) as (c & t & -> & Hc).
  assert (Hne : c <> 34 /\ c <> 91 /\ c <> 123 /\ c <> 116 /\ c <> 102 /\ c <> 110).
  { destruct Hc as [->|Hc]; [repeat split; discriminate|].
    apply is_digit_range in Hc. lia. }
  destruct Hne as (H1 & H2 & H3 & H4 & H5 & H6).
  cbn [value].
  destruct (N.eqb_spec c 34); [contradiction|].
  destruct (N.eqb_spec c 91); [contradiction|].
  destruct (N.eqb_spec c 123); [contradiction|].
  destruct (N.eqb_spec c 116); [contradiction|].
  destruct (N.eqb_spec c 102); [contradiction|].
  destruct (N.eqb_spec c 110); [contradiction|]. exact H.
Qed.

(** What a value starts with: not white space, no closing bracket. *)
Lemma value_head f s r :
  value f s = Some r ->
  exists c t, s = c :: t /\ is_ws c = false /\ c <> 93 /\ c <> 125.
Proof.
  destruct f as [|f]; [discriminate|]. destruct s as [|c t]; [discriminate|].
  intros H. exists c, t. split; [reflexivity|].
  assert (Hbad : forall d, In d [32; 9; 10; 13; 93; 125] -> value (S f) (d :: t) = None).
  { intros d Hd. cbn [In] in Hd.
    destruct Hd as [<-|[<-|[<-|[<-|[<-|[<-|[]]]]]]]; reflexivity. }
  split; [|split].
  - unfold is_ws.
    destruct (N.eqb_spec c 32) as [->|];
      [rewrite Hbad in H by (cbn; tauto); discriminate|].
    destruct (N.eqb_spec c 9) as [->|];
      [rewrite Hbad in H by (cbn; tauto); discriminate|].
    destruct (N.eqb_spec c 10) as [->|];
      [rewrite Hbad in H by (cbn; tauto); discriminate|].
    destruct (N.eqb_spec c 13) as [->|];
      [rewrite Hbad in H by (cbn; tauto); discriminate|].
    reflexivity.
  - intros ->. rewrite Hbad in H by (cbn; tauto). discriminate.
  - intros ->. rewrite Hbad in H by (cbn; tauto). discriminate.
Qed.

(** More fuel changes no result. *)
Lemma fuel_step f :
  (forall s r, value f s = Some r -> value (S f) s = Some r)
  /\ (forall s r, elements f s = Some r -> elements (S f) s = Some r)
  /\ (forall s r, members f s = Some r -> members (S f) s = Some r).
Proof.
  induction f as [|f (IHv & IHe & IHm)]; [repeat split; intros; discriminate|].
  split; [|split]; intros s r.
  - destruct s as [|c t]; [discriminate|].
    cbn [value]. destruct (c =? 34); [trivial|].
    destruct (c =? 91).
    { destruct (skip_ws t) as [|c' r']; [discriminate|].
      destruct (c' =? 93); [trivial|apply IHe]. }
    destruct (c =? 123); [|trivial].
    destruct (skip_ws t) as [|c' r']; [discriminate|].
    destruct (c' =? 125); [trivial|apply IHm].
  - cbn [elements]. destruct (value f s) as [r1|] eqn:E; [|discriminate].
    rewrite (IHv _ _ E). destruct (skip_ws r1) as [|c r']; [discriminate|].
    destruct (c =? 44); [apply IHe|trivial].
  - cbn [members]. destruct (string_ s) as [r1|]; [|discriminate].
    destruct (skip_ws r1) as [|c r']; [discriminate|].
    destruct (c =? 58); [|discriminate].
    destruct (value f (skip_ws r')) as [r2|] eqn:E; [|discriminate].
    rewrite (IHv _ _ E). destruct (skip_ws r2) as [|c2 r3]; [discriminate|].
    destruct (c2 =? 44); [apply IHm|trivial].
Qed.

Lemma value_fuel_le f f' s r :
  (f <= f')%nat -> value f s = Some r -> value f' s = Some r.
Proof.
  induction 1 as [|f' _ IH]; [trivial|].
  intros Hv. apply fuel_step, IH, Hv.
Qed.

(** *** Values *)

Lemma skip_ws_cons c s : is_ws c = false -> skip_ws (c :: s) = c :: s.
Proof. intros Hc. unfold skip_ws. cbn [lstrip_by]. rewrite Hc. reflexivity. Qed.

Lemma skip_ws_spaces k s : skip_ws (concat (replicate k (lit "  ")) ++ s) = skip_ws s.
Proof. induction k as [|k IH]; [reflexivity|exact IH]. Qed.

Lemma skip_ws_indent k s : skip_ws (newline_indent k ++ s) = skip_ws s.
Proof. exact (skip_ws_spaces k s). Qed.

Lemma json_ind' (P : json -> Prop)
  (Hf : forall x, P (JFloat x)) (Hs : forall s, P (JStr s))
  (Hl : forall l, Forall P l -> P (JList l))
  (Hd : forall items, Forall (fun kv => P kv.2) items -> P (JDict items)) :
  forall v, P v.
Proof.
  fix IH 1. intros [x|s|l|items].
  - apply Hf.
  - apply Hs.
  - apply Hl. induction l as [|y l IHl]; constructor; [apply IH|exact IHl].
  - apply Hd. induction items as [|[k y] items IHi]; constructor;
      [apply IH|exact IHi].
Qed.

Lemma rfc_value_dict items :
  rfc_value (JDict items) = forallb (fun kv => rfc_value kv.2) items.
Proof.
  cbn [rfc_value].
  induction items as [|[k y] items IH]; [reflexivity|].
  cbn [forallb snd]. rewrite <- IH. reflexivity.
Qed.

Section Accepted.
Context `{Builtins}.

Lemma encode_list level x xs :
  encode level (JList (x :: xs))
  = 91 :: newline_indent (S level) ++ encode (S level) x
    ++ concat (map (list_sep (S level)) xs) ++ newline_indent level ++ [93].
Proof.
  cbn [encode]. change (lit "[" ++ ?a) with (91 :: a). do 3 f_equal.
  apply (f_equal (fun z => z ++ newline_indent level ++ [93])).
  induction xs as [|y ys IH]; [reflexivity|].
  cbn [map concat]. rewrite <- IH. unfold list_sep.
  rewrite <- app_comm_cons, <- !app_assoc. reflexivity.
Qed.

Lemma encode_dict level k x xs :
  encode level (JDict ((k, x) :: xs))
  = 123 :: newline_indent (S level) ++ encode_str k ++ 58 :: 32 :: encode (S level) x
    ++ concat (map (dict_sep (S level)) xs) ++ newline_indent level ++ [125].
Proof.
  cbn [encode]. change (lit "{" ++ ?a) with (123 :: a).
  change (lit ": " ++ ?a) with (58 :: 32 :: a). do 6 f_equal.
  apply (f_equal (fun z => z ++ newline_indent level ++ [125])).
  induction xs as [|[k' y] ys IH]; [reflexivity|].
  cbn [map concat]. rewrite <- IH. unfold dict_sep. cbn [fst snd].
  rewrite <- app_comm_cons, <- !app_assoc. reflexivity.
Qed.

Hypothesis repr_number :
  forall x, is_finite x = true -> number (float_repr x) = Some [].

Lemma accepted_head v level :
  accepted v ->
  exists c t, encode level v = c :: t /\ is_ws c = false /\ c <> 93 /\ c <> 125.
Proof.
  intros Hv.
  specialize (Hv level [] (length (encode level v)) eq_refl (le_n _)).
  rewrite app_nil_r in Hv. exact (value_head _ _ _ Hv).
Qed.

Lemma skip_ws_encode v level rest :
  accepted v -> skip_ws (encode level v ++ rest) = encode level v ++ rest.
Proof.
  intros Hv. destruct (accepted_head v level Hv) as (c & t & -> & Hc & _).
  apply skip_ws_cons, Hc.
Qed.

Lemma elements_items L level rest xs :
  Forall accepted xs ->
  forall x f,
    accepted x ->
    (length (encode L x ++ concat (map (list_sep L) xs)
             ++ newline_indent level ++ [93])%N <= f)%nat ->
    elements f (encode L x ++ concat (map (list_sep L) xs)
                ++ newline_indent level ++ 93 :: rest) = Some rest.
Proof.
  induction 1 as [|y ys Hy Hys IH]; intros x f Hx Hlen;
    rewrite !length_app in Hlen; cbn [length map concat] in Hlen;
    (destruct f as [|f]; [lia|]); cbn [elements map concat].
  - rewrite Hx by (reflexivity || lia). cbn [app].
    rewrite skip_ws_indent, skip_ws_cons by reflexivity. reflexivity.
  - unfold list_sep at 1. rewrite <- !app_comm_cons, <- !app_assoc.
    rewrite Hx by (reflexivity || (unfold list_sep at 1 in Hlen;
                                   rewrite !length_app in Hlen;
                                   cbn [length] in Hlen; lia)).
    rewrite skip_ws_cons by reflexivity. change (44 =? 44) with true. cbv iota.
    rewrite skip_ws_indent, skip_ws_encode by assumption.
    apply IH; [assumption|].
    unfold list_sep at 1 in Hlen.
    repeat first [rewrite length_app | rewrite length_app in Hlen
                 | progress cbn [length] in Hlen |- *].
    lia.
Qed.

Lemma skip_ws_encode_str k r : skip_ws (encode_str k ++ r) = encode_str k ++ r.
Proof. reflexivity. Qed.

Lemma members_items L level rest xs :
  Forall (fun kv => accepted kv.2) xs ->
  forall k x f,
    accepted x ->
    (length (encode_str k ++ 58 :: 32 :: encode L x
             ++ concat (map (dict_sep L) xs)
             ++ newline_indent level ++ [125])%N <= f)%nat ->
    members f (encode_str k ++ 58 :: 32 :: encode L x
               ++ concat (map (dict_sep L) xs)
               ++ newline_indent level ++ 125 :: rest) = Some rest.
Proof.
  induction 1 as [|[k' y] ys Hy Hys IH]; intros k x f Hx Hlen;
    rewrite !length_app in Hlen; cbn [length map concat] in Hlen;
    rewrite ?length_app in Hlen;
    (destruct f as [|f]; [lia|]); cbn [members map concat];
    rewrite string_encode_str, skip_ws_cons by reflexivity;
    change (58 =? 58) with true; cbv iota;
    change (skip_ws (32 :: ?s)) with (skip_ws s);
    rewrite skip_ws_encode by assumption.
  - rewrite Hx by (reflexivity || lia). cbn [app].
    rewrite skip_ws_indent, skip_ws_cons by reflexivity. reflexivity.
  - cbn [snd] in Hy. unfold dict_sep at 1. cbn [fst snd].
    rewrite <- !app_comm_cons, <- !app_assoc, <- !app_comm_cons.
    rewrite Hx by (reflexivity || lia).
    rewrite skip_ws_cons by reflexivity. change (44 =? 44) with true. cbv iota.
    rewrite skip_ws_indent, skip_ws_encode_str.
    apply IH; [assumption|].
    unfold dict_sep at 1 in Hlen. cbn [fst snd] in Hlen.
    repeat first [rewrite length_app | rewrite length_app in Hlen
                 | progress cbn [length] in Hlen |- *].
    lia.
Qed.

Lemma value_encode v : rfc_value v = true -> accepted v.
Proof.
  induction v as [x|s|l IH|items IH] using json_ind'; intros Hv.
  - intros level rest fuel Hr Hlen. cbn [rfc_value] in Hv.
    assert (E : encode level (JFloat x) = float_repr x)
      by (destruct x; try discriminate; reflexivity).
    rewrite E in *. pose proof (repr_number x Hv) as Hn.
    destruct (number_head _ _ Hn) as (c & t & Ec & _).
    rewrite Ec in Hlen. destruct fuel as [|f]; [cbn in Hlen; lia|].
    apply value_number. apply (number_app _ _ rest Hr Hn).
  - intros level rest fuel Hr Hlen. cbn [encode] in *.
    destruct fuel as [|f]; [unfold encode_str in Hlen; cbn in Hlen; lia|].
    pose proof (string_encode_str s rest) as Hs.
    unfold encode_str in *. cbn [app] in *. exact Hs.
  - assert (Hl : Forall accepted l).
    { cbn [rfc_value] in Hv. rewrite forallb_forall in Hv.
      rewrite Forall_forall in IH |- *. intros y Hy.
      apply IH; [exact Hy|]. apply Hv, list_elem_of_In, Hy. }
    clear IH Hv. intros level rest fuel Hr Hlen.
    destruct Hl as [|x xs Hx Hxs].
    + destruct fuel as [|f]; [cbn in Hlen; lia|]. reflexivity.
    + rewrite encode_list in *. cbn [length] in Hlen.
      destruct fuel as [|f]; [lia|].
      repeat (rewrite <- app_assoc || rewrite <- app_comm_cons). cbn [value].
      change (91 =? 34) with false. change (91 =? 91) with true. cbv iota.
      rewrite skip_ws_indent, skip_ws_encode by assumption.
      destruct (accepted_head x (S level) Hx) as (c & t & Ec & _ & Hc & _).
      rewrite Ec at 1. cbn [app].
      destruct (N.eqb_spec c 93); [contradiction|].
      change (c :: t ++ ?r) with ((c :: t) ++ r). rewrite <- Ec.
      cbn [app]. apply elements_items; [assumption..|].
      repeat first [rewrite length_app | rewrite length_app in Hlen
                   | progress cbn [length] in Hlen |- *].
      lia.
  - assert (Hl : Forall (fun kv => accepted kv.2) items).
    { rewrite rfc_value_dict, forallb_forall in Hv.
      rewrite Forall_forall in IH |- *. intros kv Hkv.
      apply IH; [exact Hkv|]. apply Hv, list_elem_of_In, Hkv. }
    clear IH Hv. intros level rest fuel Hr Hlen.
    destruct Hl as [|[k x] xs Hx Hxs].
    + destruct fuel as [|f]; [cbn in Hlen; lia|]. reflexivity.
    + rewrite encode_dict in *. cbn [length] in Hlen.
      destruct fuel as [|f]; [lia|].
      repeat (rewrite <- app_assoc || rewrite <- app_comm_cons). cbn [value].
      change (123 =? 34) with false. change (123 =? 91) with false.
      change (123 =? 123) with true. cbv iota.
      rewrite skip_ws_indent. unfold encode_str at 1. cbn [app].
      rewrite skip_ws_cons by reflexivity.
      change (QUOTE =? 125) with false. cbv iota.
      change (QUOTE :: (concat (map escape_char k) ++ [QUOTE]) ++ ?r)
        with (encode_str k ++ r).
      cbn [app]. apply members_items; [assumption..|].
      repeat first [rewrite length_app | rewrite length_app in Hlen
                   | progress cbn [length] in Hlen |- *].
      lia.
Qed.

(** What [json.dump] writes for a value of RFC 8259 is a JSON text. *)
Lemma json_text_dumps v : rfc_value v = true -> json_text (dumps v) = true.
Proof.
  intros Hv. apply value_encode in Hv. unfold json_text, dumps.
  pose proof (skip_ws_encode v 0 [] Hv) as E. rewrite app_nil_r in E.
  pose proof (Hv 0%nat [] (S (length (encode 0 v))) eq_refl
                (le_S _ _ (le_n _))) as E'.
  rewrite app_nil_r in E'. rewrite E, E'. reflexivity.
Qed.

(** The text of a value is read in one way only. *)
Lemma value_encode_exact v level rest f r :
  accepted v -> ends_number rest = true ->
  value f (encode level v ++ rest) = Some r -> r = rest.
Proof.
  intros Hv Hr Hf.
  apply (value_fuel_le _ (Nat.max f (length (encode level v)))) in Hf; [|lia].
  rewrite Hv in Hf by (assumption || lia). congruence.
Qed.

Lemma encode_head v level :
  exists c t, encode level v = c :: t /\ is_ws c = false /\ c <> 93 /\ c <> 125.
Proof.
  assert (Hlit : forall s c t, s = c :: t -> is_ws c = false -> c <> 93 -> c <> 125 ->
            exists c t, s = c :: t /\ is_ws c = false /\ c <> 93 /\ c <> 125)
    by (intros s c t -> ? ? ?; eauto 6).
  destruct v as [x|s|[|y l]|[|[k y] items]].
  - destruct (is_finite x) eqn:Ex.
    + apply (accepted_head (JFloat x)), value_encode, Ex.
    + destruct x as [| [|] | |]; try discriminate;
        (eapply Hlit; [reflexivity|reflexivity|discriminate..]).
  - eapply Hlit; [reflexivity|reflexivity|discriminate..].
  - eapply Hlit; [reflexivity|reflexivity|discriminate..].
  - rewrite encode_list. eapply Hlit; [reflexivity|reflexivity|discriminate..].
  - eapply Hlit; [reflexivity|reflexivity|discriminate..].
  - rewrite encode_dict. eapply Hlit; [reflexivity|reflexivity|discriminate..].
Qed.

Lemma skip_ws_encode_any v level rest :
  skip_ws (encode level v ++ rest) = encode level v ++ rest.
Proof.
  destruct (encode_head v level) as (c & t & -> & Hc & _). apply skip_ws_cons, Hc.
Qed.

Lemma elements_bad L level rest xs : forall x,
  Forall (fun y => rfc_value y = false -> rejected y) (x :: xs) ->
  forallb rfc_value (x :: xs) = false ->
  forall f,
    elements f (encode L x ++ concat (map (list_sep L) xs)
                ++ newline_indent level ++ 93 :: rest) = None.
Proof.
  induction xs as [|y ys IH]; intros x HP Hb f;
    (destruct f as [|f]; [reflexivity|]); cbn [elements map concat];
    inversion HP as [|? ? Hx HP']; subst; cbn [forallb] in Hb;
    destruct (rfc_value x) eqn:Ex;
    try (rewrite (Hx eq_refl); reflexivity).
  - discriminate Hb.
  - destruct (value f _) as [r|] eqn:Ev; [|reflexivity].
    apply value_encode_exact in Ev; [|apply value_encode, Ex|reflexivity].
    subst r. unfold list_sep at 1.
    repeat (rewrite <- app_assoc || rewrite <- app_comm_cons).
    rewrite skip_ws_cons by reflexivity. change (44 =? 44) with true. cbv iota.
    rewrite skip_ws_indent, skip_ws_encode_any.
    apply IH; assumption.
Qed.

Lemma members_bad L level rest xs : forall k x,
  Forall (fun kv => rfc_value kv.2 = false -> rejected kv.2) ((k, x) :: xs) ->
  forallb (fun kv => rfc_value kv.2) ((k, x) :: xs) = false ->
  forall f,
    members f (encode_str k ++ 58 :: 32 :: encode L x
               ++ concat (map (dict_sep L) xs)
               ++ newline_indent level ++ 125 :: rest) = None.
Proof.
  induction xs as [|[k' y] ys IH]; intros k x HP Hb f;
    (destruct f as [|f]; [reflexivity|]); cbn [members map concat];
    rewrite string_encode_str, skip_ws_cons by reflexivity;
    change (58 =? 58) with true; cbv iota;
    change (skip_ws (32 :: ?s)) with (skip_ws s);
    rewrite skip_ws_encode_any;
    inversion HP as [|? ? Hx HP']; subst; cbn [forallb snd] in Hb, Hx;
    destruct (rfc_value x) eqn:Ex;
    try (rewrite (Hx eq_refl); reflexivity).
  - discriminate Hb.
  - destruct (value f _) as [r|] eqn:Ev; [|reflexivity].
    apply value_encode_exact in Ev; [|apply value_encode, Ex|reflexivity].
    subst r. unfold dict_sep at 1. cbn [fst snd].
    repeat (rewrite <- app_assoc || rewrite <- app_comm_cons).
    rewrite skip_ws_cons by reflexivity. change (44 =? 44) with true. cbv iota.
    rewrite skip_ws_indent, skip_ws_encode_str.
    apply IH; assumption.
Qed.

Lemma value_encode_bad v : rfc_value v = false -> rejected v.
Proof.
  induction v as [x|s|l IH|items IH] using json_ind'; intros Hv.
  - intros level rest fuel. destruct fuel as [|f]; [reflexivity|].
    destruct x as [| [|] | |]; try discriminate; reflexivity.
  - discriminate.
  - intros level rest fuel. destruct l as [|x xs]; [discriminate|].
    rewrite encode_list. destruct fuel as [|f]; [reflexivity|].
    repeat (rewrite <- app_assoc || rewrite <- app_comm_cons). cbn [value].
    change (91 =? 34) with false. change (91 =? 91) with true. cbv iota.
    rewrite skip_ws_indent, skip_ws_encode_any.
    destruct (encode_head x (S level)) as (c & t & Ec & _ & Hc & _).
    rewrite Ec at 1. cbn [app].
    destruct (N.eqb_spec c 93); [contradiction|].
    change (c :: t ++ ?r) with ((c :: t) ++ r). rewrite <- Ec.
    cbn [app]. apply elements_bad; assumption.
  - intros level rest fuel. rewrite rfc_value_dict in Hv.
    destruct items as [|[k x] xs]; [discriminate|].
    rewrite encode_dict. destruct fuel as [|f]; [reflexivity|].
    repeat (rewrite <- app_assoc || rewrite <- app_comm_cons). cbn [value].
    change (123 =? 34) with false. change (123 =? 91) with false.
    change (123 =? 123) with true. cbv iota.
    rewrite skip_ws_indent. unfold encode_str at 1. cbn [app].
    rewrite skip_ws_cons by reflexivity.
    change (QUOTE =? 125) with false. cbv iota.
    change (QUOTE :: (concat (map escape_char k) ++ [QUOTE]) ++ ?r)
      with (encode_str k ++ r).
    cbn [app]. apply members_bad; assumption.
Qed.

(** What [json.dump] writes is a JSON text exactly when every float of
    the value is finite. *)
Lemma json_text_dumps_rfc v : json_text (dumps v) = rfc_value v.
Proof.
  destruct (rfc_value v) eqn:Ev; [apply json_text_dumps, Ev|].
  unfold json_text, dumps.
  pose proof (skip_ws_encode_any v 0 []) as E. rewrite app_nil_r in E.
  pose proof (value_encode_bad v Ev 0%nat [] (S (length (encode 0 v)))) as E'.
  rewrite app_nil_r in E'. rewrite E, E'. reflexivity.
Qed.
End Accepted.

(** ** [dyadic_repr] prints JSON numbers *)

Local Open Scope Z_scope.

Lemma digits_fuel_lead f : forall n acc,
  0 <= n < 10 * 2 ^ Z.of_nat f ->
  exists d ds,
    digits_fuel f n acc = d :: ds ++ acc
    /\ (1 <= n -> d <> 48%N) /\ (n = 0 -> ds = []).
Proof.
  assert (Hlow : forall n, 1 <= n < 10 -> digit (n mod 10) <> 48%N).
  { intros n Hn. rewrite Z.mod_small by lia. unfold digit. lia. }
  induction f as [|f IH]; intros n acc Hn.
  - exists (digit (n mod 10)), []. change (2 ^ Z.of_nat 0) with 1 in Hn.
    split; [reflexivity|]. split; [intros; apply Hlow; lia|reflexivity].
  - cbn [digits_fuel]. destruct (Z.ltb_spec n 10) as [Hlt|Hge].
    + exists (digit (n mod 10)), [].
      split; [reflexivity|]. split; [intros; apply Hlow; lia|reflexivity].
    + rewrite Nat2Z.inj_succ, Z.pow_succ_r in Hn by lia.
      assert (H2 : 0 < 2 ^ Z.of_nat f) by (apply Z.pow_pos_nonneg; lia).
      assert (Hq : 1 <= n / 10) by (apply Z.div_le_lower_bound; lia).
      destruct (IH (n / 10) (digit (n mod 10) :: acc)) as (d & ds & E & Hd & _).
      { split; [lia|]. apply Z.div_lt_upper_bound; lia. }
      exists d, (ds ++ [digit (n mod 10)]). rewrite E, <- app_assoc.
      split; [reflexivity|]. split; [intros _; apply Hd, Hq|lia].
Qed.

Lemma str_nat_lead n :
  0 <= n ->
  exists d ds, str_nat n = d :: ds /\ (d = 48%N -> ds = []).
Proof.
  intros Hn. unfold str_nat.
  destruct (digits_fuel_lead (Z.to_nat (Z.log2 n)) n []) as (d & ds & E & Hd & H0).
  { split; [exact Hn|]. rewrite Z2Nat.id by apply Z.log2_nonneg.
    destruct (Z.eq_dec n 0) as [->|Hne]; [reflexivity|].
    pose proof (Z.log2_spec n ltac:(lia)) as [_ Hs].
    rewrite Z.pow_succ_r in Hs by apply Z.log2_nonneg.
    assert (0 < 2 ^ Z.log2 n) by (apply Z.pow_pos_nonneg; [lia|apply Z.log2_nonneg]).
    lia. }
  exists d, ds. rewrite E, app_nil_r. split; [reflexivity|].
  intros Hz. apply H0. destruct (Z.eq_dec n 0); [assumption|].
  exfalso. apply Hd; [lia|exact Hz].
Qed.

Lemma skip_digits_all ds r :
  Forall (fun c => is_digit c = true) ds -> skip_digits (ds ++ r) = skip_digits r.
Proof.
  induction 1 as [|c ds Hc _ IH]; [reflexivity|].
  unfold skip_digits in *. cbn [app lstrip_by]. rewrite Hc. exact IH.
Qed.

Lemma fraction_digits_digits scale : forall k m,
  0 <= m < scale ->
  Forall (fun c => is_digit c = true) (Ascii_builtins.fraction_digits k m scale).
Proof.
  induction k as [|k IH]; intros m Hm; cbn [Ascii_builtins.fraction_digits]; constructor.
  - apply is_digit_digit. split; [apply Z.div_pos; lia|].
    apply Z.div_lt_upper_bound; lia.
  - destruct (10 * m mod scale =? 0); [constructor|].
    apply IH, Z.mod_pos_bound. lia.
Qed.

(** An optional minus sign, the digits of a natural number, a point and
    one digit or more. *)
Lemma number_decimal (neg : bool) n fp :
  0 <= n -> fp <> [] -> Forall (fun c => is_digit c = true) fp ->
  number ((if neg then lit "-" else []) ++ str_nat n ++ lit "." ++ fp) = Some [].
Proof.
  intros Hn Hne Hfp.
  assert (Hfrac : frac (lit "." ++ fp) = Some []).
  { destruct Hfp as [|c fp Hc Hfp]; [contradiction|].
    change (frac (lit "." ++ c :: fp)) with (digits1 (c :: fp)).
    cbn [digits1]. rewrite Hc.
    rewrite <- (app_nil_r fp), skip_digits_all by assumption. reflexivity. }
  assert (Hint : int (str_nat n ++ lit "." ++ fp) = Some (lit "." ++ fp)).
  { destruct (str_nat_lead n Hn) as (d & ds & E & Hz).
    pose proof (str_nat_digits n) as Hd. rewrite E in Hd |- *.
    inversion Hd as [|? ? Hd1 Hd2]; subst. cbn [app int].
    destruct (N.eqb_spec d 48) as [Hd0|_]; [rewrite (Hz Hd0); reflexivity|].
    change (Rfc8259.is_digit d = true) in Hd1. rewrite Hd1.
    rewrite skip_digits_all by assumption. reflexivity. }
  unfold number.
  replace (minus ((if neg then lit "-" else []) ++ str_nat n ++ lit "." ++ fp))
    with (str_nat n ++ lit "." ++ fp).
  - rewrite Hint, Hfrac. reflexivity.
  - destruct neg; [reflexivity|].
    destruct (str_nat_lead n Hn) as (d & ds & E & _).
    pose proof (str_nat_digits n) as Hd. rewrite E in Hd |- *.
    inversion Hd as [|? ? Hd1 _]; subst. cbn [app minus].
    destruct (N.eqb_spec d 45) as [->|]; [discriminate Hd1|reflexivity].
Qed.

Lemma dyadic_repr_number x :
  is_finite x = true -> number (Ascii_builtins.dyadic_repr x) = Some [].
Proof.
  destruct x as [s| | |s m e]; try discriminate; intros _.
  - destruct s; reflexivity.
  - unfold Ascii_builtins.dyadic_repr. destruct (Z.leb_spec 0 e) as [He|He].
    + apply number_decimal; [|discriminate|repeat constructor].
      apply Z.mul_nonneg_nonneg; [lia|]. apply Z.pow_nonneg. lia.
    + assert (Hs : 0 < 2 ^ (- e)) by (apply Z.pow_pos_nonneg; lia).
      pose proof (fraction_digits_digits (2 ^ (- e)) (Z.to_nat (- e))
                    (Z.pos m mod 2 ^ (- e))
                    (Z.mod_pos_bound _ _ Hs)) as Hd.
      cbv zeta. destruct (Ascii_builtins.fraction_digits _ _ _) as [|c fd].
      * apply number_decimal; [apply Z.div_pos; lia|discriminate|repeat constructor].
      * apply number_decimal; [apply Z.div_pos; lia|discriminate|exact Hd].
Qed.

End Json_grammar.

(** ** The JSON string of a text, read back *)

Lemma hex_value_hex_digit d :
  (d < 16)%N -> Json_read.hex_value (hex_digit d) = Some d.
Proof.
  intros Hd. unfold Json_read.hex_value, hex_digit.
  destruct (N.ltb_spec d 10).
  - replace ((48 <=? 48 + d) && (48 + d <=? 57))%N with true
      by (symmetry; apply andb_true_iff; split; apply N.leb_le; lia).
    f_equal. lia.
  - replace ((48 <=? 87 + d) && (87 + d <=? 57))%N with false
      by (symmetry; apply andb_false_iff; right; apply N.leb_gt; lia).
    replace ((97 <=? 87 + d) && (87 + d <=? 102))%N with true
      by (symmetry; apply andb_true_iff; split; apply N.leb_le; lia).
    f_equal. lia.
Qed.

Lemma hex4_value_hex4 n :
  (n < 65536)%N ->
  Json_read.hex4_value (hex_digit (n / 4096 mod 16)) (hex_digit (n / 256 mod 16))
    (hex_digit (n / 16 mod 16)) (hex_digit (n mod 16)) = Some n.
Proof.
  intros Hn. unfold Json_read.hex4_value.
  rewrite !hex_value_hex_digit by (apply N.mod_lt; discriminate).
  f_equal. zify. Z.to_euclidean_division_equations. lia.
Qed.

Lemma lor_shiftl_10 a b :
  (b < 1024)%N -> N.lor (N.shiftl a 10) b = (a * 1024 + b)%N.
Proof.
  intros Hb. rewrite <- N.lxor_lor, <- N.add_nocarry_lxor.
  - rewrite N.shiftl_mul_pow2. reflexivity.
  - apply N.bits_inj. intros m. rewrite N.land_spec, N.bits_0.
    destruct (N.ltb_spec m 10) as [Hm|Hm].
    + rewrite N.shiftl_spec_low by assumption. reflexivity.
    + destruct (N.eq_dec b 0%N) as [->|Hb0]; [rewrite N.bits_0; apply andb_false_r|].
      rewrite (N.bits_above_log2 b m); [apply andb_false_r|].
      apply N.lt_le_trans with 10%N; [|exact Hm].
      apply N.log2_lt_pow2; [lia|exact Hb].
  - apply N.bits_inj. intros m. rewrite N.land_spec, N.bits_0.
    destruct (N.ltb_spec m 10) as [Hm|Hm].
    + rewrite N.shiftl_spec_low by assumption. reflexivity.
    + destruct (N.eq_dec b 0%N) as [->|Hb0]; [rewrite N.bits_0; apply andb_false_r|].
      rewrite (N.bits_above_log2 b m); [apply andb_false_r|].
      apply N.lt_le_trans with 10%N; [|exact Hm].
      apply N.log2_lt_pow2; [lia|exact Hb].
Qed.

(** The escape of a character of the basic plane that is no high
    surrogate. *)
Lemma scanstring_hex4 n tail :
  (n < 65536)%N -> ~ (55296 <= n <= 56319)%N ->
  Json_read.scanstring (lit "\u" ++ hex4 n ++ tail)
  = match Json_read.scanstring tail with
    | Some (t, rest) => Some (n :: t, rest)
    | None => None
    end.
Proof.
  intros Hn Hs.
  change (lit "\u" ++ hex4 n ++ tail)
    with (92%N :: 117%N :: hex_digit (n / 4096 mod 16) :: hex_digit (n / 256 mod 16)
          :: hex_digit (n / 16 mod 16) :: hex_digit (n mod 16) :: tail).
  cbn [Json_read.scanstring]. change (92 =? 34)%N with false.
  change (92 =? 92)%N with true. change (117 =? 117)%N with true. cbv iota.
  rewrite hex4_value_hex4 by assumption.
  replace ((55296 <=? n) && (n <=? 56319))%N with false; [reflexivity|].
  symmetry. apply andb_false_iff.
  destruct (N.leb_spec 55296 n); [right; apply N.leb_gt; lia|left; reflexivity].
Qed.

(** The two escapes of a character above the basic plane. *)
Lemma scanstring_pair c tail :
  (65536 <= c < 1114112)%N ->
  Json_read.scanstring
    (lit "\u" ++ hex4 (55296 + (c - 65536) / 1024 mod 1024)
     ++ lit "\u" ++ hex4 (56320 + (c - 65536) mod 1024) ++ tail)
  = match Json_read.scanstring tail with
    | Some (t, rest) => Some (c :: t, rest)
    | None => None
    end.
Proof.
  intros Hc.
  assert (Hfacts : let n := (c - 65536)%N in
                   let hi := (55296 + n / 1024 mod 1024)%N in
                   let lo := (56320 + n mod 1024)%N in
                   (55296 <= hi <= 56319)%N /\ (56320 <= lo <= 57343)%N
                   /\ (65536 + ((hi - 55296) * 1024 + (lo - 56320)))%N = c).
  { cbv zeta. zify. Z.to_euclidean_division_equations. lia. }
  cbv zeta in Hfacts.
  set (hi := (55296 + (c - 65536) / 1024 mod 1024)%N) in *.
  set (lo := (56320 + (c - 65536) mod 1024)%N) in *.
  destruct Hfacts as (Hhi & Hlo & Hval). clearbody hi lo.
  change (lit "\u" ++ hex4 hi ++ lit "\u" ++ hex4 lo ++ tail)
    with (92%N :: 117%N :: hex_digit (hi / 4096 mod 16) :: hex_digit (hi / 256 mod 16)
          :: hex_digit (hi / 16 mod 16) :: hex_digit (hi mod 16)
          :: 92%N :: 117%N :: hex_digit (lo / 4096 mod 16)
          :: hex_digit (lo / 256 mod 16) :: hex_digit (lo / 16 mod 16)
          :: hex_digit (lo mod 16) :: tail).
  cbn [Json_read.scanstring]. change (92 =? 34)%N with false.
  change (92 =? 92)%N with true. change (117 =? 117)%N with true. cbv iota.
  rewrite (hex4_value_hex4 hi) by lia.
  replace ((55296 <=? hi) && (hi <=? 56319))%N with true
    by (symmetry; apply andb_true_iff; split; apply N.leb_le; lia).
  cbn [Json_read.low_surrogate]. change ((92 =? 92) && (117 =? 117))%N with true.
  cbv iota. rewrite (hex4_value_hex4 lo) by lia.
  replace ((56320 <=? lo) && (lo <=? 57343))%N with true
    by (symmetry; apply andb_true_iff; split; apply N.leb_le; lia).
  replace (65536 + N.lor (N.shiftl (hi - 55296) 10) (lo - 56320))%N with c;
    [reflexivity|].
  rewrite lor_shiftl_10 by lia. symmetry. exact Hval.
Qed.

Lemma scanstring_plain c tail :
  (32 <= c)%N -> c <> 34%N -> c <> 92%N ->
  Json_read.scanstring (c :: tail)
  = match Json_read.scanstring tail with
    | Some (t, rest) => Some (c :: t, rest)
    | None => None
    end.
Proof.
  intros H1 H2 H3. cbn [Json_read.scanstring].
  destruct (N.eqb_spec c 34); [contradiction|].
  destruct (N.eqb_spec c 92); [contradiction|].
  destruct (N.ltb_spec c 32); [lia|]. reflexivity.
Qed.

Lemma scanstring_escape_char c tail :
  (c < 1114112)%N -> ~ (55296 <= c <= 57343)%N ->
  Json_read.scanstring (escape_char c ++ tail)
  = match Json_read.scanstring tail with
    | Some (t, rest) => Some (c :: t, rest)
    | None => None
    end.
Proof.
  intros Hc Hs. unfold escape_char.
  destruct (N.eqb_spec c 34) as [->|]; [reflexivity|].
  destruct (N.eqb_spec c 92) as [->|]; [reflexivity|].
  destruct (N.eqb_spec c 10) as [->|]; [reflexivity|].
  destruct (N.eqb_spec c 13) as [->|]; [reflexivity|].
  destruct (N.eqb_spec c 9) as [->|]; [reflexivity|].
  destruct (N.eqb_spec c 8) as [->|]; [reflexivity|].
  destruct (N.eqb_spec c 12) as [->|]; [reflexivity|].
  destruct (N.leb_spec 32 c); cbn [andb].
  - destruct (N.leb_spec c 126).
    + apply scanstring_plain; assumption.
    + destruct (N.ltb_spec c 65536).
      * apply scanstring_hex4; [assumption|lia].
      * rewrite <- !app_assoc. apply scanstring_pair. lia.
  - destruct (N.ltb_spec c 65536); [|lia]. apply scanstring_hex4; [assumption|lia].
Qed.

Lemma scanstring_escape s rest :
  Forall (fun c => (c < 1114112)%N /\ ~ (55296 <= c <= 57343)%N) s ->
  Json_read.scanstring (concat (map escape_char s) ++ QUOTE :: rest) = Some (s, rest).
Proof.
  induction 1 as [|c s [Hc Hs] _ IH]; [reflexivity|].
  cbn [map concat]. rewrite <- app_assoc, scanstring_escape_char by assumption.
  rewrite IH. reflexivity.
Qed.

(** X18. The JSON string written for a text of Unicode scalar values
    denotes that text: read back as [json.loads] reads a string, escapes
    and surrogate pairs give the characters they were written for. *)
Theorem json_string_round_trip (s : pystr) :
  Forall (fun c => (c < 1114112)%N /\ ~ (55296 <= c <= 57343)%N) s ->
  Json_read.loads_string (encode_str s) = Some s.
Proof.
  intros Hs. unfold encode_str, Json_read.loads_string. cbn [app].
  change (QUOTE =? 34)%N with true. cbv iota.
  rewrite <- (app_nil_r (concat (map escape_char s) ++ [QUOTE])), <- app_assoc.
  cbn [app]. rewrite scanstring_escape by assumption. reflexivity.
Qed.

Lemma json_string_round_trip_witness :
  Json_read.loads_string
    (encode_str (lit "a" ++ [QUOTE; 233%N; LF; 128512%N; 92%N; 8364%N]))
  = Some (lit "a" ++ [QUOTE; 233%N; LF; 128512%N; 92%N; 8364%N]).
Proof.
  apply (json_string_round_trip (lit "a" ++ [QUOTE; 233%N; LF; 128512%N; 92%N; 8364%N])).
  repeat (apply List.Forall_cons; [split; [reflexivity|intros [H1 H2]; vm_compute in H1, H2;
                                       first [apply H1; reflexivity|apply H2; reflexivity]]|]).
  apply List.Forall_nil.
Defined.

(** ** [str.strip] *)

Lemma lstrip_by_app_all p a m :
  forallb p a = true -> lstrip_by p (a ++ m) = lstrip_by p m.
Proof.
  induction a as [|c a IH]; [reflexivity|]. cbn [forallb app lstrip_by].
  intros [Hc Ha]%andb_true_iff. rewrite Hc. exact (IH Ha).
Qed.

Lemma lstrip_by_split p s :
  exists a, s = a ++ lstrip_by p s /\ forallb p a = true.
Proof.
  induction s as [|c s (a & E & Ha)]; [exists []; split; reflexivity|].
  cbn [lstrip_by]. destruct (p c) eqn:Hc.
  - exists (c :: a). cbn [app forallb]. rewrite Hc, Ha, <- E. split; reflexivity.
  - exists []. split; reflexivity.
Qed.

Lemma lstrip_by_head p s c t : lstrip_by p s = c :: t -> p c = false.
Proof.
  induction s as [|d s IH]; [discriminate|]. cbn [lstrip_by].
  destruct (p d) eqn:Hd; [exact IH|]. intros [= <- <-]. exact Hd.
Qed.

Lemma lstrip_by_keep p c t : p c = false -> lstrip_by p (c :: t) = c :: t.
Proof. intros Hc. cbn [lstrip_by]. rewrite Hc. reflexivity. Qed.

Lemma lstrip_by_app_keep p s w :
  lstrip_by p s <> [] -> lstrip_by p (s ++ w) = lstrip_by p s ++ w.
Proof.
  induction s as [|c s IH]; [intros H; contradiction|].
  cbn [lstrip_by app]. destruct (p c); [exact IH|reflexivity].
Qed.

Lemma lstrip_by_all p s : forallb p s = true -> lstrip_by p s = [].
Proof.
  intros H. rewrite <- (app_nil_r s), lstrip_by_app_all by assumption. reflexivity.
Qed.

Lemma lstrip_by_nil p s : lstrip_by p s = [] -> forallb p s = true.
Proof.
  intros H. destruct (lstrip_by_split p s) as (a & E & Ha).
  rewrite H, app_nil_r in E. subst a. exact Ha.
Qed.

Lemma forallb_rev {A} (p : A -> bool) l : forallb p (rev l) = forallb p l.
Proof.
  induction l as [|x l IH]; [reflexivity|]. cbn [rev forallb].
  rewrite forallb_app, IH. cbn [forallb]. rewrite andb_true_r. apply andb_comm.
Qed.

Lemma rstrip_by_app_all p m b :
  forallb p b = true -> rstrip_by p (m ++ b) = rstrip_by p m.
Proof.
  intros Hb. unfold rstrip_by. rewrite rev_app_distr, lstrip_by_app_all; [reflexivity|].
  rewrite forallb_rev. exact Hb.
Qed.

Lemma rstrip_by_keep p m c : p c = false -> rstrip_by p (m ++ [c]) = m ++ [c].
Proof.
  intros Hc. unfold rstrip_by. rewrite rev_app_distr. cbn [rev app].
  rewrite lstrip_by_keep by assumption. cbn [rev]. rewrite rev_involutive. reflexivity.
Qed.

Lemma rstrip_by_split p s :
  exists b, s = rstrip_by p s ++ b /\ forallb p b = true.
Proof.
  unfold rstrip_by. destruct (lstrip_by_split p (rev s)) as (a & E & Ha).
  exists (rev a). rewrite forallb_rev. split; [|exact Ha].
  rewrite <- rev_app_distr, <- E, rev_involutive. reflexivity.
Qed.

Lemma rstrip_by_last p s m c : rstrip_by p s = m ++ [c] -> p c = false.
Proof.
  unfold rstrip_by. intros H. apply (f_equal (@rev _)) in H.
  rewrite rev_involutive, rev_app_distr in H. cbn [rev app] in H.
  exact (lstrip_by_head _ _ _ _ H).
Qed.

(** What [strip] leaves: the text between a run of stripped characters
    at each end. *)
Lemma strip_by_split p s :
  exists a b, s = a ++ strip_by p s ++ b
              /\ forallb p a = true /\ forallb p b = true.
Proof.
  unfold strip_by. destruct (lstrip_by_split p s) as (a & E & Ha).
  destruct (rstrip_by_split p (lstrip_by p s)) as (b & E' & Hb).
  exists a, b. rewrite <- E', <- E. auto.
Qed.

(** The text between two runs of stripped characters is what [strip]
    returns, as soon as its two ends are kept. *)
Lemma strip_by_core p a c m d b :
  forallb p a = true -> forallb p b = true -> p c = false -> p d = false ->
  (strip_by p (a ++ (c :: m ++ [d]) ++ b) = c :: m ++ [d])
  /\ strip_by p (a ++ [c] ++ b) = [c].
Proof.
  intros Ha Hb Hc Hd. unfold strip_by.
  split; rewrite lstrip_by_app_all by assumption; cbn [app];
    rewrite lstrip_by_keep by assumption.
  - transitivity (rstrip_by p (c :: m ++ [d])).
    + exact (rstrip_by_app_all p (c :: m ++ [d]) b Hb).
    + exact (rstrip_by_keep p (c :: m) d Hd).
  - transitivity (rstrip_by p [c]).
    + exact (rstrip_by_app_all p [c] b Hb).
    + exact (rstrip_by_keep p [] c Hc).
Qed.

Lemma strip_by_all p s : forallb p s = true -> strip_by p s = [].
Proof. intros H. unfold strip_by. rewrite lstrip_by_all by assumption. reflexivity. Qed.

Lemma strip_by_nil p s : strip_by p s = [] -> forallb p s = true.
Proof.
  intros H. destruct (strip_by_split p s) as (a & b & E & Ha & Hb).
  rewrite H in E. rewrite E, forallb_app, Ha. exact Hb.
Qed.

(** The two ends of a stripped text are kept characters. *)
Lemma strip_by_ends p s :
  strip_by p s = []
  \/ (exists c, strip_by p s = [c] /\ p c = false)
  \/ exists c m d, strip_by p s = c :: m ++ [d] /\ p c = false /\ p d = false.
Proof.
  destruct (strip_by p s) as [|c t] eqn:E; [left; reflexivity|right].
  assert (Hc : p c = false).
  { unfold strip_by in E. destruct (rstrip_by_split p (lstrip_by p s)) as (b & E' & _).
    rewrite E in E'. cbn [app] in E'. exact (lstrip_by_head _ _ _ _ E'). }
  destruct (rev t) as [|d m'] eqn:Et.
  - apply (f_equal (@rev _)) in Et. rewrite rev_involutive in Et. subst t.
    left. exists c. auto.
  - apply (f_equal (@rev _)) in Et. rewrite rev_involutive in Et. cbn [rev] in Et.
    subst t. right. exists c, (rev m'), d. split; [reflexivity|]. split; [exact Hc|].
    unfold strip_by in E. exact (rstrip_by_last p _ (c :: rev m') d E).
Qed.

Lemma strip_by_idem p s : strip_by p (strip_by p s) = strip_by p s.
Proof.
  destruct (strip_by_ends p s) as [E|[(c & E & Hc)|(c & m & d & E & Hc & Hd)]];
    rewrite E.
  - reflexivity.
  - apply (proj2 (strip_by_core p [] c [] c [] eq_refl eq_refl Hc Hc)).
  - pose proof (proj1 (strip_by_core p [] c m d [] eq_refl eq_refl Hc Hd)) as H.
    cbn [app] in H. rewrite app_nil_r in H. exact H.
Qed.

(** Stripped characters after a text do not change what [strip] returns. *)
Lemma strip_by_app_all p s w :
  forallb p w = true -> strip_by p (s ++ w) = strip_by p s.
Proof.
  intros Hw. unfold strip_by. destruct (lstrip_by p s) as [|c t] eqn:E.
  - apply lstrip_by_nil in E. rewrite lstrip_by_all; [reflexivity|].
    rewrite forallb_app, E. exact Hw.
  - rewrite lstrip_by_app_keep by (rewrite E; discriminate).
    rewrite E. apply rstrip_by_app_all, Hw.
Qed.

(** ** C2: no segments *)

(** C2. For the empty sequence each writer returns normally; the SRT and
    the TXT file are empty, and the JSON file holds [[]], the empty
    array, which is a JSON text of RFC 8259. *)
Theorem writers_empty `{Builtins} (out_path : pystr) (σ : fs) :
  (snd (write_srt [] out_path σ) = Ok tt
   /\ files (fst (write_srt [] out_path σ)) !! out_path = Some [])
  /\ (snd (write_txt [] out_path σ) = Ok tt
      /\ files (fst (write_txt [] out_path σ)) !! out_path = Some [])
  /\ (snd (write_json [] out_path σ) = Ok tt
      /\ files (fst (write_json [] out_path σ)) !! out_path = Some (lit "[]")
      /\ json_output [] = []
      /\ rfc_value (JList (json_output [])) = true
      /\ Rfc8259.json_text (lit "[]") = true).
Proof.
  repeat split.
  - rewrite write_srt_file. rewrite decide_True by reflexivity. reflexivity.
  - rewrite write_txt_file. rewrite decide_True by reflexivity. reflexivity.
  - rewrite write_json_file. rewrite decide_True by reflexivity. reflexivity.
Qed.

(** ** C4: cue numbers *)

Lemma srt_writes_numbers segments : forall i k chunk,
  fst (srt_writes i segments) !! (3 * k)%nat = Some chunk ->
  chunk = str_int (i + Z.of_nat k) ++ [LF].
Proof.
  assert (Hhead : forall (x : pystr) l k chunk i,
            (x :: l) !! (3 * k)%nat = Some chunk -> k = O ->
            x = str_int i ++ [LF] -> chunk = str_int (i + Z.of_nat k) ++ [LF]).
  { intros x l k chunk i Hk -> ->. rewrite Z.add_0_r. injection Hk as <-. reflexivity. }
  induction segments as [|seg rest IH]; intros i k chunk; cbn [srt_writes].
  - intros Hk. discriminate Hk.
  - destruct (format_srt_timestamp (start seg)) as [a|e].
    2:{ cbn [fst]. intros Hk. destruct k as [|k]; [eapply Hhead; eauto|].
        replace (3 * S k)%nat with (S (S (S (3 * k)))) in Hk by lia. discriminate Hk. }
    destruct (format_srt_timestamp (end_ seg)) as [b|e].
    2:{ cbn [fst]. intros Hk. destruct k as [|k]; [eapply Hhead; eauto|].
        replace (3 * S k)%nat with (S (S (S (3 * k)))) in Hk by lia. discriminate Hk. }
    specialize (IH (i + 1)).
    destruct (srt_writes (i + 1) rest) as [ws r]. cbn [fst] in *.
    intros Hk. destruct k as [|k]; [eapply Hhead; eauto|].
    replace (3 * S k)%nat with (S (S (S (3 * k)))) in Hk by lia.
    change (ws !! (3 * k)%nat = Some chunk) in Hk.
    rewrite (IH k chunk Hk). f_equal. f_equal. lia.
Qed.

Lemma srt_writes_length segments : forall i,
  snd (srt_writes i segments) = Ok tt ->
  length (fst (srt_writes i segments)) = (3 * length segments)%nat.
Proof.
  induction segments as [|seg rest IH]; intros i; cbn [srt_writes]; [reflexivity|].
  destruct (format_srt_timestamp (start seg)) as [a|e]; [|discriminate].
  destruct (format_srt_timestamp (end_ seg)) as [b|e]; [|discriminate].
  specialize (IH (i + 1)).
  destruct (srt_writes (i + 1) rest) as [ws r]. cbn [fst snd length] in *.
  intros Hr. rewrite (IH Hr). lia.
Qed.

(** *** The cue number is a decimal numeral

    [str(i)] of a positive [i] is a string of ASCII digits that does not
    start with [0], and reading it in base ten gives [i] back. *)

Lemma digits_value_app a : forall acc b,
  Ascii_builtins.digits_value acc (a ++ b)
  = match Ascii_builtins.digits_value acc a with
    | Some v => Ascii_builtins.digits_value v b
    | None => None
    end.
Proof.
  induction a as [|c a IH]; intros acc b; cbn [app Ascii_builtins.digits_value];
    [reflexivity|].
  destruct ((48 <=? c)%N && (c <=? 57)%N); [apply IH|reflexivity].
Qed.

Lemma digits_value_digit acc d :
  0 <= d < 10 ->
  Ascii_builtins.digits_value acc [digit d] = Some (10 * acc + d).
Proof.
  intros Hd. cbn [Ascii_builtins.digits_value]. unfold digit.
  replace ((48 <=? Z.to_N (48 + d))%N && (Z.to_N (48 + d) <=? 57)%N) with true
    by (symmetry; apply andb_true_intro; split; apply N.leb_le; lia).
  f_equal. lia.
Qed.

Lemma digits_fuel_value f : forall n acc,
  0 <= n < 10 * 2 ^ Z.of_nat f ->
  exists ds,
    digits_fuel f n acc = ds ++ acc
    /\ forall a, Ascii_builtins.digits_value a ds
                 = Some (a * 10 ^ Z.of_nat (length ds) + n).
Proof.
  assert (Hone : forall n acc, 0 <= n < 10 ->
            exists ds, digit (n mod 10) :: acc = ds ++ acc
              /\ forall a, Ascii_builtins.digits_value a ds
                           = Some (a * 10 ^ Z.of_nat (length ds) + n)).
  { intros n acc Hn. exists [digit (n mod 10)]. split; [reflexivity|].
    intros a. rewrite digits_value_digit by (apply Z.mod_pos_bound; lia).
    rewrite Z.mod_small by lia. cbn [length]. f_equal. lia. }
  induction f as [|f IH]; intros n acc Hn.
  - change (2 ^ Z.of_nat 0) with 1 in Hn. apply Hone. lia.
  - cbn [digits_fuel]. destruct (Z.ltb_spec n 10) as [Hlt|Hge]; [apply Hone; lia|].
    rewrite Nat2Z.inj_succ, Z.pow_succ_r in Hn by lia.
    assert (H2 : 0 < 2 ^ Z.of_nat f) by (apply Z.pow_pos_nonneg; lia).
    destruct (IH (n / 10) (digit (n mod 10) :: acc)) as (ds & E & Hv).
    { split; [apply Z.div_pos; lia|]. apply Z.div_lt_upper_bound; lia. }
    exists (ds ++ [digit (n mod 10)]). rewrite E, <- app_assoc.
    split; [reflexivity|]. intros a.
    rewrite digits_value_app, Hv.
    rewrite digits_value_digit by (apply Z.mod_pos_bound; lia).
    rewrite length_app, Nat2Z.inj_add. cbn [length].
    rewrite Z.pow_add_r by lia. change (10 ^ Z.of_nat 1) with 10.
    f_equal. pose proof (Z.div_mod n 10 ltac:(lia)). lia.
Qed.

Lemma str_nat_value n :
  0 <= n -> Ascii_builtins.digits_value 0 (str_nat n) = Some n.
Proof.
  intros Hn. unfold str_nat.
  destruct (digits_fuel_value (Z.to_nat (Z.log2 n)) n []) as (ds & E & Hv).
  { split; [exact Hn|]. rewrite Z2Nat.id by apply Z.log2_nonneg.
    destruct (Z.eq_dec n 0) as [->|Hne]; [reflexivity|].
    pose proof (Z.log2_spec n ltac:(lia)) as [_ Hs].
    rewrite Z.pow_succ_r in Hs by apply Z.log2_nonneg.
    assert (0 < 2 ^ Z.log2 n) by (apply Z.pow_pos_nonneg; [lia|apply Z.log2_nonneg]).
    lia. }
  rewrite E, app_nil_r, Hv. reflexivity.
Qed.

(** The numeral of a positive number. *)
Lemma str_int_numeral i :
  1 <= i ->
  exists d ds,
    str_int i = d :: ds
    /\ Forall (fun c => is_digit c = true) (d :: ds)
    /\ d <> 48%N
    /\ Ascii_builtins.ascii_int (d :: ds) = Some i.
Proof.
  intros Hi. unfold str_int. destruct (Z.ltb_spec i 0) as [|_]; [lia|].
  pose proof (str_nat_digits i) as Hd. pose proof (str_nat_value i ltac:(lia)) as Hv.
  unfold str_nat in *.
  destruct (Json_grammar.digits_fuel_lead (Z.to_nat (Z.log2 i)) i [])
    as (d & ds & E & Hlead & _).
  { split; [lia|]. rewrite Z2Nat.id by apply Z.log2_nonneg.
    pose proof (Z.log2_spec i ltac:(lia)) as [_ Hs].
    rewrite Z.pow_succ_r in Hs by apply Z.log2_nonneg.
    assert (0 < 2 ^ Z.log2 i) by (apply Z.pow_pos_nonneg; [lia|apply Z.log2_nonneg]).
    lia. }
  rewrite app_nil_r in E. rewrite E in Hd, Hv |- *.
  exists d, ds. split; [reflexivity|]. split; [exact Hd|].
  split; [apply Hlead; lia|].
  apply Forall_cons in Hd as [Hd0 _]. unfold is_digit in Hd0.
  apply andb_prop in Hd0 as [Hlo Hhi]. apply N.leb_le in Hlo, Hhi.
  unfold Ascii_builtins.ascii_int, Ascii_builtins.unsigned_value.
  destruct (N.eqb_spec d 45) as [->|_]; [lia|].
  destruct (N.eqb_spec d 43) as [->|_]; [lia|]. exact Hv.
Qed.

(** C4. The file written by [write_srt] is the concatenation of the
    strings handed to [f.write]; the write that opens the [k]-th cue
    (counting from zero, every third write) is [str(k + 1)] and a line
    feed, whatever the segments hold, and [str(k + 1)] is the decimal
    numeral of [k + 1]: ASCII digits, the first of them not [0], that
    read in base ten give [k + 1]. When the writer returns normally
    there are exactly three writes for each segment, so that the cue
    numbers are [1, 2, ..., len(segments)]. *)
Theorem write_srt_cue_numbers (segments : list Segment) (out_path : pystr) (σ : fs) :
  let ws := fst (srt_writes 1 segments) in
  files (fst (write_srt segments out_path σ)) !! out_path = Some (concat ws)
  /\ (forall k chunk, ws !! (3 * k)%nat = Some chunk ->
        chunk = str_int (Z.of_nat k + 1) ++ [LF]
        /\ exists d ds,
             chunk = (d :: ds) ++ [LF]
             /\ Forall (fun c => is_digit c = true) (d :: ds)
             /\ d <> 48%N
             /\ Ascii_builtins.ascii_int (d :: ds) = Some (Z.of_nat k + 1))
  /\ (snd (write_srt segments out_path σ) = Ok tt ->
        length ws = (3 * length segments)%nat
        /\ forall k, (k < length segments)%nat ->
             ws !! (3 * k)%nat = Some (str_int (Z.of_nat k + 1) ++ [LF])).
Proof.
  intros ws. split; [|split].
  - rewrite write_srt_file, decide_True by reflexivity. reflexivity.
  - intros k chunk Hk. rewrite (srt_writes_numbers _ _ _ _ Hk).
    replace (1 + Z.of_nat k) with (Z.of_nat k + 1) by lia.
    split; [reflexivity|].
    destruct (str_int_numeral (Z.of_nat k + 1) ltac:(lia)) as (d & ds & -> & Hd).
    exists d, ds. split; [reflexivity|exact Hd].
  - rewrite write_srt_result. intros Hr.
    pose proof (srt_writes_length segments 1 Hr) as Hl. fold ws in Hl.
    split; [exact Hl|]. intros k Hk.
    destruct (ws !! (3 * k)%nat) as [chunk|] eqn:E.
    + f_equal. rewrite (srt_writes_numbers _ _ _ _ E). f_equal. f_equal. lia.
    + exfalso. apply lookup_ge_None in E. unfold pystr in *. lia.
Qed.

(** The SRT file of the example run: the cues are numbered [1] and [2]. *)
Example write_srt_text :
  files (fst (write_srt Demo.segments (lit "a.srt") Demo.empty)) !! lit "a.srt"
  = Some (lit "1" ++ [LF] ++ lit "00:00:00,000 --> 00:00:02,500" ++ [LF]
          ++ lit "Hello" ++ [LF; LF]
          ++ lit "2" ++ [LF] ++ lit "00:00:02,500 --> 00:00:04,000" ++ [LF]
          ++ lit "world" ++ [LF; LF]).
Proof. vm_compute. reflexivity. Qed.

(** ** C7: the lines of the plain-text file *)

Lemma lines_from_line t : forall cur rest,
  has_LF t = false ->
  lines_from cur (t ++ LF :: rest) = (rev cur ++ t) :: lines_from [] rest.
Proof.
  induction t as [|c t IH]; intros cur rest Ht.
  - cbn. rewrite app_nil_r. reflexivity.
  - cbn [has_LF existsb] in Ht. apply orb_false_iff in Ht as [Hc Ht].
    cbn [app lines_from]. rewrite N.eqb_sym, Hc. rewrite (IH _ _ Ht).
    cbn [rev]. rewrite <- app_assoc. reflexivity.
Qed.

Lemma txt_writes_map segments :
  txt_writes segments = map (fun seg => strip (text seg) ++ [LF]) segments.
Proof. induction segments as [|seg rest IH]; simpl; [|rewrite IH]; reflexivity. Qed.

Lemma txt_writes_lines segments :
  Forall (fun seg => has_LF (strip (text seg)) = false) segments ->
  lines (concat (txt_writes segments)) = map (fun seg => strip (text seg)) segments.
Proof.
  unfold lines. induction 1 as [|seg rest Hseg _ IH]; [reflexivity|].
  simpl txt_writes. simpl concat. rewrite <- app_assoc. simpl app.
  rewrite (lines_from_line _ _ _ Hseg). simpl. rewrite IH. reflexivity.
Qed.

(** C7, as amended. When no stripped text holds a line feed, the file
    written by [write_txt] has exactly one line for each segment, and the
    [i]-th line is the [i]-th segment's text with the surrounding white
    space stripped. *)
Theorem write_txt_lines (segments : list Segment) (out_path : pystr) (σ : fs) :
  Forall (fun seg => has_LF (strip (text seg)) = false) segments ->
  exists content,
    files (fst (write_txt segments out_path σ)) !! out_path = Some content
    /\ lines content = map (fun seg => strip (text seg)) segments
    /\ length (lines content) = length segments.
Proof.
  intros Hsegs. exists (concat (txt_writes segments)).
  rewrite write_txt_file, decide_True by reflexivity.
  rewrite (txt_writes_lines _ Hsegs), length_map. auto.
Qed.

Lemma write_txt_lines_witness :
  exists content,
    files (fst (write_txt [ {| start := of_Z 0; end_ := of_Z 2; text := lit " Hello " |};
                            {| start := of_Z 2; end_ := of_Z 3; text := lit "world" |} ]
                 (lit "out/a.txt") {| files := ∅; dirs := ∅ |})) !! lit "out/a.txt"
    = Some content
    /\ lines content
       = map (fun seg => strip (text seg))
           [ {| start := of_Z 0; end_ := of_Z 2; text := lit " Hello " |};
             {| start := of_Z 2; end_ := of_Z 3; text := lit "world" |} ]
    /\ length (lines content) = 2%nat.
Proof.
  apply (write_txt_lines
           [ {| start := of_Z 0; end_ := of_Z 2; text := lit " Hello " |};
             {| start := of_Z 2; end_ := of_Z 3; text := lit "world" |} ]).
  repeat constructor.
Defined.

(** C7, as stated, fails: one segment whose text holds a line feed
    gives a file of two lines. *)
Lemma write_txt_two_lines :
  files (fst (write_txt [ {| start := of_Z 0; end_ := of_Z 2;
                             text := lit "a" ++ [LF] ++ lit "b" |} ]
               (lit "a.txt") {| files := ∅; dirs := ∅ |})) !! lit "a.txt"
  = Some (lit "a" ++ [LF] ++ lit "b" ++ [LF])
  /\ lines (lit "a" ++ [LF] ++ lit "b" ++ [LF]) = [lit "a"; lit "b"]
  /\ length (lines (lit "a" ++ [LF] ++ lit "b" ++ [LF])) = 2%nat
  /\ length [ {| start := of_Z 0; end_ := of_Z 2;
                 text := lit "a" ++ [LF] ++ lit "b" |} ] = 1%nat.
Proof.
  split; [|repeat split].
  rewrite write_txt_file, decide_True by reflexivity. reflexivity.
Qed.

(** ** C3 and C9: the JSON array, and the stripped text *)

Lemma json_output_map segments : json_output segments = map json_segment segments.
Proof.
  unfold json_output.
  assert (G : forall acc,
            foldl (fun output seg => output ++ [json_segment seg]) acc segments
            = acc ++ map json_segment segments).
  { induction segments as [|seg rest IH]; intros acc; simpl.
    - rewrite app_nil_r. reflexivity.
    - rewrite IH, <- app_assoc. reflexivity. }
  apply (G []).
Qed.

Lemma rfc_value_list l : rfc_value (JList l) = forallb rfc_value l.
Proof. reflexivity. Qed.

Lemma rfc_value_json_output segments :
  rfc_value (JList (json_output segments)) = forallb finite_times segments.
Proof.
  rewrite json_output_map, rfc_value_list.
  induction segments as [|seg rest IH]; [reflexivity|].
  cbn [map forallb]. rewrite IH. f_equal.
  unfold finite_times. cbn.
  destruct (is_finite (start seg)), (is_finite (end_ seg)); reflexivity.
Qed.

(** ** The JSON file, read back by [json.loads] *)

Section Read_back.
Context `{Builtins}.
Variable parse_float : pystr -> option float.


Lemma read_number x rest :
  Json_read.float_reads_back parse_float x ->
  Rfc8259.ends_number rest = true ->
  Json_read.number parse_float (float_repr x ++ rest) = Some (Json_read.PFloat x, rest).
Proof.
  intros (_ & Hn & Hf & Hp) Hr. unfold Json_read.number.
  rewrite (Json_grammar.number_app _ _ rest Hr Hn). cbn [app].
  replace (length (float_repr x ++ rest) - length rest)%nat
    with (length (float_repr x)) by (rewrite length_app; lia).
  rewrite take_app_length, Hf, Hp. reflexivity.
Qed.

Lemma read_back_float x :
  Json_read.float_reads_back parse_float x -> Json_read.read_back parse_float (JFloat x) (Json_read.PFloat x).
Proof.
  intros Hx level rest fuel Hr Hlen.
  assert (E : encode level (JFloat x) = float_repr x).
  { destruct Hx as (Hfin & _). destruct x; try discriminate; reflexivity. }
  rewrite E in *. pose proof (read_number x rest Hx Hr) as Hnum.
  destruct Hx as (_ & Hn & _).
  destruct (Json_grammar.number_head _ _ Hn) as (c & t & Ec & Hc).
  rewrite Ec in *. destruct fuel as [|f]; [cbn in Hlen; lia|].
  assert (Hne : c <> 34%N /\ c <> 91%N /\ c <> 123%N /\ c <> 116%N
                /\ c <> 102%N /\ c <> 110%N).
  { destruct Hc as [->|Hc]; [repeat split; discriminate|].
    apply Json_grammar.is_digit_range in Hc. lia. }
  destruct Hne as (H1 & H2 & H3 & H4 & H5 & H6).
  cbn [Json_read.value app].
  destruct (N.eqb_spec c 34); [contradiction|].
  destruct (N.eqb_spec c 123); [contradiction|].
  destruct (N.eqb_spec c 91); [contradiction|].
  destruct (N.eqb_spec c 110); [contradiction|].
  destruct (N.eqb_spec c 116); [contradiction|].
  destruct (N.eqb_spec c 102); [contradiction|].
  cbn [app] in Hnum. rewrite Hnum. reflexivity.
Qed.

Lemma read_back_str s :
  Json_read.scalar s -> Json_read.read_back parse_float (JStr s) (Json_read.PStr s).
Proof.
  intros Hs level rest fuel Hr Hlen. cbn [encode] in *.
  destruct fuel as [|f]; [unfold encode_str in Hlen; cbn in Hlen; lia|].
  unfold encode_str. cbn [app Json_read.value].
  change (QUOTE =? 34)%N with true. cbv iota.
  rewrite <- app_assoc. cbn [app].
  rewrite (scanstring_escape s rest Hs). reflexivity.
Qed.

(** The first character of what is read back as a value. *)
Lemma read_back_head v o level :
  Json_read.read_back parse_float v o ->
  exists c t, encode level v = c :: t
    /\ Rfc8259.is_ws c = false /\ c <> 93%N /\ c <> 125%N.
Proof.
  intros Hv.
  specialize (Hv level [] (length (encode level v)) eq_refl (le_n _)).
  rewrite app_nil_r in Hv.
  destruct (encode level v) as [|c t]; [discriminate Hv|].
  exists c, t. split; [reflexivity|].
  cbn [length Json_read.value] in Hv.
  destruct (N.eqb_spec c 34) as [->|_]; [repeat split; discriminate|].
  destruct (N.eqb_spec c 123) as [->|_]; [repeat split; discriminate|].
  destruct (N.eqb_spec c 91) as [->|_]; [repeat split; discriminate|].
  destruct (N.eqb_spec c 32) as [->|N1]; [discriminate Hv|].
  destruct (N.eqb_spec c 9) as [->|N2]; [discriminate Hv|].
  destruct (N.eqb_spec c 10) as [->|N3]; [discriminate Hv|].
  destruct (N.eqb_spec c 13) as [->|N4]; [discriminate Hv|].
  destruct (N.eqb_spec c 93) as [->|N5]; [discriminate Hv|].
  destruct (N.eqb_spec c 125) as [->|N6]; [discriminate Hv|].
  split; [|split; assumption]. unfold Rfc8259.is_ws.
  repeat (apply orb_false_intro); apply N.eqb_neq; assumption.
Qed.

Lemma skip_ws_read_back v o level rest :
  Json_read.read_back parse_float v o -> Rfc8259.skip_ws (encode level v ++ rest) = encode level v ++ rest.
Proof.
  intros Hv. destruct (read_back_head v o level Hv) as (c & t & -> & Hc & _).
  apply Json_grammar.skip_ws_cons, Hc.
Qed.


Lemma elements_read L level rest xs os :
  Forall2 (Json_read.read_back parse_float) xs os ->
  forall x o f,
    Json_read.read_back parse_float x o ->
    (length (encode L x ++ concat (map (list_sep L) xs)
             ++ newline_indent level ++ [93])%N <= f)%nat ->
    Json_read.elements parse_float f
      (encode L x ++ concat (map (list_sep L) xs)
       ++ newline_indent level ++ 93%N :: rest)
    = Some (o :: os, rest).
Proof.
  induction 1 as [|y o' ys os' Hy Hys IH]; intros x o f Hx Hlen;
    pose proof Hx as Hx'; unfold Json_read.read_back in Hx;
    rewrite !length_app in Hlen; cbn [length map concat] in Hlen;
    (destruct f as [|f]; [lia|]); cbn [Json_read.elements map concat].
  - rewrite Hx by (reflexivity || lia). cbn [app].
    rewrite Json_grammar.skip_ws_indent, Json_grammar.skip_ws_cons by reflexivity.
    reflexivity.
  - unfold list_sep at 1. rewrite <- !app_comm_cons, <- !app_assoc.
    rewrite Hx by (reflexivity || (unfold list_sep at 1 in Hlen;
                                   rewrite !length_app in Hlen;
                                   cbn [length] in Hlen; lia)).
    rewrite Json_grammar.skip_ws_cons by reflexivity.
    change (44 =? 93)%N with false. change (44 =? 44)%N with true. cbv iota.
    rewrite Json_grammar.skip_ws_indent, (skip_ws_read_back y o') by assumption.
    rewrite (IH y o'); [reflexivity|assumption|].
    unfold list_sep at 1 in Hlen.
    repeat first [rewrite length_app | rewrite length_app in Hlen
                 | progress cbn [length] in Hlen |- *].
    lia.
Qed.

Lemma members_read L level rest xs pairs :
  Forall2 (fun (kv : pystr * json) (ko : pystr * Json_read.pyobj) =>
             Json_read.scalar kv.1 /\ ko.1 = kv.1
             /\ Json_read.read_back parse_float kv.2 ko.2) xs pairs ->
  forall k x o f,
    Json_read.scalar k ->
    Json_read.read_back parse_float x o ->
    (length (encode_str k ++ 58 :: 32 :: encode L x
             ++ concat (map (dict_sep L) xs)
             ++ newline_indent level ++ [125])%N <= f)%nat ->
    Json_read.members parse_float f
      (encode_str k ++ 58%N :: 32%N :: encode L x
       ++ concat (map (dict_sep L) xs)
       ++ newline_indent level ++ 125%N :: rest)
    = Some ((k, o) :: pairs, rest).
Proof.
  induction 1 as [|[k' y] [k'' o'] ys pairs' (Hk' & Hkk & Hy) Hys IH];
    intros k x o f Hk Hx Hlen;
    pose proof Hx as Hx'; unfold Json_read.read_back in Hx;
    rewrite !length_app in Hlen; cbn [length map concat] in Hlen;
    rewrite ?length_app in Hlen;
    (destruct f as [|f]; [lia|]);
    unfold encode_str at 1; cbn [app Json_read.members map concat];
    change (QUOTE =? 34)%N with true; cbv iota;
    rewrite <- app_assoc; cbn [app];
    rewrite (scanstring_escape k _ Hk);
    rewrite Json_grammar.skip_ws_cons by reflexivity;
    change (58 =? 58)%N with true; cbv iota;
    change (Rfc8259.skip_ws (32%N :: ?s)) with (Rfc8259.skip_ws s);
    rewrite (skip_ws_read_back x o) by assumption.
  - rewrite Hx by (reflexivity || lia). cbn [app].
    rewrite Json_grammar.skip_ws_indent, Json_grammar.skip_ws_cons by reflexivity.
    reflexivity.
  - cbn [fst snd] in *. subst k''. unfold dict_sep at 1. cbn [fst snd].
    rewrite <- !app_comm_cons, <- !app_assoc, <- !app_comm_cons.
    rewrite Hx by (reflexivity || lia).
    rewrite Json_grammar.skip_ws_cons by reflexivity.
    change (44 =? 125)%N with false. change (44 =? 44)%N with true. cbv iota.
    rewrite Json_grammar.skip_ws_indent, Json_grammar.skip_ws_encode_str.
    rewrite (IH k' y o'); [reflexivity|assumption..|].
    unfold dict_sep at 1 in Hlen. cbn [fst snd] in Hlen.
    repeat first [rewrite length_app | rewrite length_app in Hlen
                 | progress cbn [length] in Hlen |- *].
    lia.
Qed.

Lemma read_back_list xs os :
  Forall2 (Json_read.read_back parse_float) xs os ->
  Json_read.read_back parse_float (JList xs) (Json_read.PList os).
Proof.
  intros Hl level rest fuel Hr Hlen.
  destruct Hl as [|x o xs os Hx Hxs].
  - destruct fuel as [|f]; [cbn in Hlen; lia|]. reflexivity.
  - rewrite Json_grammar.encode_list in *. cbn [length] in Hlen.
    destruct fuel as [|f]; [lia|].
    repeat (rewrite <- app_assoc || rewrite <- app_comm_cons).
    cbn [Json_read.value].
    change (91 =? 34)%N with false. change (91 =? 123)%N with false.
    change (91 =? 91)%N with true. cbv iota.
    rewrite Json_grammar.skip_ws_indent, (skip_ws_read_back x o) by assumption.
    destruct (read_back_head x o (S level) Hx) as (c & t & Ec & _ & Hc & _).
    rewrite Ec at 1. cbn [app].
    destruct (N.eqb_spec c 93); [contradiction|].
    change (c :: t ++ ?r) with ((c :: t) ++ r). rewrite <- Ec.
    rewrite (elements_read _ _ _ _ _ Hxs x o); [reflexivity|assumption|].
    repeat first [rewrite length_app | rewrite length_app in Hlen
                 | progress cbn [length] in Hlen |- *].
    lia.
Qed.

Lemma read_back_dict items pairs :
  Forall2 (fun (kv : pystr * json) (ko : pystr * Json_read.pyobj) =>
             Json_read.scalar kv.1 /\ ko.1 = kv.1
             /\ Json_read.read_back parse_float kv.2 ko.2) items pairs ->
  Json_read.read_back parse_float (JDict items)
    (Json_read.PDict (Json_read.dict_of pairs)).
Proof.
  intros Hl level rest fuel Hr Hlen.
  destruct Hl as [|[k x] [k' o] xs pairs' (Hk & Hkk & Hx) Hxs].
  - destruct fuel as [|f]; [cbn in Hlen; lia|]. reflexivity.
  - cbn [fst snd] in *. subst k'.
    rewrite Json_grammar.encode_dict in *. cbn [length] in Hlen.
    destruct fuel as [|f]; [lia|].
    repeat (rewrite <- app_assoc || rewrite <- app_comm_cons).
    cbn [Json_read.value].
    change (123 =? 34)%N with false. change (123 =? 123)%N with true. cbv iota.
    rewrite Json_grammar.skip_ws_indent. unfold encode_str at 1. cbn [app].
    rewrite Json_grammar.skip_ws_cons by reflexivity.
    change (QUOTE =? 125)%N with false. cbv iota.
    change (QUOTE :: (concat (map escape_char k) ++ [QUOTE]) ++ ?r)
      with (encode_str k ++ r).
    rewrite (members_read _ _ _ _ _ Hxs k x o); [reflexivity|assumption..|].
    repeat first [rewrite length_app | rewrite length_app in Hlen
                 | progress cbn [length] in Hlen |- *].
    lia.
Qed.

(** What [json.loads] returns for the text of [json.dumps]. *)
Lemma loads_dumps v o :
  Json_read.read_back parse_float v o ->
  Json_read.loads parse_float (dumps v) = Some o.
Proof.
  intros Hv. unfold Json_read.loads, dumps.
  pose proof (skip_ws_read_back v o 0 [] Hv) as E. rewrite app_nil_r in E.
  pose proof (Hv 0%nat [] (S (length (encode 0 v))) eq_refl
                (le_S _ _ (le_n _))) as E'.
  rewrite app_nil_r in E'. rewrite E, E'. reflexivity.
Qed.

(** The object of a segment whose times are finite and whose text holds
    scalar values. *)
Lemma read_back_segment seg :
  Json_read.float_reads_back parse_float (start seg) ->
  Json_read.float_reads_back parse_float (end_ seg) ->
  Json_read.scalar (strip (text seg)) ->
  Json_read.read_back parse_float (json_segment seg)
    (Json_read.PDict [(lit "start", Json_read.PFloat (start seg));
                      (lit "end", Json_read.PFloat (end_ seg));
                      (lit "text", Json_read.PStr (strip (text seg)))]).
Proof.
  intros Hs He Ht.
  assert (Hkey : forall k : string, In k ["start"; "end"; "text"]%string ->
                                    Json_read.scalar (lit k)).
  { intros k Hk. cbn [In] in Hk.
    destruct Hk as [<-|[<-|[<-|[]]]]; unfold Json_read.scalar;
      match goal with
      | |- Forall _ ?l => let l' := eval vm_compute in l in change l with l'
      end;
      repeat (apply List.Forall_cons;
              [split; [reflexivity|intros [Hlo _]; apply Hlo; reflexivity]|]);
      apply List.Forall_nil. }
  apply (read_back_dict
           [(lit "start", JFloat (start seg)); (lit "end", JFloat (end_ seg));
            (lit "text", JStr (strip (text seg)))]
           [(lit "start", Json_read.PFloat (start seg));
            (lit "end", Json_read.PFloat (end_ seg));
            (lit "text", Json_read.PStr (strip (text seg)))]).
  constructor; [|constructor; [|constructor; [|constructor]]]; cbn [fst snd];
    (split; [apply Hkey; cbn [In]; tauto|]); (split; [reflexivity|]).
  - apply read_back_float, Hs.
  - apply read_back_float, He.
  - apply read_back_str, Ht.
Qed.

End Read_back.

(** C3. For segments as the transcription gives them, with finite times
    and a text of Unicode scalar values, [write_json] returns normally
    and the file holds a JSON text of RFC 8259 that [json.loads] reads
    back as a list with one object for each segment, in the order of the
    input, whose [start] and [end] are the floats of the segment
    themselves and whose [text] is the stripped text. Two laws of the
    interpreter are assumed: [repr] writes a finite float as a number of
    the JSON grammar, and [float(repr(x))] is [x] for the times of the
    segments. *)
Theorem write_json_array `{Builtins} (parse_float : pystr -> option float)
  (segments : list Segment) (out_path : pystr) (σ : fs) :
  (forall x, is_finite x = true -> Rfc8259.number (float_repr x) = Some []) ->
  Forall (fun seg => Json_read.float_reads_back parse_float (start seg)
                     /\ Json_read.float_reads_back parse_float (end_ seg)
                     /\ Json_read.scalar (strip (text seg))) segments ->
  snd (write_json segments out_path σ) = Ok tt
  /\ exists content,
       files (fst (write_json segments out_path σ)) !! out_path = Some content
       /\ content = dumps (JList (json_output segments))
       /\ Rfc8259.json_text content = true
       /\ Json_read.loads parse_float content
          = Some (Json_read.PList
                    (map (fun seg =>
                            Json_read.PDict
                              [(lit "start", Json_read.PFloat (start seg));
                               (lit "end", Json_read.PFloat (end_ seg));
                               (lit "text", Json_read.PStr (strip (text seg)))])
                       segments)).
Proof.
  intros Hrepr Hseg. split; [reflexivity|].
  exists (dumps (JList (json_output segments))).
  split; [rewrite write_json_file, decide_True by reflexivity; reflexivity|].
  split; [reflexivity|]. split.
  - rewrite (Json_grammar.json_text_dumps_rfc Hrepr), rfc_value_json_output.
    apply forallb_forall. intros seg Hin.
    rewrite List.Forall_forall in Hseg.
    destruct (Hseg seg Hin) as ((Hs & _) & (He & _) & _).
    unfold finite_times. rewrite Hs, He. reflexivity.
  - apply loads_dumps, read_back_list. rewrite json_output_map.
    induction Hseg as [|seg rest (Hs & He & Ht) _ IH]; cbn [map]; constructor;
      [|exact IH].
    apply read_back_segment; assumption.
Qed.

Lemma write_json_array_witness :
  snd (@write_json Ascii_builtins.ascii Demo.segments (lit "a.json") Demo.empty) = Ok tt
  /\ exists content,
       files (fst (@write_json Ascii_builtins.ascii Demo.segments (lit "a.json")
                     Demo.empty)) !! lit "a.json" = Some content
       /\ content = @dumps Ascii_builtins.ascii (JList (json_output Demo.segments))
       /\ Rfc8259.json_text content = true
       /\ @Json_read.loads Ascii_builtins.ascii Ascii_builtins.ascii_float content
          = Some (Json_read.PList
                    [Json_read.PDict
                       [(lit "start", Json_read.PFloat (of_Z 0));
                        (lit "end", Json_read.PFloat (dyadic 5 (-1)));
                        (lit "text", Json_read.PStr (lit "Hello"))];
                     Json_read.PDict
                       [(lit "start", Json_read.PFloat (dyadic 5 (-1)));
                        (lit "end", Json_read.PFloat (of_Z 4));
                        (lit "text", Json_read.PStr (lit "world"))]]).
Proof.
  apply (@write_json_array Ascii_builtins.ascii Ascii_builtins.ascii_float
           Demo.segments (lit "a.json") Demo.empty Json_grammar.dyadic_repr_number).
  assert (Hscalar : forall s : pystr,
            forallb (fun c => (c <? 55296)%N) s = true -> Json_read.scalar s).
  { intros s Hs. apply List.Forall_forall. intros c Hc.
    rewrite forallb_forall in Hs. specialize (Hs c Hc). apply N.ltb_lt in Hs.
    unfold codepoint in *. lia. }
  repeat (apply List.Forall_cons || apply List.Forall_nil);
    (split; [|split]);
    first [ apply Hscalar; vm_compute; reflexivity
          | split; [reflexivity|]; split; [vm_compute; reflexivity|];
            split; vm_compute; reflexivity ].
Defined.

(** The text of that file, as [json.dump] lays it out. *)
Example write_json_text :
  @dumps Ascii_builtins.ascii (JList (json_output Demo.segments))
  = lit "[" ++ [LF]
    ++ lit "  {" ++ [LF]
    ++ lit "    " ++ [QUOTE] ++ lit "start" ++ [QUOTE] ++ lit ": 0.0," ++ [LF]
    ++ lit "    " ++ [QUOTE] ++ lit "end" ++ [QUOTE] ++ lit ": 2.5," ++ [LF]
    ++ lit "    " ++ [QUOTE] ++ lit "text" ++ [QUOTE] ++ lit ": "
    ++ [QUOTE] ++ lit "Hello" ++ [QUOTE] ++ [LF]
    ++ lit "  }," ++ [LF]
    ++ lit "  {" ++ [LF]
    ++ lit "    " ++ [QUOTE] ++ lit "start" ++ [QUOTE] ++ lit ": 2.5," ++ [LF]
    ++ lit "    " ++ [QUOTE] ++ lit "end" ++ [QUOTE] ++ lit ": 4.0," ++ [LF]
    ++ lit "    " ++ [QUOTE] ++ lit "text" ++ [QUOTE] ++ lit ": "
    ++ [QUOTE] ++ lit "world" ++ [QUOTE] ++ [LF]
    ++ lit "  }" ++ [LF]
    ++ lit "]".
Proof. vm_compute. reflexivity. Qed.

(** A time that is not a number is outside what the transcription gives;
    for such a segment [json.dump] writes the name [NaN], which no JSON
    number is, and the text of the file is not a JSON text. *)
Lemma write_json_nan :
  rfc_value (JList (json_output
     [ {| start := S754_nan; end_ := S754_infinity false; text := lit "x" |} ])) = false
  /\ files (fst (@write_json Ascii_builtins.ascii
                   [ {| start := S754_nan; end_ := S754_infinity false; text := lit "x" |} ]
                   (lit "a.json") {| files := ∅; dirs := ∅ |})) !! lit "a.json"
     = Some (lit "[" ++ [LF]
             ++ lit "  {" ++ [LF]
             ++ lit "    " ++ [QUOTE] ++ lit "start" ++ [QUOTE] ++ lit ": NaN," ++ [LF]
             ++ lit "    " ++ [QUOTE] ++ lit "end" ++ [QUOTE] ++ lit ": Infinity," ++ [LF]
             ++ lit "    " ++ [QUOTE] ++ lit "text" ++ [QUOTE] ++ lit ": "
             ++ [QUOTE] ++ lit "x" ++ [QUOTE] ++ [LF]
             ++ lit "  }" ++ [LF]
             ++ lit "]")
  /\ Rfc8259.json_text (@dumps Ascii_builtins.ascii (JList (json_output
       [ {| start := S754_nan; end_ := S754_infinity false; text := lit "x" |} ])))
     = false.
Proof.
  split; [reflexivity|]. split; [|vm_compute; reflexivity].
  rewrite write_json_file, decide_True by reflexivity. vm_compute. reflexivity.
Qed.

(** What [strip] returns: the text between the white space at its two
    ends, itself without white space at either end. *)
Lemma strip_spec (t : pystr) :
  exists a b,
    t = a ++ strip t ++ b
    /\ forallb isspace a = true /\ forallb isspace b = true
    /\ (forall c, head (strip t) = Some c \/ last (strip t) = Some c ->
          isspace c = false).
Proof.
  unfold strip. destruct (strip_by_split isspace t) as (a & b & E & Ha & Hb).
  exists a, b. split; [exact E|]. split; [exact Ha|]. split; [exact Hb|].
  intros c Hc.
  destruct (strip_by_ends isspace t) as [E0|[(c0 & E1 & H1)|(c0 & m & d & E2 & H2 & H3)]].
  - rewrite E0 in Hc. destruct Hc as [Hc|Hc]; discriminate Hc.
  - rewrite E1 in Hc. destruct Hc as [[= <-]|[= <-]]; exact H1.
  - rewrite E2 in Hc. destruct Hc as [[= <-]|Hc]; [exact H2|].
    rewrite app_comm_cons, last_snoc in Hc. injection Hc as <-. exact H3.
Qed.

(** C9. In each format the text of a segment is written stripped: the
    [i]-th write of [write_txt] is the stripped text and a line feed, the
    [i]-th object of the JSON array has the stripped text as its [text],
    and the third write of the [i]-th cue of [write_srt] is the stripped
    text and two line feeds. The stripped text is the raw text without
    the run of white space at its start and the run at its end: it
    neither starts nor ends with a white-space character. *)
Theorem writers_strip_text `{Builtins} (segments : list Segment) :
  txt_writes segments = map (fun seg => strip (text seg) ++ [LF]) segments
  /\ json_output segments
     = map (fun seg => JDict [(lit "start", JFloat (start seg));
                              (lit "end", JFloat (end_ seg));
                              (lit "text", JStr (strip (text seg)))]) segments
  /\ (forall k chunk,
        fst (srt_writes 1 segments) !! (3 * k + 2)%nat = Some chunk ->
        exists seg, segments !! k = Some seg
                    /\ chunk = strip (text seg) ++ [LF; LF])
  /\ (snd (srt_writes 1 segments) = Ok tt ->
      forall k seg, segments !! k = Some seg ->
        fst (srt_writes 1 segments) !! (3 * k + 2)%nat
        = Some (strip (text seg) ++ [LF; LF]))
  /\ (forall out_path σ,
        files (fst (write_txt segments out_path σ)) !! out_path
        = Some (concat (txt_writes segments))
        /\ files (fst (write_json segments out_path σ)) !! out_path
           = Some (dumps (JList (json_output segments)))
        /\ files (fst (write_srt segments out_path σ)) !! out_path
           = Some (concat (fst (srt_writes 1 segments))))
  /\ (forall seg, exists a b,
        text seg = a ++ strip (text seg) ++ b
        /\ forallb isspace a = true /\ forallb isspace b = true
        /\ (forall c, head (strip (text seg)) = Some c
                      \/ last (strip (text seg)) = Some c ->
              isspace c = false)).
Proof.
  split; [apply txt_writes_map|]. split; [apply json_output_map|].
  assert (G : forall segs i k chunk,
            fst (srt_writes i segs) !! (3 * k + 2)%nat = Some chunk ->
            exists seg, segs !! k = Some seg /\ chunk = strip (text seg) ++ [LF; LF]).
  { induction segs as [|seg rest IH]; intros i k chunk; cbn [srt_writes].
    - intros Hk. discriminate Hk.
    - destruct (format_srt_timestamp (start seg)) as [a|e].
      2:{ cbn [fst]. replace (3 * k + 2)%nat with (S (S (3 * k))) by lia.
          intros Hk. discriminate Hk. }
      destruct (format_srt_timestamp (end_ seg)) as [b|e].
      2:{ cbn [fst]. replace (3 * k + 2)%nat with (S (S (3 * k))) by lia.
          intros Hk. discriminate Hk. }
      specialize (IH (i + 1)).
      destruct (srt_writes (i + 1) rest) as [ws r]. cbn [fst] in *.
      destruct k as [|k].
      + intros Hk. injection Hk as <-. exists seg. split; reflexivity.
      + replace (3 * S k + 2)%nat with (S (S (S (3 * k + 2)))) by lia.
        intros Hk. change (ws !! (3 * k + 2)%nat = Some chunk) in Hk.
        destruct (IH k chunk Hk) as (seg' & Hs & Hc). exists seg'. split; assumption. }
  split; [apply G|]. split.
  - intros Hr k seg Hk.
    pose proof (srt_writes_length segments 1 Hr) as Hl.
    destruct (fst (srt_writes 1 segments) !! (3 * k + 2)%nat) as [chunk|] eqn:E.
    + destruct (G _ _ _ _ E) as (seg' & Hs & ->). congruence.
    + exfalso. apply lookup_ge_None in E. apply lookup_lt_Some in Hk.
      unfold pystr in *. lia.
  - split; [|intros seg; apply strip_spec].
    intros out_path σ.
    rewrite write_txt_file, write_json_file, write_srt_file.
    rewrite !decide_True by reflexivity. auto.
Qed.

(** A text with white space at both ends, and one without. *)
Lemma writers_strip_text_witness :
  txt_writes Demo.segments = [lit "Hello" ++ [LF]; lit "world" ++ [LF]]
  /\ @json_output Demo.segments
     = [JDict [(lit "start", JFloat (of_Z 0)); (lit "end", JFloat (dyadic 5 (-1)));
               (lit "text", JStr (lit "Hello"))];
        JDict [(lit "start", JFloat (dyadic 5 (-1))); (lit "end", JFloat (of_Z 4));
               (lit "text", JStr (lit "world"))]]
  /\ fst (srt_writes 1 Demo.segments) !! 2%nat = Some (lit "Hello" ++ [LF; LF])
  /\ text (hd {| start := of_Z 0; end_ := of_Z 0; text := [] |} Demo.segments)
     = lit " Hello ".
Proof.
  destruct (@writers_strip_text Ascii_builtins.ascii Demo.segments)
    as (Htxt & Hjson & _ & Hsrt & _).
  split; [rewrite Htxt; reflexivity|]. split; [rewrite Hjson; reflexivity|].
  split; [|reflexivity].
  exact (Hsrt eq_refl 0%nat _ eq_refl).
Defined.

(** ** Paths *)

Lemma rfind_from_spec c s : forall i found,
  (c ∉ s -> rfind_from c s i found = found)
  /\ (c ∈ s -> exists pre post,
        s = pre ++ c :: post /\ (c ∉ post)
        /\ rfind_from c s i found = i + Z.of_nat (length pre)).
Proof.
  induction s as [|x r IH]; intros i found; cbn [rfind_from].
  - split; [reflexivity|]. intros Hin. inversion Hin.
  - destruct (IH (i + 1) (if (x =? c)%N then i else found)) as [IHout IHin].
    destruct (decide (c ∈ r)) as [Hr|Hr].
    + split; [intros Hn; exfalso; apply Hn; right; exact Hr|].
      intros _. destruct (IHin Hr) as (pre & post & -> & Hpost & ->).
      exists (x :: pre), post. repeat split; [exact Hpost|]. cbn [length]. lia.
    + rewrite (IHout Hr). destruct (N.eqb_spec x c) as [->|Hne].
      * split; [intros Hn; exfalso; apply Hn; left|].
        intros _. exists [], r. repeat split; [exact Hr|]. cbn [length]. lia.
      * split; [reflexivity|]. intros Hin. exfalso.
        apply elem_of_cons in Hin as [->|Hin]; [apply Hne; reflexivity | exact (Hr Hin)].
Qed.

Lemma rfind_absent c s : c ∉ s -> rfind c s = -1.
Proof. intros H. apply (rfind_from_spec c s 0 (-1)), H. Qed.

Lemma rfind_split c pre post : c ∉ post -> rfind c (pre ++ c :: post) = Z.of_nat (length pre).
Proof.
  intros Hpost.
  destruct (rfind_from_spec c (pre ++ c :: post) 0 (-1)) as [_ Hin].
  destruct Hin as (pre' & post' & Heq & Hpost' & Hr).
  { apply elem_of_app. right. left. }
  unfold rfind. rewrite Hr. f_equal.
  assert (pre = pre'); [|subst; reflexivity].
  clear Hr. revert pre' Heq. induction pre as [|a pre IH]; intros [|b pre'] Heq; cbn in Heq.
  - reflexivity.
  - injection Heq as <- ->. exfalso. apply Hpost, elem_of_app. right. left.
  - injection Heq as -> <-. exfalso. apply Hpost', elem_of_app. right. left.
  - injection Heq as <- Heq. f_equal. apply IH, Heq.
Qed.

(** The base name is what follows the last slash. *)
Lemma basename_split pre post :
  SLASH ∉ post -> basename (pre ++ SLASH :: post) = post.
Proof.
  intros Hpost. unfold basename, slice_from. rewrite (rfind_split _ _ _ Hpost).
  replace (Z.to_nat (Z.of_nat (length pre) + 1)) with (length pre + 1)%nat by lia.
  rewrite drop_app_add. reflexivity.
Qed.

Lemma basename_plain p : SLASH ∉ p -> basename p = p.
Proof. intros H. unfold basename. rewrite (rfind_absent _ _ H). reflexivity. Qed.

Lemma basename_no_slash p : SLASH ∉ basename p.
Proof.
  destruct (decide (SLASH ∈ p)) as [Hin|Hout].
  - destruct (rfind_from_spec SLASH p 0 (-1)) as [_ H].
    destruct (H Hin) as (pre & post & -> & Hpost & _).
    rewrite (basename_split _ _ Hpost). exact Hpost.
  - rewrite (basename_plain _ Hout). exact Hout.
Qed.

(** [splitext] cuts its argument in two. *)
Lemma splitext_app p : fst (splitext p) ++ snd (splitext p) = p.
Proof.
  unfold splitext. destruct (_ && _); cbn [fst snd].
  - apply take_drop.
  - apply app_nil_r.
Qed.

Lemma splitext_no_slash p : SLASH ∉ p -> SLASH ∉ fst (splitext p).
Proof.
  intros Hp Hin. apply Hp. rewrite <- (splitext_app p). apply elem_of_app. left. exact Hin.
Qed.

Lemma endswith_sep_split a : endswith_sep a = true -> exists a', a = a' ++ [SLASH].
Proof.
  unfold endswith_sep. destruct (rev a) as [|c r] eqn:E; [discriminate|].
  intros Hc. apply N.eqb_eq in Hc. subst c. exists (rev r).
  rewrite <- (rev_involutive a), E. reflexivity.
Qed.

(** Joining a directory and a slash-free name: the name is the last
    component of the result, after the directory. *)
Lemma join_name d name :
  SLASH ∉ name ->
  basename (join d name) = name
  /\ exists sep, join d name = d ++ sep ++ name
       /\ (sep = [] /\ (d = [] \/ endswith_sep d = true)
           \/ sep = [SLASH] /\ d <> [] /\ endswith_sep d = false).
Proof.
  intros Hname. unfold join.
  assert (Hs : startswith_sep name = false).
  { destruct name as [|c name]; [reflexivity|]. cbn.
    apply N.eqb_neq. intros ->. apply Hname. left. }
  rewrite Hs. destruct d as [|c d].
  - split; [apply basename_plain, Hname|].
    exists []. split; [reflexivity|]. left. auto.
  - destruct (endswith_sep (c :: d)) eqn:E.
    + destruct (endswith_sep_split _ E) as (d' & ->).
      split.
      * rewrite <- app_assoc. apply basename_split, Hname.
      * exists []. split; [reflexivity|]. left. auto.
    + split.
      * apply basename_split, Hname.
      * exists [SLASH]. split; [reflexivity|]. right. repeat split. discriminate.
Qed.

(** Two targets of one run differ when their extensions differ. *)
Lemma target_inj d b e1 e2 :
  startswith_sep e1 = false -> startswith_sep e2 = false ->
  target d b e1 = target d b e2 -> e1 = e2.
Proof.
  intros H1 H2. unfold target, join.
  assert (Hs : startswith_sep (b ++ e1) = startswith_sep (b ++ e2)).
  { destruct b; cbn; [rewrite H1, H2|]; reflexivity. }
  rewrite Hs. destruct (startswith_sep (b ++ e2)).
  - intros H. exact (app_inv_head _ _ _ H).
  - destruct (match d with [] => true | _ => endswith_sep d end); intros H.
    + apply app_inv_head in H. exact (app_inv_head _ _ _ H).
    + apply app_inv_head in H. injection H as H. exact (app_inv_head _ _ _ H).
Qed.

(** ** Paths: heads, components, normal forms *)

Lemma split_cons_inv sep s : exists w ws, split sep s = w :: ws.
Proof.
  destruct s as [|c r]; cbn [split]; [eauto|].
  destruct (c =? sep)%N; [eauto|]. destruct (split sep r); eauto.
Qed.

Lemma split_app_sep sep a b :
  split sep (a ++ sep :: b) = split sep a ++ split sep b.
Proof.
  induction a as [|c a IH]; cbn [app split].
  - rewrite N.eqb_refl. reflexivity.
  - destruct (c =? sep)%N; [rewrite IH; reflexivity|].
    rewrite IH. destruct (split_cons_inv sep a) as (w & ws & ->). reflexivity.
Qed.

Lemma split_plain sep t : sep ∉ t -> split sep t = [t].
Proof.
  induction t as [|c t IH]; intros Hn; cbn [split]; [reflexivity|].
  apply not_elem_of_cons in Hn as [Hc Ht].
  destruct (N.eqb_spec c sep) as [->|_]; [contradiction|].
  rewrite (IH Ht). reflexivity.
Qed.

Lemma components_nil : components [] = [].
Proof. reflexivity. Qed.

Lemma components_app_sep a b :
  components (a ++ SLASH :: b) = components a ++ components b.
Proof. unfold components. rewrite split_app_sep. apply List.filter_app. Qed.

Lemma components_slashes s t :
  forallb (N.eqb SLASH) s = true -> components (s ++ t) = components t.
Proof.
  induction s as [|c s IH]; cbn [forallb app]; [reflexivity|].
  intros H. apply andb_prop in H as [Hc Hs]. apply N.eqb_eq in Hc. subst c.
  etransitivity; [exact (components_app_sep [] (s ++ t))|]. exact (IH Hs).
Qed.

Lemma components_trailing h s :
  forallb (N.eqb SLASH) s = true -> components (h ++ s) = components h.
Proof.
  destruct s as [|c s]; cbn [forallb]; [rewrite app_nil_r; reflexivity|].
  intros H. apply andb_prop in H as [Hc Hs]. apply N.eqb_eq in Hc. subst c.
  rewrite components_app_sep.
  pose proof (components_slashes s [] Hs) as E. rewrite app_nil_r in E.
  rewrite E. apply app_nil_r.
Qed.

Lemma components_mid h s t :
  forallb (N.eqb SLASH) s = true -> s <> [] ->
  components (h ++ s ++ t) = components h ++ components t.
Proof.
  destruct s as [|c s]; [congruence|]. cbn [forallb].
  intros H _. apply andb_prop in H as [Hc Hs]. apply N.eqb_eq in Hc. subst c.
  cbn [app]. rewrite components_app_sep, (components_slashes s t Hs). reflexivity.
Qed.

(** A name without a slash is one component, unless it is empty or [.]. *)
Lemma components_plain t :
  SLASH ∉ t ->
  components t = match t with
                 | [] => []
                 | _ => if str_eqb t (lit ".") then [] else [t]
                 end.
Proof.
  intros Ht. unfold components. rewrite (split_plain _ _ Ht).
  destruct t as [|c t]; [reflexivity|]. cbn [List.filter].
  destruct (str_eqb (c :: t) (lit ".")); reflexivity.
Qed.

(** [os.path.split] cuts a path at its last slash. *)
Lemma path_split_inv p h t :
  path_split p = (h, t) ->
  (SLASH ∉ t)
  /\ exists s, p = h ++ s ++ t /\ forallb (N.eqb SLASH) s = true
               /\ (s = [] -> forallb (N.eqb SLASH) h = true).
Proof.
  unfold path_split. intros E.
  destruct (decide (SLASH ∈ p)) as [Hin|Hout].
  - destruct (rfind_from_spec SLASH p 0 (-1)) as [_ Hs].
    destruct (Hs Hin) as (pre & post & -> & Hpost & Hr). clear Hs.
    unfold rfind in E. rewrite Hr in E. unfold slice_to, slice_from in E.
    replace (Z.to_nat (0 + Z.of_nat (length pre) + 1)) with (length pre + 1)%nat in E by lia.
    replace (pre ++ SLASH :: post) with ((pre ++ [SLASH]) ++ post) in *
      by (rewrite <- app_assoc; reflexivity).
    assert (Hl : length (pre ++ [SLASH]) = (length pre + 1)%nat)
      by (rewrite length_app; reflexivity).
    rewrite <- Hl in E. rewrite take_app_length, drop_app_length in E.
    destruct (pre ++ [SLASH]) as [|c0 q] eqn:Eq; [destruct pre; discriminate Eq|].
    rewrite <- Eq in *. clear Eq c0 q Hl.
    destruct (forallb (N.eqb SLASH) (pre ++ [SLASH])) eqn:Hall; cbn [negb] in E.
    + injection E as <- <-. split; [exact Hpost|]. exists []. auto.
    + injection E as <- <-. split; [exact Hpost|].
      destruct (rstrip_by_split (N.eqb SLASH) (pre ++ [SLASH])) as (b & Eb & Hb).
      exists b. split; [rewrite app_assoc, <- Eb; reflexivity|]. split; [exact Hb|].
      intros ->. rewrite app_nil_r in Eb. symmetry in Eb.
      apply rstrip_by_last in Eb. rewrite N.eqb_refl in Eb. discriminate Eb.
  - rewrite (rfind_absent _ _ Hout) in E. cbn in E. injection E as <- <-.
    split; [exact Hout|]. exists []. auto.
Qed.

Lemma path_split_nil : path_split [] = ([], []).
Proof. reflexivity. Qed.

(** The head and the last component of a name, trailing slashes apart. *)
Lemma head_tail_inv name head tail :
  head_tail name = (head, tail) ->
  (SLASH ∉ tail)
  /\ exists s1 s2, name = head ++ s1 ++ tail ++ s2
       /\ forallb (N.eqb SLASH) s1 = true /\ forallb (N.eqb SLASH) s2 = true
       /\ (s1 = [] -> forallb (N.eqb SLASH) head = true).
Proof.
  unfold head_tail. destruct (path_split name) as [h0 t0] eqn:E0.
  destruct (path_split_inv _ _ _ E0) as (Ht0 & s & Ename & Hs & Hs0).
  destruct t0 as [|c t0].
  - intros E1. destruct (path_split_inv _ _ _ E1) as (Ht & s1 & Eh0 & Hs1 & Hs10).
    split; [exact Ht|]. exists s1, s. rewrite Ename, Eh0, app_nil_r.
    rewrite <- !app_assoc. auto.
  - intros [= <- <-]. split; [exact Ht0|]. exists s, [].
    rewrite app_nil_r. auto.
Qed.

Lemma components_head_tail name head tail :
  head_tail name = (head, tail) ->
  components name = components head ++ components tail.
Proof.
  intros E. destruct (head_tail_inv _ _ _ E) as (_ & s1 & s2 & -> & H1 & H2 & H10).
  replace (head ++ s1 ++ tail ++ s2) with ((head ++ s1 ++ tail) ++ s2)
    by (rewrite <- !app_assoc; reflexivity).
  rewrite (components_trailing _ _ H2).
  destruct s1 as [|c s1].
  - cbn [app]. specialize (H10 eq_refl).
    rewrite (components_slashes _ _ H10).
    pose proof (components_slashes head [] H10) as E'. rewrite app_nil_r in E'.
    rewrite E'. reflexivity.
  - apply components_mid; [exact H1|discriminate].
Qed.

Lemma head_tail_prefix name head tail :
  head_tail name = (head, tail) -> head `prefix_of` name.
Proof.
  intros E. destruct (head_tail_inv _ _ _ E) as (_ & s1 & s2 & -> & _).
  eexists. reflexivity.
Qed.

Lemma head_tail_length name head tail :
  head_tail name = (head, tail) ->
  (length head + length tail <= length name)%nat.
Proof.
  intros E. destruct (head_tail_inv _ _ _ E) as (_ & s1 & s2 & -> & _).
  rewrite !length_app. lia.
Qed.

Lemma startswith_sep_prefix h p :
  h <> [] -> h `prefix_of` p -> startswith_sep p = startswith_sep h.
Proof. intros Hh [k ->]. destruct h; [congruence|reflexivity]. Qed.

Lemma join_components_snoc l t :
  length (join_components (l ++ [t]))
  = (length (join_components l) + (match l with [] => 0 | _ => 1 end) + length t)%nat.
Proof.
  induction l as [|c l IH]; [reflexivity|].
  destruct l as [|d l].
  - cbn [app join_components length]. rewrite length_app. cbn [length]. lia.
  - change (join_components ((c :: d :: l) ++ [t]))
      with (c ++ SLASH :: join_components ((d :: l) ++ [t])).
    change (join_components (c :: d :: l))
      with (c ++ SLASH :: join_components (d :: l)).
    rewrite !length_app. cbn [length]. rewrite IH. lia.
Qed.

(** The last component of a name is [.] or nothing: the name is another
    spelling of its head. *)
Lemma norm_head_same name head tail :
  head_tail name = (head, tail) -> head <> [] -> components tail = [] ->
  components name = components head /\ norm name = norm head.
Proof.
  intros E Hh Ht. pose proof (components_head_tail _ _ _ E) as Hc.
  rewrite Ht, app_nil_r in Hc. split; [exact Hc|]. unfold norm.
  rewrite Hc, (startswith_sep_prefix head name Hh (head_tail_prefix _ _ _ E)).
  reflexivity.
Qed.

(** The last component names something: the normal form is longer than
    that of the head. *)
Lemma norm_head_lt name head tail :
  head_tail name = (head, tail) -> head <> [] -> components tail <> [] ->
  (length (norm head) < length (norm name))%nat.
Proof.
  intros E Hh Ht. pose proof (components_head_tail _ _ _ E) as Hc.
  destruct (head_tail_inv _ _ _ E) as (Hs & _).
  rewrite (components_plain _ Hs) in Ht, Hc.
  destruct tail as [|c tail]; [congruence|].
  destruct (str_eqb (c :: tail) (lit ".")); [congruence|].
  unfold norm. rewrite Hc, (startswith_sep_prefix head name Hh (head_tail_prefix _ _ _ E)).
  rewrite !length_app, join_components_snoc. cbn [length].
  destruct (components head); lia.
Qed.

Lemma norm_head_le name head tail :
  head_tail name = (head, tail) -> head <> [] ->
  (length (norm head) <= length (norm name))%nat.
Proof.
  intros E Hh. destruct (components tail) as [|c l] eqn:Ht.
  - destruct (norm_head_same _ _ _ E Hh Ht) as [_ ->]. lia.
  - pose proof (norm_head_lt _ _ _ E Hh ltac:(rewrite Ht; discriminate)). lia.
Qed.

(** ** Directories: [os.mkdir] and [os.makedirs] *)

Lemma isdir_mono p σ σ' :
  dirs σ ⊆ dirs σ' -> isdir p σ = true -> isdir p σ' = true.
Proof.
  unfold isdir. destruct p as [|c p]; [auto|].
  destruct (components (c :: p)); [auto|]. intros Hs H.
  apply bool_decide_eq_true in H. apply bool_decide_eq_true. set_solver.
Qed.

(** Whether a path is a directory depends on one name of [dirs]. *)
Lemma isdir_agree p σ σ' :
  (norm p ∈ dirs σ <-> norm p ∈ dirs σ') -> isdir p σ = isdir p σ'.
Proof.
  unfold isdir. destruct p as [|c p]; [auto|].
  destruct (components (c :: p)); [auto|]. intros Hs. apply bool_decide_ext, Hs.
Qed.

Lemma isfile_agree p σ σ' :
  files σ !! p = files σ' !! p -> isfile p σ = isfile p σ'.
Proof. unfold isfile. intros ->. reflexivity. Qed.

Lemma isdir_added p σ :
  p <> [] ->
  isdir p {| files := files σ; dirs := {[ norm p ]} ∪ dirs σ |} = true.
Proof.
  unfold isdir. destruct p as [|c p]; [congruence|]. intros _.
  destruct (components (c :: p)); [reflexivity|].
  apply bool_decide_eq_true. cbn [dirs]. set_solver.
Qed.

(** A name whose last component is [.] or nothing is a directory when
    its head is. *)
Lemma isdir_head_same name head tail σ :
  head_tail name = (head, tail) -> head <> [] -> components tail = [] ->
  isdir name σ = isdir head σ.
Proof.
  intros E Hh Ht. destruct (norm_head_same _ _ _ E Hh Ht) as [Hc Hn].
  destruct (head_tail_prefix _ _ _ E) as [k ->].
  unfold isdir. rewrite Hc, Hn.
  destruct head as [|c head]; [congruence|]. reflexivity.
Qed.

(** What [os.mkdir] does: an error and nothing else, or one more
    directory. *)
Lemma mkdir_inv p σ σ' r :
  mkdir p σ = (σ', r) ->
  (σ' = σ /\ exists e, r = Raise e
     /\ e ∈ [FileNotFoundError; FileExistsError; NotADirectoryError]
     /\ (e = FileExistsError -> exists_ p σ = true)
     /\ (e = FileExistsError \/ p = []
         \/ forallb (N.eqb SLASH) (fst (head_tail p)) || isdir (fst (head_tail p)) σ = false))
  \/ (r = Ok tt /\ σ' = {| files := files σ; dirs := {[ norm p ]} ∪ dirs σ |}
      /\ p <> [] /\ exists_ p σ = false
      /\ forallb (N.eqb SLASH) (fst (head_tail p)) || isdir (fst (head_tail p)) σ = true).
Proof.
  unfold mkdir. destruct p as [|c p].
  { intros [= <- <-]. left. split; [reflexivity|]. eexists. split; [reflexivity|].
    split; [set_solver|]. split; [discriminate|]. auto. }
  destruct (exists_ (c :: p) σ) eqn:Ex.
  { intros [= <- <-]. left. split; [reflexivity|]. eexists. split; [reflexivity|].
    split; [set_solver|]. auto. }
  destruct (forallb (N.eqb SLASH) (fst (head_tail (c :: p)))
            || isdir (fst (head_tail (c :: p))) σ) eqn:Ep.
  { intros [= <- <-]. right. split; [reflexivity|]. split; [reflexivity|].
    split; [discriminate|]. split; first [reflexivity|assumption]. }
  destruct (isfile (fst (head_tail (c :: p))) σ);
    intros [= <- <-]; left; (split; [reflexivity|]); eexists;
    (split; [reflexivity|]); (split; [set_solver|]); (split; [discriminate|]); auto.
Qed.

Lemma mkdir_exist_ok_inv name σ σ' r :
  mkdir_exist_ok name σ = (σ', r) ->
  (σ' = σ /\ r = Ok tt /\ isdir name σ = true)
  \/ (σ' = σ /\ isdir name σ = false /\ exists e, r = Raise e
        /\ e ∈ [FileNotFoundError; FileExistsError; NotADirectoryError]
        /\ (e = FileExistsError -> isfile name σ = true)
        /\ mkdir name σ = (σ, Raise e))
  \/ (r = Ok tt /\ σ' = {| files := files σ; dirs := {[ norm name ]} ∪ dirs σ |}
      /\ name <> [] /\ exists_ name σ = false
      /\ mkdir name σ = (σ', Ok tt)).
Proof.
  unfold mkdir_exist_ok. destruct (mkdir name σ) as [σ2 r2] eqn:E.
  destruct (mkdir_inv _ _ _ _ E) as [(-> & e & -> & He & Hex & _)|(-> & -> & Hn & Hex & _)].
  - destruct (isdir name σ) eqn:Ed; intros [= <- <-]; [left; auto|].
    right; left. split; [reflexivity|]. split; [reflexivity|]. exists e.
    split; [reflexivity|]. split; [exact He|]. split; [|reflexivity].
    intros ->. specialize (Hex eq_refl). unfold exists_ in Hex.
    rewrite Ed, orb_false_r in Hex. exact Hex.
  - intros [= <- <-]. right; right. auto.
Qed.

Lemma except_exists_inv st σ' r :
  except_exists st = (σ', r) ->
  fst st = σ'
  /\ (snd st = r /\ r <> Raise FileExistsError
      \/ snd st = Raise FileExistsError /\ r = Ok tt).
Proof.
  destruct st as [σ0 [[]|e]]; cbn [except_exists fst snd].
  - intros [= <- <-]. split; [reflexivity|]. left. split; [reflexivity|discriminate].
  - destruct e; intros [= <- <-]; (split; [reflexivity|]);
      first [right; split; reflexivity | left; split; [reflexivity|discriminate]].
Qed.

Lemma missing_parent_true name σ :
  missing_parent name σ = true ->
  fst (head_tail name) <> [] /\ snd (head_tail name) <> []
  /\ exists_ (fst (head_tail name)) σ = false.
Proof.
  unfold missing_parent. destruct (head_tail name) as [[|c h] [|d t]];
    try discriminate. cbn [fst snd]. intros H. apply negb_true_iff in H.
  repeat split; [discriminate|discriminate|exact H].
Qed.

Lemma components_tail_dot tail :
  (SLASH ∉ tail) -> tail <> [] ->
  (str_eqb tail (lit ".") = true -> components tail = [])
  /\ (str_eqb tail (lit ".") = false -> components tail <> []).
Proof.
  intros Hs Ht. rewrite (components_plain _ Hs).
  destruct tail as [|c tail]; [congruence|].
  destruct (str_eqb (c :: tail) (lit ".")); split; intros; congruence.
Qed.

(** What a call of [os.makedirs] leaves: the files as they were, the
    directories that were there, and new ones only for the name and the
    heads before it; the name is a directory after a normal return. *)
Lemma makedirs_from_spec fuel : forall name σ σ1 r,
  makedirs_from fuel name σ = (σ1, r) ->
  files σ1 = files σ
  /\ dirs σ ⊆ dirs σ1
  /\ (forall q, q ∈ dirs σ1 -> q ∉ dirs σ ->
        (exists h, q = norm h /\ h <> [] /\ h `prefix_of` name)
        /\ (length q <= length (norm name))%nat
        /\ (r <> Ok tt -> (length q < length (norm name))%nat))
  /\ (r = Ok tt -> isdir name σ1 = true)
  /\ (r = Raise FileExistsError -> isfile name σ = true)
  /\ (r = Raise RecursionError -> (fuel <= length name)%nat).
Proof.
  induction fuel as [|f IH]; intros name σ σ1 r; cbn [makedirs_from].
  { intros [= <- <-]. repeat split; try discriminate; try set_solver. lia. }
  destruct (head_tail name) as [head tail] eqn:Eht.
  (* the last step, from a state [σ'] reached from [σ] *)
  assert (Hlast : forall σ',
            files σ' = files σ -> dirs σ ⊆ dirs σ' ->
            (forall q, q ∈ dirs σ' -> q ∉ dirs σ ->
               (exists h, q = norm h /\ h <> [] /\ h `prefix_of` name)
               /\ (length q < length (norm name))%nat) ->
            mkdir_exist_ok name σ' = (σ1, r) ->
            files σ1 = files σ
            /\ dirs σ ⊆ dirs σ1
            /\ (forall q, q ∈ dirs σ1 -> q ∉ dirs σ ->
                  (exists h, q = norm h /\ h <> [] /\ h `prefix_of` name)
                  /\ (length q <= length (norm name))%nat
                  /\ (r <> Ok tt -> (length q < length (norm name))%nat))
            /\ (r = Ok tt -> isdir name σ1 = true)
            /\ (r = Raise FileExistsError -> isfile name σ = true)
            /\ (r = Raise RecursionError -> (S f <= length name)%nat)).
  { intros σ' Hf Hd Hnew E.
    destruct (mkdir_exist_ok_inv _ _ _ _ E)
      as [(-> & -> & Hdir)|[(-> & Hdir & e & -> & He & Hex & _)|(-> & -> & Hn & Hex & _)]].
    - split_and!; try discriminate; try assumption; [|intros _; exact Hdir].
      intros q Hq Hnq. destruct (Hnew q Hq Hnq) as [Hh Hl].
      split_and!; [exact Hh|lia|intros _; exact Hl].
    - split_and!; try discriminate; try assumption.
      + intros q Hq Hnq. destruct (Hnew q Hq Hnq) as [Hh Hl].
        split_and!; [exact Hh|lia|intros _; exact Hl].
      + intros [= ->]. rewrite (isfile_agree name σ σ') by (rewrite Hf; reflexivity).
        apply Hex. reflexivity.
      + intros [= ->]. exfalso.
        repeat (apply elem_of_cons in He as [He|He]; [discriminate He|]).
        inversion He.
    - cbn [files dirs]. split_and!; try discriminate; try assumption.
      + intros x Hx. apply elem_of_union_r, Hd, Hx.
      + intros q Hq Hnq. apply elem_of_union in Hq as [Hq|Hq].
        * apply elem_of_singleton in Hq. subst q.
          split_and!; [exists name; auto|lia|intros Hr; exfalso; apply Hr; reflexivity].
        * destruct (Hnew q Hq Hnq) as [Hh Hl].
          split_and!; [exact Hh|lia|intros _; exact Hl].
      + intros _. apply (isdir_added name σ' Hn). }
  destruct (missing_parent name σ) eqn:Emp.
  2:{ intros E. apply (Hlast σ); [reflexivity|set_solver| |exact E].
      intros q Hq Hnq. contradiction. }
  apply missing_parent_true in Emp. rewrite Eht in Emp. cbn [fst snd] in Emp.
  destruct Emp as (Hh & Ht & Hex).
  destruct (head_tail_inv _ _ _ Eht) as (Hslash & _).
  pose proof (head_tail_prefix _ _ _ Eht) as Hpre.
  pose proof (norm_head_le _ _ _ Eht Hh) as Hle.
  destruct (makedirs_from f head σ) as [σ0 r0] eqn:Erec.
  destruct (IH _ _ _ _ Erec) as (Hf & Hd & Hnew & Hok & Hfee & Hrec).
  destruct (except_exists (σ0, r0)) as [σ' r'] eqn:Eex.
  apply except_exists_inv in Eex. cbn [fst snd] in Eex.
  destruct Eex as [<- [[<- Hne]|[-> ->]]].
  2:{ specialize (Hfee eq_refl). unfold exists_ in Hex.
      rewrite Hfee in Hex. discriminate Hex. }
  destruct r0 as [[]|e].
  - destruct (components_tail_dot tail Hslash Ht) as [Hdot Hnodot].
    destruct (str_eqb tail (lit ".")) eqn:Edot.
    + intros [= <- <-]. split_and!; try discriminate; try assumption.
      * intros q Hq Hnq.
        destruct (Hnew q Hq Hnq) as ((h & -> & Hhn & Hhp) & Hl & _).
        split_and!; [|lia|intros Hr; exfalso; apply Hr; reflexivity].
        exists h. split_and!; [reflexivity|assumption|]. etransitivity; eassumption.
      * intros _. rewrite (isdir_head_same _ _ _ σ0 Eht Hh (Hdot eq_refl)).
        apply Hok. reflexivity.
    + intros E. apply (Hlast σ0); [exact Hf|exact Hd| |exact E].
      intros q Hq Hnq. destruct (Hnew q Hq Hnq) as ((h & -> & Hhn & Hhp) & Hl & _).
      split; [exists h; split_and!; [reflexivity|assumption|]; etransitivity; eassumption|].
      pose proof (norm_head_lt _ _ _ Eht Hh (Hnodot eq_refl)). lia.
  - intros [= <- <-]. split_and!; try discriminate; try assumption.
    + intros q Hq Hnq.
      destruct (Hnew q Hq Hnq) as ((h & -> & Hhn & Hhp) & Hl & Hlt).
      specialize (Hlt ltac:(discriminate)).
      split_and!; [|lia|intros _; lia].
      exists h. split_and!; [reflexivity|assumption|]. etransitivity; eassumption.
    + intros [= ->]. exfalso. apply Hne. reflexivity.
    + intros [= ->]. specialize (Hrec eq_refl).
      pose proof (head_tail_length _ _ _ Eht).
      destruct tail; [congruence|]. cbn [length] in *. lia.
Qed.

(** *** Running [os.makedirs] again *)

Lemma mkdir_exist_ok_isdir name σ :
  isdir name σ = true -> mkdir_exist_ok name σ = (σ, Ok tt).
Proof.
  intros Hd. unfold mkdir_exist_ok. destruct (mkdir name σ) as [σ' r'] eqn:E.
  destruct (mkdir_inv _ _ _ _ E) as [(-> & e & -> & _)|(_ & _ & _ & Hex & _)].
  - rewrite Hd. reflexivity.
  - unfold exists_ in Hex. rewrite Hd, orb_true_r in Hex. discriminate Hex.
Qed.

(** The error of [os.mkdir] depends on four tests. *)
Lemma mkdir_error_agree name σ σ2 e :
  mkdir name σ = (σ, Raise e) ->
  exists_ name σ2 = exists_ name σ ->
  isdir (fst (head_tail name)) σ2 = isdir (fst (head_tail name)) σ ->
  isfile (fst (head_tail name)) σ2 = isfile (fst (head_tail name)) σ ->
  mkdir name σ2 = (σ2, Raise e).
Proof.
  unfold mkdir. intros E Hex Hd Hf. rewrite Hex, Hd, Hf.
  destruct name as [|c name]; [injection E as <-; reflexivity|].
  destruct (exists_ (c :: name) σ); [injection E as <-; reflexivity|].
  destruct (forallb (N.eqb SLASH) (fst (head_tail (c :: name)))
            || isdir (fst (head_tail (c :: name))) σ); [discriminate E|].
  destruct (isfile (fst (head_tail (c :: name))) σ); injection E as <-; reflexivity.
Qed.

Lemma mkdir_exist_ok_again name σ σ1 r σ2 :
  mkdir_exist_ok name σ = (σ1, r) ->
  isfile name σ2 = isfile name σ ->
  isfile (fst (head_tail name)) σ2 = isfile (fst (head_tail name)) σ ->
  isdir name σ2 = isdir name σ1 ->
  isdir (fst (head_tail name)) σ2 = isdir (fst (head_tail name)) σ1 ->
  mkdir_exist_ok name σ2 = (σ2, r).
Proof.
  intros E Hfn Hfh Hdn Hdh.
  destruct (mkdir_exist_ok_inv _ _ _ _ E)
    as [(-> & -> & Hdir)|[(-> & Hdir & e & -> & _ & _ & Em)|(-> & -> & Hn & _)]].
  - apply mkdir_exist_ok_isdir. rewrite Hdn. exact Hdir.
  - unfold mkdir_exist_ok.
    rewrite (mkdir_error_agree name σ σ2 e Em); [| |exact Hdh|exact Hfh].
    + rewrite Hdn, Hdir. reflexivity.
    + unfold exists_. rewrite Hfn, Hdn. reflexivity.
  - apply mkdir_exist_ok_isdir. rewrite Hdn. apply isdir_added, Hn.
Qed.

(** A second call, on a state that agrees with what the first call left
    on the names the call looks at, changes nothing and ends as the
    first. *)
Lemma makedirs_from_again fuel : forall name σ σ1 r σ2,
  makedirs_from fuel name σ = (σ1, r) ->
  (forall q, (length q <= length name)%nat -> files σ2 !! q = files σ !! q) ->
  (forall q, (length q <= length (norm name))%nat -> q ∈ dirs σ2 <-> q ∈ dirs σ1) ->
  makedirs_from fuel name σ2 = (σ2, r).
Proof.
  induction fuel as [|f IH]; intros name σ σ1 r σ2 E Hfiles Hdirs.
  { cbn [makedirs_from] in *. injection E as <- <-. reflexivity. }
  pose proof (makedirs_from_spec _ _ _ _ _ E) as (Hf1 & Hd1 & Hnew1 & _).
  cbn [makedirs_from] in E |- *.
  destruct (head_tail name) as [head tail] eqn:Eht.
  pose proof (head_tail_length _ _ _ Eht) as Hlen.
  assert (Fi : forall p, (length p <= length name)%nat -> isfile p σ2 = isfile p σ).
  { intros p Hp. apply isfile_agree, Hfiles, Hp. }
  assert (Di : forall p, p = [] \/ (length (norm p) <= length (norm name))%nat ->
                         isdir p σ2 = isdir p σ1).
  { intros p [->|Hp]; [reflexivity|]. apply isdir_agree, Hdirs, Hp. }
  assert (Dh : isdir head σ2 = isdir head σ1).
  { apply Di. destruct head as [|c head]; [left; reflexivity|right].
    apply (norm_head_le _ _ _ Eht). discriminate. }
  assert (Dn : isdir name σ2 = isdir name σ1) by (apply Di; right; lia).
  assert (Fh : isfile head σ2 = isfile head σ) by (apply Fi; lia).
  assert (Fn : isfile name σ2 = isfile name σ) by (apply Fi; lia).
  change head with (fst (head, tail)) in Dh, Fh. rewrite <- Eht in Dh, Fh.
  destruct (missing_parent name σ) eqn:Emp.
  - (* the parent was missing *)
    apply missing_parent_true in Emp. rewrite Eht in Emp, Dh, Fh. cbn [fst snd] in *.
    destruct Emp as (Hh & Ht & Hex).
    destruct (head_tail_inv _ _ _ Eht) as (Hslash & _).
    destruct (makedirs_from f head σ) as [σ0 r0] eqn:Erec.
    destruct (makedirs_from_spec _ _ _ _ _ Erec) as (Hf0 & Hd0 & Hnew0 & Hok0 & Hfee0 & _).
    destruct (except_exists (σ0, r0)) as [σ' r'] eqn:Eex.
    apply except_exists_inv in Eex. cbn [fst snd] in Eex.
    destruct Eex as [<- [[<- Hne]|[-> ->]]].
    2:{ specialize (Hfee0 eq_refl). unfold exists_ in Hex.
        rewrite Hfee0 in Hex. discriminate Hex. }
    unfold exists_ in Hex. apply orb_false_iff in Hex as [Hexf Hexd].
    destruct r0 as [[]|e].
    + (* the parent was made: it is there now *)
      assert (Hsub : dirs σ0 ⊆ dirs σ1).
      { destruct (str_eqb tail (lit ".")); [injection E as <- <-; reflexivity|].
        destruct (mkdir_exist_ok_inv _ _ _ _ E)
          as [(-> & _)|[(-> & _)|(_ & -> & _)]]; [reflexivity..|].
        cbn [dirs]. intros x Hx. apply elem_of_union_r, Hx. }
      assert (Hhd : isdir head σ2 = true).
      { rewrite Dh. apply (isdir_mono head σ0 σ1 Hsub), Hok0. reflexivity. }
      assert (Emp2 : missing_parent name σ2 = false).
      { unfold missing_parent. rewrite Eht.
        destruct head; [reflexivity|]. destruct tail; [reflexivity|].
        unfold exists_. rewrite Hhd, orb_true_r. reflexivity. }
      rewrite Emp2.
      destruct (components_tail_dot tail Hslash Ht) as [Hdot _].
      destruct (str_eqb tail (lit ".")).
      * injection E as <- <-. apply mkdir_exist_ok_isdir.
        rewrite (isdir_head_same _ _ _ σ2 Eht Hh (Hdot eq_refl)). exact Hhd.
      * apply (mkdir_exist_ok_again name σ0 σ1 r σ2 E).
        -- rewrite Fn. apply isfile_agree. rewrite Hf0. reflexivity.
        -- rewrite Eht. cbn [fst]. rewrite Fh. apply isfile_agree.
           rewrite Hf0. reflexivity.
        -- exact Dn.
        -- rewrite Eht. exact Dh.
    + (* the parent could not be made: it is still missing *)
      injection E as <- <-.
      assert (Hhd : isdir head σ0 = false).
      { rewrite <- Hexd. apply isdir_agree. split; [|apply Hd0].
        intros Hin. destruct (decide (norm head ∈ dirs σ)) as [Hi|Hn]; [exact Hi|].
        destruct (Hnew0 _ Hin Hn) as (_ & _ & Hlt).
        specialize (Hlt ltac:(discriminate)). lia. }
      assert (Emp2 : missing_parent name σ2 = true).
      { unfold missing_parent. rewrite Eht.
        destruct head; [congruence|]. destruct tail; [congruence|].
        unfold exists_. rewrite Fh, Hexf, Dh, Hhd. reflexivity. }
      rewrite Emp2.
      rewrite (IH head σ σ0 (Raise e) σ2 Erec).
      * destruct e; try reflexivity. exfalso. apply Hne. reflexivity.
      * intros q Hq. apply Hfiles. lia.
      * intros q Hq. apply Hdirs.
        pose proof (norm_head_le _ _ _ Eht Hh). lia.
  - (* the parent was there, or the name has none *)
    rewrite Eht in Dh, Fh. cbn [fst] in Dh, Fh.
    assert (Emp2 : missing_parent name σ2 = false).
    { unfold missing_parent in Emp |- *. rewrite Eht in Emp |- *.
      destruct head as [|c head]; [reflexivity|]. destruct tail; [reflexivity|].
      apply negb_false_iff in Emp. apply negb_false_iff.
      unfold exists_ in Emp |- *. rewrite Fh, Dh.
      destruct (isfile (c :: head) σ); [reflexivity|]. cbn [orb] in *.
      apply (isdir_mono _ σ σ1 Hd1), Emp. }
    rewrite Emp2.
    apply (mkdir_exist_ok_again name σ σ1 r σ2 E);
      rewrite ?Eht; cbn [fst]; assumption.
Qed.

(** *** What [os.makedirs] raises, and what it leaves *)

Lemma makedirs_from_errors fuel : forall name σ e,
  snd (makedirs_from fuel name σ) = Raise e ->
  e ∈ [FileNotFoundError; FileExistsError; NotADirectoryError; RecursionError].
Proof.
  assert (Hlast : forall name σ e,
            snd (mkdir_exist_ok name σ) = Raise e ->
            e ∈ [FileNotFoundError; FileExistsError; NotADirectoryError; RecursionError]).
  { intros name σ e. destruct (mkdir_exist_ok name σ) as [σ1 r] eqn:E.
    destruct (mkdir_exist_ok_inv _ _ _ _ E)
      as [(_ & -> & _)|[(_ & _ & e' & -> & He & _)|(-> & _)]]; cbn [snd];
      try discriminate.
    intros [= <-].
    repeat (apply elem_of_cons in He as [->|He]; [repeat constructor|]).
    inversion He. }
  induction fuel as [|f IH]; intros name σ e; cbn [makedirs_from].
  { intros [= <-]. repeat constructor. }
  destruct (head_tail name) as [head tail].
  destruct (missing_parent name σ); [|apply Hlast].
  specialize (IH head σ).
  destruct (makedirs_from f head σ) as [σ0 [[]|e0]]; cbn [except_exists snd] in *.
  - destruct (str_eqb tail (lit ".")); [discriminate|apply Hlast].
  - destruct e0; cbn [snd];
      try (intros [= <-]; apply IH; reflexivity).
    destruct (str_eqb tail (lit ".")); [discriminate|apply Hlast].
Qed.

(** After a normal return no parent is missing. *)
Lemma makedirs_from_parent fuel name σ σ1 :
  makedirs_from fuel name σ = (σ1, Ok tt) -> missing_parent name σ1 = false.
Proof.
  destruct fuel as [|f]; cbn [makedirs_from]; [discriminate|].
  unfold missing_parent at 2. destruct (head_tail name) as [head tail] eqn:Eht.
  assert (Hkeep : forall σ', files σ' = files σ -> dirs σ ⊆ dirs σ' ->
                             exists_ head σ = true -> exists_ head σ' = true).
  { intros σ' Hf Hd. unfold exists_.
    rewrite (isfile_agree head σ' σ) by (rewrite Hf; reflexivity).
    destruct (isfile head σ); [reflexivity|]. cbn [orb]. apply isdir_mono, Hd. }
  assert (Hlast : forall σ', mkdir_exist_ok name σ' = (σ1, Ok tt) ->
                             files σ1 = files σ' /\ dirs σ' ⊆ dirs σ1).
  { intros σ' E. destruct (mkdir_exist_ok_inv _ _ _ _ E)
      as [(-> & _)|[(-> & _)|(_ & -> & _)]]; [auto..|].
    cbn [files dirs]. split; [reflexivity|].
    intros x Hx. apply elem_of_union_r, Hx. }
  destruct (missing_parent name σ) eqn:Emp.
  - apply missing_parent_true in Emp. rewrite Eht in Emp. cbn [fst snd] in Emp.
    destruct Emp as (Hh & Ht & Hex).
    destruct (makedirs_from f head σ) as [σ0 r0] eqn:Erec.
    destruct (makedirs_from_spec _ _ _ _ _ Erec) as (Hf0 & Hd0 & _ & Hok0 & Hfee0 & _).
    destruct (except_exists (σ0, r0)) as [σ' r'] eqn:Eex.
    apply except_exists_inv in Eex. cbn [fst snd] in Eex.
    destruct Eex as [<- [[<- Hne]|[-> ->]]].
    2:{ specialize (Hfee0 eq_refl). unfold exists_ in Hex.
        rewrite Hfee0 in Hex. discriminate Hex. }
    destruct r0 as [[]|e]; [|discriminate].
    specialize (Hok0 eq_refl).
    intros E.
    assert (Hsub : dirs σ0 ⊆ dirs σ1).
    { destruct (str_eqb tail (lit ".")); [injection E as <-; reflexivity|].
      apply (Hlast σ0 E). }
    destruct head; [reflexivity|]. destruct tail; [reflexivity|].
    unfold exists_. rewrite (isdir_mono _ σ0 σ1 Hsub Hok0), orb_true_r. reflexivity.
  - intros E. destruct (Hlast σ E) as [Hf Hd].
    unfold missing_parent in Emp. rewrite Eht in Emp.
    destruct head as [|c head]; [reflexivity|]. destruct tail; [reflexivity|].
    apply negb_false_iff in Emp. rewrite (Hkeep σ1 Hf Hd Emp). reflexivity.
Qed.

(** [os.makedirs]: the files are as they were; the directories that
    were there still are; a new directory is the normal form of the name
    or of a text the name starts with; after a normal return the name is
    a directory and no parent is missing; the function raises nothing
    but the three errors of [os.mkdir]. *)
Lemma makedirs_spec name σ :
  files (fst (makedirs name σ)) = files σ
  /\ dirs σ ⊆ dirs (fst (makedirs name σ))
  /\ (forall q, q ∈ dirs (fst (makedirs name σ)) -> q ∉ dirs σ ->
        exists h, q = norm h /\ h <> [] /\ h `prefix_of` name)
  /\ (snd (makedirs name σ) = Ok tt ->
        isdir name (fst (makedirs name σ)) = true
        /\ missing_parent name (fst (makedirs name σ)) = false)
  /\ (forall e, snd (makedirs name σ) = Raise e ->
        e ∈ [FileNotFoundError; FileExistsError; NotADirectoryError]).
Proof.
  unfold makedirs. destruct (makedirs_from (S (length name)) name σ) as [σ1 r] eqn:E.
  destruct (makedirs_from_spec _ _ _ _ _ E) as (Hf & Hd & Hnew & Hok & _ & Hrec).
  cbn [fst snd]. split_and!; try assumption.
  - intros q Hq Hnq. apply (Hnew q Hq Hnq).
  - intros ->. split; [apply Hok; reflexivity|].
    apply (makedirs_from_parent _ _ _ _ E).
  - intros e ->. pose proof (makedirs_from_errors (S (length name)) name σ e) as He.
    rewrite E in He. specialize (He eq_refl).
    repeat (apply elem_of_cons in He as [->|He]; [repeat constructor|]).
    + exfalso. specialize (Hrec eq_refl). lia.
    + inversion He.
Qed.

(** A second call after the first, whatever was written in between to
    files with longer names, changes nothing and ends as the first. *)
Lemma makedirs_again name σ σ2 :
  (forall q, (length q <= length name)%nat -> files σ2 !! q = files σ !! q) ->
  dirs σ2 = dirs (fst (makedirs name σ)) ->
  makedirs name σ2 = (σ2, snd (makedirs name σ)).
Proof.
  intros Hf Hd. unfold makedirs in *.
  destruct (makedirs_from (S (length name)) name σ) as [σ1 r] eqn:E.
  cbn [fst snd] in *.
  apply (makedirs_from_again _ _ _ _ _ _ E Hf). intros q _. rewrite Hd. reflexivity.
Qed.





(** ** The output stage of [main] *)

Section Output.
Context `{Builtins}.
Variables (args : Args) (segment_list : list Segment) (σ : fs) (path : pystr).
Hypothesis Hfile : file args = Some path.

Lemma write_if_ok b writer σ1 :
  (forall σ', snd (writer σ') = Ok tt) ->
  write_if b writer (σ1, Ok tt) = (if b then fst (writer σ1) else σ1, Ok tt).
Proof.
  intros Hw. destruct b; cbn [write_if]; [|reflexivity].
  rewrite (surjective_pairing (writer σ1)), Hw. reflexivity.
Qed.

(** The directory first, then the three blocks, in the order of the
    source. *)
Lemma main_output_eq :
  main_output args segment_list σ
  = write_if (requested args "txt")
      (write_txt segment_list (output_path args path ".txt"))
      (write_if (requested args "json")
         (write_json segment_list (output_path args path ".json"))
         (write_if (requested args "srt")
            (write_srt segment_list (output_path args path ".srt"))
            (makedirs (output_dir args) σ))).
Proof. unfold main_output. rewrite Hfile. reflexivity. Qed.

Lemma paths_differ :
  output_path args path ".srt" <> output_path args path ".json"
  /\ output_path args path ".srt" <> output_path args path ".txt"
  /\ output_path args path ".json" <> output_path args path ".txt".
Proof.
  repeat split; intros E; apply target_inj in E; try reflexivity; discriminate E.
Qed.

(** When [os.makedirs] raises, the stage ends there. *)
Lemma main_output_fails e :
  snd (makedirs (output_dir args) σ) = Raise e ->
  main_output args segment_list σ = (fst (makedirs (output_dir args) σ), Raise e).
Proof.
  intros He. rewrite main_output_eq.
  destruct (makedirs (output_dir args) σ) as [σ1 r]. cbn [fst snd] in *. subst r.
  reflexivity.
Qed.

(** What the stage returns and leaves on the disk once the directory is
    there. *)
Lemma main_output_spec :
  snd (makedirs (output_dir args) σ) = Ok tt ->
  let r := if requested args "srt" then snd (srt_writes 1 segment_list) else Ok tt in
  snd (main_output args segment_list σ) = r
  /\ dirs (fst (main_output args segment_list σ))
     = dirs (fst (makedirs (output_dir args) σ))
  /\ forall q,
       files (fst (main_output args segment_list σ)) !! q
       = match r with
         | Ok _ =>
             if decide (requested args "txt" = true
                        /\ output_path args path ".txt" = q)
             then Some (concat (txt_writes segment_list))
             else if decide (requested args "json" = true
                             /\ output_path args path ".json" = q)
             then Some (dumps (JList (json_output segment_list)))
             else if decide (requested args "srt" = true
                             /\ output_path args path ".srt" = q)
             then Some (concat (fst (srt_writes 1 segment_list)))
             else files σ !! q
         | Raise _ =>
             if decide (output_path args path ".srt" = q)
             then Some (concat (fst (srt_writes 1 segment_list)))
             else files σ !! q
         end.
Proof.
  intros Hmk. rewrite main_output_eq.
  destruct (makedirs_spec (output_dir args) σ) as (Hfiles & _).
  destruct (makedirs (output_dir args) σ) as [σ0 r0]. cbn [fst snd] in *. subst r0.
  set (srt_path := output_path args path ".srt").
  set (json_path := output_path args path ".json").
  set (txt_path := output_path args path ".txt").
  assert (Hsrt : forall q, files (fst (write_srt segment_list srt_path σ0)) !! q
                 = if decide (srt_path = q)
                   then Some (concat (fst (srt_writes 1 segment_list)))
                   else files σ !! q)
    by (intros q; rewrite write_srt_file, Hfiles; reflexivity).
  pose proof (write_srt_result segment_list srt_path σ0) as Hres.
  pose proof (write_srt_dirs segment_list srt_path σ0) as Hdirs.
  assert (Hstage : forall st,
            snd st = Ok tt ->
            write_if (requested args "txt") (write_txt segment_list txt_path)
              (write_if (requested args "json") (write_json segment_list json_path) st)
            = (let σ2 := if requested args "json"
                         then fst (write_json segment_list json_path (fst st))
                         else fst st in
               if requested args "txt"
               then fst (write_txt segment_list txt_path σ2) else σ2,
               Ok tt)).
  { intros [σ1 r1] Hr. cbn [snd] in Hr. subst r1. cbn [fst].
    rewrite (write_if_ok (requested args "json")) by reflexivity.
    rewrite (write_if_ok (requested args "txt")) by reflexivity. reflexivity. }
  pose proof paths_differ as (Hsj & Hst & Hjt).
  fold srt_path json_path txt_path in Hsj, Hst, Hjt.
  destruct (requested args "srt") eqn:Esrt.
  - cbn [write_if]. destruct (write_srt segment_list srt_path σ0) as [σ1 r1].
    cbn [fst snd] in *. rewrite <- Hres. destruct r1 as [[]|e].
    + rewrite Hstage by reflexivity. cbn [fst snd].
      split; [reflexivity|]. split.
      * destruct (requested args "json"), (requested args "txt");
          rewrite ?write_txt_dirs, ?write_json_dirs; exact Hdirs.
      * intros q. destruct (requested args "json"), (requested args "txt");
          rewrite ?write_txt_file, ?write_json_file, ?Hsrt;
          repeat case_decide; try reflexivity; exfalso; intuition congruence.
    + cbn [write_if fst snd]. split; [reflexivity|]. split; [exact Hdirs|].
      intros q. apply Hsrt.
  - change (write_if false (write_srt segment_list srt_path) (σ0, Ok tt))
      with (σ0, @Ok unit tt).
    rewrite Hstage by reflexivity. cbn [fst snd].
    split; [reflexivity|]. split.
    + destruct (requested args "json"), (requested args "txt");
        rewrite ?write_txt_dirs, ?write_json_dirs; reflexivity.
    + intros q. destruct (requested args "json"), (requested args "txt");
        rewrite ?write_txt_file, ?write_json_file, ?Hfiles;
        repeat case_decide; try reflexivity; exfalso; intuition congruence.
Qed.

Lemma makedirs_cases :
  (exists e, snd (makedirs (output_dir args) σ) = Raise e)
  \/ snd (makedirs (output_dir args) σ) = Ok tt.
Proof. destruct (snd (makedirs (output_dir args) σ)) as [[]|e]; eauto. Qed.

(** A normal return of the stage is one of [os.makedirs]. *)
Lemma main_output_ok_makedirs :
  snd (main_output args segment_list σ) = Ok tt ->
  snd (makedirs (output_dir args) σ) = Ok tt.
Proof.
  intros Hok. destruct (snd (makedirs (output_dir args) σ)) as [[]|e] eqn:E;
    [reflexivity|].
  rewrite (main_output_fails e E) in Hok. discriminate Hok.
Qed.


(** C6. When the stage returns normally, each requested format has its
    file at [os.path.join(output_dir, base_filename + ext)], where
    [base_filename] is the input's base name without its extension; that
    path is the output directory, a separator unless the directory is
    empty or ends with one, and the name [base_filename + ext], which is
    the last component of the path. *)
Theorem output_paths :
  snd (main_output args segment_list σ) = Ok tt ->
  basename path = base_filename path ++ snd (splitext (basename path))
  /\ (requested args "srt" = true ->
      files (fst (main_output args segment_list σ)) !! output_path args path ".srt"
      = Some (concat (fst (srt_writes 1 segment_list))))
  /\ (requested args "json" = true ->
      files (fst (main_output args segment_list σ)) !! output_path args path ".json"
      = Some (dumps (JList (json_output segment_list))))
  /\ (requested args "txt" = true ->
      files (fst (main_output args segment_list σ)) !! output_path args path ".txt"
      = Some (concat (txt_writes segment_list)))
  /\ forall ext, ext ∈ [".srt"; ".json"; ".txt"]%string ->
       basename (output_path args path ext) = base_filename path ++ lit ext
       /\ exists sep,
            output_path args path ext
            = output_dir args ++ sep ++ base_filename path ++ lit ext
            /\ (sep = [] /\ (output_dir args = [] \/ endswith_sep (output_dir args) = true)
                \/ sep = [SLASH] /\ output_dir args <> []
                   /\ endswith_sep (output_dir args) = false).
Proof.
  intros Hok. destruct (main_output_spec (main_output_ok_makedirs Hok)) as (Hr & _ & Hf).
  rewrite Hok in Hr.
  pose proof paths_differ as (Hsj & Hst & Hjt).
  split; [symmetry; apply splitext_app|].
  split; [|split; [|split]].
  - intros Hw. rewrite Hf, <- Hr.
    repeat case_decide; try reflexivity; exfalso; intuition congruence.
  - intros Hw. rewrite Hf, <- Hr.
    repeat case_decide; try reflexivity; exfalso; intuition congruence.
  - intros Hw. rewrite Hf, <- Hr.
    repeat case_decide; try reflexivity; exfalso; intuition congruence.
  - intros ext Hext. apply join_name.
    assert (Hbase : SLASH ∉ base_filename path)
      by apply splitext_no_slash, basename_no_slash.
    intros Hin. apply elem_of_app in Hin as [Hin|Hin]; [exact (Hbase Hin)|].
    repeat (apply elem_of_cons in Hext as [->|Hext]);
      [| | |inversion Hext]; vm_compute in Hin;
      repeat (apply elem_of_cons in Hin as [Hin|Hin]; [discriminate Hin|]);
      inversion Hin.
Qed.

(** C10. Of the comma-separated, stripped and lower-cased tokens only
    [srt], [json] and [txt] matter: once the output directory is there
    the stage raises only what the SRT writer raises, a file changes
    only where one of the three names is among the tokens and only at
    that format's path, and any other [--formats] string with the same
    three memberships gives the same run. *)
Theorem formats_only_known :
  parse_formats (formats args)
  = map (fun fmt => str_lower (strip fmt)) (split COMMA (formats args))
  /\ snd (main_output args segment_list σ)
     = match snd (makedirs (output_dir args) σ) with
       | Ok _ => if requested args "srt" then snd (srt_writes 1 segment_list)
                 else Ok tt
       | Raise e => Raise e
       end
  /\ (forall q,
        files (fst (main_output args segment_list σ)) !! q <> files σ !! q ->
        requested args "srt" = true /\ q = output_path args path ".srt"
        \/ requested args "json" = true /\ q = output_path args path ".json"
        \/ requested args "txt" = true /\ q = output_path args path ".txt")
  /\ (forall formats',
        (forall name, name ∈ ["srt"; "json"; "txt"]%string ->
           requested (with_formats args formats') name = requested args name) ->
        main_output (with_formats args formats') segment_list σ
        = main_output args segment_list σ).
Proof.
  split; [reflexivity|].
  split; [|split].
  - destruct makedirs_cases as [[e He]|Hmk].
    + rewrite He, (main_output_fails e He). reflexivity.
    + rewrite Hmk. apply (main_output_spec Hmk).
  - intros q. destruct makedirs_cases as [[e He]|Hmk].
    + rewrite (main_output_fails e He). cbn [fst].
      destruct (makedirs_spec (output_dir args) σ) as (-> & _).
      intros Hne. exfalso. apply Hne. reflexivity.
    + destruct (main_output_spec Hmk) as (_ & _ & Hf). rewrite Hf.
      destruct (requested args "srt") eqn:Es.
      * destruct (snd (srt_writes 1 segment_list)).
        -- repeat case_decide; intros Hne; try (exfalso; apply Hne; reflexivity);
             intuition auto.
        -- case_decide; intros Hne; [auto | exfalso; apply Hne; reflexivity].
      * repeat case_decide; intros Hne; try (exfalso; apply Hne; reflexivity);
          intuition auto.
  - intros formats' Hsame. unfold main_output.
    cbn [with_formats file output_dir formats]. rewrite Hfile.
    pose proof (Hsame "srt"%string ltac:(set_solver)) as Hs.
    pose proof (Hsame "json"%string ltac:(set_solver)) as Hj.
    pose proof (Hsame "txt"%string ltac:(set_solver)) as Ht.
    unfold requested in Hs, Hj, Ht. cbn [with_formats formats] in Hs, Hj, Ht.
    rewrite Hs, Hj, Ht. reflexivity.
Qed.

End Output.


(** The directories of that run: [out] was missing and is made first. *)
Example makedirs_nested :
  makedirs (lit "out/sub") Demo.empty
  = ({| files := ∅; dirs := {[ lit "out/sub" ]} ∪ ({[ lit "out" ]} ∪ ∅) |}, Ok tt).
Proof. reflexivity. Qed.


Lemma output_paths_witness :
  files (fst (@main_output Ascii_builtins.ascii Demo.args Demo.segments Demo.empty))
    !! lit "out/talk.srt"
  = Some (concat (fst (srt_writes 1 Demo.segments)))
  /\ files (fst (@main_output Ascii_builtins.ascii Demo.args Demo.segments Demo.empty))
       !! lit "out/talk.json"
     = Some (@dumps Ascii_builtins.ascii (JList (json_output Demo.segments))).
Proof.
  destruct (@output_paths Ascii_builtins.ascii
              Demo.args Demo.segments Demo.empty (lit "audio/talk.mp3") eq_refl)
    as (_ & Hsrt & Hjson & _).
  - vm_compute. reflexivity.
  - split; [exact (Hsrt eq_refl) | exact (Hjson eq_refl)].
Defined.

Lemma formats_only_known_witness :
  @main_output Ascii_builtins.ascii
    (with_formats Demo.args (lit "json,srt,srt")) Demo.segments Demo.empty
  = @main_output Ascii_builtins.ascii Demo.args Demo.segments Demo.empty.
Proof.
  destruct (@formats_only_known Ascii_builtins.ascii
              Demo.args Demo.segments Demo.empty (lit "audio/talk.mp3") eq_refl)
    as (_ & _ & _ & Hsame).
  apply Hsame. intros name Hname.
  repeat (apply elem_of_cons in Hname as [->|Hname]);
    [vm_compute; reflexivity ..|inversion Hname].
Defined.

(** ** C8: the prompts *)

Lemma retry_until {A} (answer : pystr -> option A) bad line rest v :
  Forall (fun l => answer l = None) bad -> answer line = Some v ->
  retry answer (bad ++ line :: rest) = Ok (v, rest).
Proof.
  intros Hbad Hline. induction Hbad as [|l bad Hl _ IH]; cbn [app retry].
  - rewrite Hline. reflexivity.
  - rewrite Hl. exact IH.
Qed.

Lemma retry_returns {A} (answer : pystr -> option A) stdin v rest :
  retry answer stdin = Ok (v, rest) -> exists line, answer line = Some v.
Proof.
  induction stdin as [|line stdin IH]; cbn [retry]; [discriminate|].
  destruct (answer line) as [v'|] eqn:E; [|exact IH].
  intros [= <- <-]. exists line. exact E.
Qed.

Lemma ask_file_retry σ stdin : ask_file σ stdin = retry (file_answer σ) stdin.
Proof.
  induction stdin as [|line rest IH]; cbn [ask_file retry]; [reflexivity|].
  unfold file_answer. destruct (_ && _); [reflexivity | exact IH].
Qed.

Lemma ask_cpu_threads_retry `{Builtins} stdin :
  ask_cpu_threads stdin = retry cpu_threads_answer stdin.
Proof.
  induction stdin as [|line rest IH]; cbn [ask_cpu_threads retry]; [reflexivity|].
  unfold cpu_threads_answer. destruct (strip line) as [|c s]; [reflexivity|].
  destruct (py_int (c :: s)) as [n|]; [|exact IH].
  destruct (0 <=? n); [reflexivity | exact IH].
Qed.

Lemma ask_beam_size_retry `{Builtins} stdin :
  ask_beam_size stdin = retry beam_size_answer stdin.
Proof.
  induction stdin as [|line rest IH]; cbn [ask_beam_size retry]; [reflexivity|].
  unfold beam_size_answer. destruct (strip line) as [|c s]; [reflexivity|].
  destruct (py_int (c :: s)) as [n|]; [|exact IH].
  destruct (0 <? n); [reflexivity | exact IH].
Qed.

Lemma lookup_in_range (options : list pystr) choice :
  (1 <=? choice) && (choice <=? Z.of_nat (length options)) = true ->
  is_Some (options !! Z.to_nat (choice - 1)).
Proof.
  intros Hr. apply andb_true_iff in Hr as [H1 H2].
  apply Z.leb_le in H1, H2. apply lookup_lt_is_Some. lia.
Qed.

Lemma get_user_choice_retry `{Builtins} options default stdin :
  get_user_choice options default stdin
  = retry (choice_answer options default) stdin.
Proof.
  induction stdin as [|line rest IH]; cbn [get_user_choice retry]; [reflexivity|].
  unfold choice_answer.
  assert (Hint : forall s,
            match py_int s with
            | Some choice =>
                if (1 <=? choice) && (choice <=? Z.of_nat (length options))
                then match options !! Z.to_nat (choice - 1) with
                     | Some o => Ok (o, rest)
                     | None => Raise IndexError
                     end
                else get_user_choice options default rest
            | None => get_user_choice options default rest
            end
            = match match py_int s with
                    | Some choice =>
                        if (1 <=? choice) && (choice <=? Z.of_nat (length options))
                        then options !! Z.to_nat (choice - 1)
                        else None
                    | None => None
                    end with
              | Some v => Ok (v, rest)
              | None => retry (choice_answer options default) rest
              end).
  { intros s. destruct (py_int s) as [choice|]; [|exact IH].
    destruct (_ && _) eqn:Er; [|exact IH].
    destruct (lookup_in_range _ _ Er) as [o ->]. reflexivity. }
  destruct (strip line) as [|c s], default as [d|]; try reflexivity; apply Hint.
Qed.

Lemma file_answer_valid σ line p :
  file_answer σ line = Some p -> exists_ p σ = true /\ isfile p σ = true.
Proof.
  unfold file_answer. destruct (_ && _) eqn:E; [|discriminate].
  intros [= <-]. apply andb_true_iff, E.
Qed.

Lemma cpu_threads_answer_valid `{Builtins} line n :
  cpu_threads_answer line = Some n -> 0 <= n.
Proof.
  unfold cpu_threads_answer. destruct (strip line) as [|c s].
  - intros [= <-]. lia.
  - destruct (py_int (c :: s)) as [k|]; [|discriminate].
    destruct (Z.leb_spec 0 k); [|discriminate]. intros [= <-]. assumption.
Qed.

Lemma beam_size_answer_valid `{Builtins} line n :
  beam_size_answer line = Some n -> 0 < n.
Proof.
  unfold beam_size_answer. destruct (strip line) as [|c s].
  - intros [= <-]. lia.
  - destruct (py_int (c :: s)) as [k|]; [|discriminate].
    destruct (Z.ltb_spec 0 k); [|discriminate]. intros [= <-]. assumption.
Qed.

Lemma choice_answer_valid `{Builtins} options d line o :
  choice_answer options (Some d) line = Some o -> o = d \/ o ∈ options.
Proof.
  unfold choice_answer.
  assert (Hint : forall s,
            match py_int s with
            | Some choice =>
                if (1 <=? choice) && (choice <=? Z.of_nat (length options))
                then options !! Z.to_nat (choice - 1)
                else None
            | None => None
            end = Some o -> o ∈ options).
  { intros s. destruct (py_int s) as [choice|]; [|discriminate].
    destruct (_ && _); [|discriminate]. apply list_elem_of_lookup_2. }
  destruct (strip line) as [|c s].
  - intros [= <-]. left. reflexivity.
  - intros Ho. right. exact (Hint _ Ho).
Qed.

(** C8. Whenever [interactive_setup] returns, the file it recorded is an
    existing regular file, the beam size is positive, the thread count is
    not negative when the device is [cpu], and the device is [cpu], or
    [cuda] on a machine with a GPU. Each of the four validated prompts
    passes over the lines it refuses and returns the first line it takes;
    a blank line takes the default where the prompt has one. *)
Theorem interactive_setup_valid `{Builtins} (σ : fs) (has_gpu : bool)
  (args : Args) (stdin : list pystr) (args' : Args) (rest : list pystr) :
  interactive_setup σ has_gpu args stdin = Ok (args', rest) ->
  (exists p, file args' = Some p /\ exists_ p σ = true /\ isfile p σ = true)
  /\ 0 < beam_size args'
  /\ (device args' = lit "cpu" -> 0 <= cpu_threads args')
  /\ (device args' = lit "cpu" \/ has_gpu = true /\ device args' = lit "cuda")
  /\ (forall bad line rest' v,
        Forall (fun l => file_answer σ l = None) bad ->
        file_answer σ line = Some v ->
        ask_file σ (bad ++ line :: rest') = Ok (v, rest'))
  /\ (forall options default bad line rest' v,
        Forall (fun l => choice_answer options default l = None) bad ->
        choice_answer options default line = Some v ->
        get_user_choice options default (bad ++ line :: rest') = Ok (v, rest'))
  /\ (forall bad line rest' v,
        Forall (fun l => cpu_threads_answer l = None) bad ->
        cpu_threads_answer line = Some v ->
        ask_cpu_threads (bad ++ line :: rest') = Ok (v, rest'))
  /\ (forall bad line rest' v,
        Forall (fun l => beam_size_answer l = None) bad ->
        beam_size_answer line = Some v ->
        ask_beam_size (bad ++ line :: rest') = Ok (v, rest'))
  /\ (forall line options d,
        strip line = [] ->
        choice_answer options (Some d) line = Some d
        /\ cpu_threads_answer line = Some 0
        /\ beam_size_answer line = Some 5).
Proof.
  intros Hrun.
  assert (Hlaws :
    (forall bad line rest' v,
        Forall (fun l => file_answer σ l = None) bad ->
        file_answer σ line = Some v ->
        ask_file σ (bad ++ line :: rest') = Ok (v, rest'))
    /\ (forall options default bad line rest' v,
        Forall (fun l => choice_answer options default l = None) bad ->
        choice_answer options default line = Some v ->
        get_user_choice options default (bad ++ line :: rest') = Ok (v, rest'))
    /\ (forall bad line rest' v,
        Forall (fun l => cpu_threads_answer l = None) bad ->
        cpu_threads_answer line = Some v ->
        ask_cpu_threads (bad ++ line :: rest') = Ok (v, rest'))
    /\ (forall bad line rest' v,
        Forall (fun l => beam_size_answer l = None) bad ->
        beam_size_answer line = Some v ->
        ask_beam_size (bad ++ line :: rest') = Ok (v, rest'))
    /\ (forall line options d,
        strip line = [] ->
        choice_answer options (Some d) line = Some d
        /\ cpu_threads_answer line = Some 0
        /\ beam_size_answer line = Some 5)).
  { split; [|split; [|split; [|split]]].
    - intros. rewrite ask_file_retry. apply retry_until; assumption.
    - intros. rewrite get_user_choice_retry. apply retry_until; assumption.
    - intros. rewrite ask_cpu_threads_retry. apply retry_until; assumption.
    - intros. rewrite ask_beam_size_retry. apply retry_until; assumption.
    - intros line options d Hs.
      unfold choice_answer, cpu_threads_answer, beam_size_answer.
      rewrite Hs. auto. }
  cut ((exists p, file args' = Some p /\ exists_ p σ = true /\ isfile p σ = true)
       /\ 0 < beam_size args'
       /\ (device args' = lit "cpu" -> 0 <= cpu_threads args')
       /\ (device args' = lit "cpu" \/ has_gpu = true /\ device args' = lit "cuda")).
  { intros (A1 & A2 & A3 & A4). destruct Hlaws as (L1 & L2 & L3 & L4 & L5).
    repeat (split; [assumption|]). assumption. }
  clear Hlaws. unfold interactive_setup in Hrun.
  rewrite ask_file_retry in Hrun.
  destruct (retry (file_answer σ) stdin) as [[file_path s1]|] eqn:Efile; [|discriminate].
  cbn [bind] in Hrun.
  apply retry_returns in Efile as (l1 & Hfile).
  apply file_answer_valid in Hfile.
  set (device_r := if 1 <? Z.of_nat (length (if has_gpu then [lit "cuda"; lit "cpu"] else [lit "cpu"]))
                   then get_user_choice (if has_gpu then [lit "cuda"; lit "cpu"] else [lit "cpu"])
                          (Some (if has_gpu then lit "cuda" else lit "cpu")) s1
                   else Ok (if has_gpu then lit "cuda" else lit "cpu", s1)) in Hrun.
  assert (Hdev : forall dev s2, device_r = Ok (dev, s2) ->
                   dev = lit "cpu" \/ has_gpu = true /\ dev = lit "cuda").
  { intros dev s2. unfold device_r. destruct has_gpu.
    - change (1 <? Z.of_nat (length [lit "cuda"; lit "cpu"])) with true. cbv iota.
      rewrite get_user_choice_retry. intros Hc.
      apply retry_returns in Hc as (l & Hc). apply choice_answer_valid in Hc.
      destruct Hc as [->|Hc]; [right; auto|].
      apply elem_of_cons in Hc as [->|Hc]; [right; auto|].
      apply elem_of_cons in Hc as [->|Hc]; [left; reflexivity | inversion Hc].
    - change (1 <? Z.of_nat (length [lit "cpu"])) with false. cbv iota.
      intros [= <- <-]. left. reflexivity. }
  destruct device_r as [[dev s2]|]; [|discriminate]. cbn [bind] in Hrun.
  specialize (Hdev dev s2 eq_refl).
  destruct (get_user_choice _ (Some (lit "medium")) s2) as [[msize s3]|]; [|discriminate].
  cbn [bind] in Hrun.
  destruct (if str_eqb dev (lit "cuda")
            then ([lit "float16"; lit "int8_float16"; lit "int8"], lit "float16")
            else ([lit "int8"; lit "float32"], lit "int8")) as [ctypes cdefault].
  destruct (get_user_choice ctypes (Some cdefault) s3) as [[ctype s4]|]; [|discriminate].
  cbn [bind] in Hrun.
  assert (Hthr : forall t s5,
            (if str_eqb dev (lit "cpu") then ask_cpu_threads s4
             else Ok (cpu_threads args, s4)) = Ok (t, s5) ->
            dev = lit "cpu" -> 0 <= t).
  { intros t s5 Ht ->. change (str_eqb (lit "cpu") (lit "cpu")) with true in Ht.
    cbv iota in Ht. rewrite ask_cpu_threads_retry in Ht.
    apply retry_returns in Ht as (l & Ht). exact (cpu_threads_answer_valid _ _ Ht). }
  destruct (if str_eqb dev (lit "cpu") then ask_cpu_threads s4
            else Ok (cpu_threads args, s4)) as [[threads s5]|]; [|discriminate].
  cbn [bind] in Hrun. specialize (Hthr threads s5 eq_refl).
  rewrite ask_beam_size_retry in Hrun.
  destruct (retry beam_size_answer s5) as [[beam s6]|] eqn:Ebeam; [|discriminate].
  cbn [bind] in Hrun.
  apply retry_returns in Ebeam as (l6 & Hbeam). apply beam_size_answer_valid in Hbeam.
  destruct (input s6) as [[line7 s7]|]; [|discriminate]. cbn [bind] in Hrun.
  destruct (input s7) as [[line8 s8]|]; [|discriminate]. cbn [bind] in Hrun.
  destruct (input s8) as [[line9 s9]|]; [|discriminate]. cbn [bind] in Hrun.
  injection Hrun as <- <-. cbn [file beam_size device cpu_threads].
  split; [exists file_path; tauto|]. repeat split; assumption.
Qed.

(** The answers of [Demo.typed]: two prompts are shown again (the file,
    the model size), the thread prompt twice, the beam prompt once. *)
Lemma interactive_setup_valid_witness :
  (exists p, file Demo.answered = Some p
             /\ exists_ p Demo.disk = true /\ isfile p Demo.disk = true)
  /\ 0 < beam_size Demo.answered
  /\ (device Demo.answered = lit "cpu" -> 0 <= cpu_threads Demo.answered).
Proof.
  destruct (@interactive_setup_valid Ascii_builtins.ascii Demo.disk false
              Demo.defaults Demo.typed Demo.answered [lit "unread"])
    as (Hfile & Hbeam & Hthreads & _).
  - vm_compute. reflexivity.
  - auto.
Defined.

(** * Further properties of the code *)

(** ** [setup.py]: [parse_requirements] *)

Lemma list_ind_two {A} (P : list A -> Prop) :
  P [] -> (forall c, P [c]) ->
  (forall c d l, P l -> P (d :: l) -> P (c :: d :: l)) ->
  forall l, P l.
Proof.
  intros H0 H1 H2 l. enough (P l /\ forall c, P (c :: l)) by tauto.
  induction l as [|d l [IHl IHc]]; [split; [exact H0|exact H1]|].
  split; [apply IHc|]. intros c. apply H2; [exact IHl|apply IHc].
Qed.

Lemma universal_newlines_cons_CR r :
  Setup.universal_newlines (13%N :: r)
  = LF :: Setup.universal_newlines (match r with
                                     | c :: r' => if (c =? LF)%N then r' else r
                                     | [] => []
                                     end).
Proof.
  cbn [Setup.universal_newlines]. change (13 =? 13)%N with true. cbv iota.
  destruct r as [|c r']; [reflexivity|]. destruct (c =? LF)%N; reflexivity.
Qed.

Lemma universal_newlines_cons c r :
  c <> 13%N ->
  Setup.universal_newlines (c :: r) = c :: Setup.universal_newlines r.
Proof.
  intros Hc. cbn [Setup.universal_newlines].
  destruct (N.eqb_spec c 13%N); [contradiction|reflexivity].
Qed.

(** No carriage return is left in the text read. *)
Lemma universal_newlines_no_CR s : 13%N ∉ Setup.universal_newlines s.
Proof.
  induction s as [|c|c d l IHl IHd] using list_ind_two.
  - apply not_elem_of_nil.
  - destruct (N.eq_dec c 13%N) as [->|Hc].
    + rewrite universal_newlines_cons_CR. cbn. intros H.
      apply list_elem_of_singleton in H. discriminate H.
    + rewrite universal_newlines_cons by assumption. cbn. intros H.
      apply list_elem_of_singleton in H. congruence.
  - destruct (N.eq_dec c 13%N) as [->|Hc].
    + rewrite universal_newlines_cons_CR. intros H.
      apply elem_of_cons in H as [H|H]; [discriminate H|].
      destruct (d =? LF)%N; [exact (IHl H)|exact (IHd H)].
    + rewrite universal_newlines_cons by assumption. intros H.
      apply elem_of_cons in H as [H|H]; [congruence|exact (IHd H)].
Qed.

(** A text without carriage returns is read as it is. *)
Lemma universal_newlines_plain l z :
  13%N ∉ l ->
  Setup.universal_newlines (l ++ z) = l ++ Setup.universal_newlines z.
Proof.
  induction l as [|c l IH]; [reflexivity|]. intros H.
  apply not_elem_of_cons in H as [Hc Hl]. cbn [app].
  rewrite universal_newlines_cons by congruence. rewrite IH by assumption.
  reflexivity.
Qed.

(** The text read is cut where the text of the file is, except between
    a carriage return and a line feed. *)
Lemma universal_newlines_app x y :
  (last x <> Some 13%N \/ head y <> Some LF) ->
  Setup.universal_newlines (x ++ y)
  = Setup.universal_newlines x ++ Setup.universal_newlines y.
Proof.
  induction x as [|c|c d l IHl IHd] using list_ind_two; intros H.
  - reflexivity.
  - cbn [app]. destruct (N.eq_dec c 13%N) as [->|Hc].
    + rewrite !universal_newlines_cons_CR. cbn [app]. f_equal.
      destruct y as [|e y]; [reflexivity|].
      destruct (N.eqb_spec e LF) as [->|]; [|reflexivity].
      exfalso. destruct H as [H|H]; apply H; reflexivity.
    + rewrite !universal_newlines_cons by assumption. reflexivity.
  - assert (Hd : last (d :: l) <> Some 13%N \/ head y <> Some LF)
      by (rewrite last_cons_cons in H; exact H).
    cbn [app]. destruct (N.eq_dec c 13%N) as [->|Hc].
    + rewrite !universal_newlines_cons_CR. cbn [app]. f_equal.
      destruct (N.eqb_spec d LF) as [->|]; [|apply IHd, Hd].
      destruct l as [|e l]; [reflexivity|]. apply IHl.
      rewrite last_cons_cons in Hd. exact Hd.
    + rewrite !(universal_newlines_cons c) by assumption. cbn [app].
      rewrite <- IHd by exact Hd. reflexivity.
Qed.

Lemma readlines_line l t :
  LF ∉ l -> Setup.readlines (l ++ LF :: t) = (l ++ [LF]) :: Setup.readlines t.
Proof.
  induction l as [|c l IH]; intros Hl; cbn [app Setup.readlines].
  - change (LF =? LF)%N with true. reflexivity.
  - apply not_elem_of_cons in Hl as [Hc Hl].
    destruct (N.eqb_spec c LF); [congruence|]. rewrite IH by assumption. reflexivity.
Qed.

Lemma readlines_last l :
  LF ∉ l -> Setup.readlines l = match l with [] => [] | _ => [l] end.
Proof.
  induction l as [|c l IH]; intros Hl; [reflexivity|].
  apply not_elem_of_cons in Hl as [Hc Hl]. cbn [Setup.readlines].
  destruct (N.eqb_spec c LF); [congruence|]. rewrite IH by assumption.
  destruct l; reflexivity.
Qed.

(** The lines of a text made of terminated lines and a rest. *)
Lemma readlines_terminated ls l :
  Forall (fun l => LF ∉ l) ls -> LF ∉ l ->
  Setup.readlines (concat (map (fun l => l ++ [LF]) ls) ++ l)
  = map (fun l => l ++ [LF]) ls ++ match l with [] => [] | _ => [l] end.
Proof.
  intros Hls Hl. induction Hls as [|l0 ls H0 _ IH]; cbn [map concat app].
  - apply readlines_last, Hl.
  - rewrite <- !app_assoc. cbn [app]. rewrite readlines_line by assumption.
    rewrite IH. reflexivity.
Qed.

(** Every text is a sequence of terminated lines and a rest. *)
Lemma text_lines s :
  exists ls l, s = concat (map (fun l => l ++ [LF]) ls) ++ l /\ Forall (fun l => LF ∉ l) ls /\ LF ∉ l.
Proof.
  induction s as [|c s (ls & l & -> & Hls & Hl)].
  - exists [], []. repeat split; [constructor|apply not_elem_of_nil].
  - destruct (N.eq_dec c LF) as [->|Hc].
    + exists ([] :: ls), l. repeat split; [|exact Hl].
      constructor; [apply not_elem_of_nil|exact Hls].
    + destruct Hls as [|l0 ls H0 Hls].
      * exists [], (c :: l). repeat split; [constructor|].
        apply not_elem_of_cons. split; [congruence|exact Hl].
      * exists ((c :: l0) :: ls), l. repeat split; [|exact Hl].
        constructor; [|exact Hls]. apply not_elem_of_cons. split; [congruence|exact H0].
Qed.

Lemma strip_LF l : strip (l ++ [LF]) = strip l.
Proof. apply strip_by_app_all. reflexivity. Qed.

Lemma kept_strip_terminated ls :
  List.filter Setup.kept (map strip (map (fun l => l ++ [LF]) ls))
  = List.filter Setup.kept (map strip ls).
Proof.
  rewrite map_map. f_equal. apply map_ext. intros l. apply strip_LF.
Qed.

(** The requirements of a text made of terminated lines and a rest. *)
Lemma requirements_terminated ls l :
  Forall (fun l => LF ∉ l) ls -> LF ∉ l ->
  Setup.requirements (concat (map (fun l => l ++ [LF]) ls) ++ l)
  = List.filter Setup.kept (map strip (ls ++ [l])).
Proof.
  intros Hls Hl. unfold Setup.requirements. cbv zeta.
  rewrite readlines_terminated by assumption.
  rewrite !map_app, !List.filter_app, kept_strip_terminated. f_equal.
  destruct l; reflexivity.
Qed.

Lemma terminated_app ls ls' : concat (map (fun l => l ++ [LF]) (ls ++ ls')) = concat (map (fun l => l ++ [LF]) ls) ++ concat (map (fun l => l ++ [LF]) ls').
Proof. rewrite map_app, concat_app. reflexivity. Qed.

(** A line feed cuts the requirements of a text in two. *)
Lemma requirements_app_LF x y :
  Setup.requirements (x ++ LF :: y) = Setup.requirements x ++ Setup.requirements y.
Proof.
  destruct (text_lines x) as (ls & l & -> & Hls & Hl).
  destruct (text_lines y) as (ls' & l' & -> & Hls' & Hl').
  replace ((concat (map (fun l => l ++ [LF]) ls) ++ l) ++ LF :: concat (map (fun l => l ++ [LF]) ls') ++ l')
    with (concat (map (fun l => l ++ [LF]) (ls ++ [l] ++ ls')) ++ l').
  - rewrite !requirements_terminated; try assumption.
    + rewrite !map_app, !List.filter_app. cbn [map List.filter].
      destruct l'; cbn [map List.filter strip]; rewrite ?app_nil_r, <- ?app_assoc;
        reflexivity.
    + apply Forall_app. split; [exact Hls|]. constructor; assumption.
  - rewrite !terminated_app. cbn [map concat]. rewrite app_nil_r, <- !app_assoc.
    reflexivity.
Qed.

Lemma requirements_snoc_LF x :
  Setup.requirements (x ++ [LF]) = Setup.requirements x.
Proof.
  rewrite requirements_app_LF. apply app_nil_r.
Qed.

(** The same for the text of the file, whatever stands around the line
    feed. *)
Lemma requirements_file_app_LF a b :
  Setup.requirements (Setup.universal_newlines (a ++ LF :: b))
  = Setup.requirements (Setup.universal_newlines a)
    ++ Setup.requirements (Setup.universal_newlines b).
Proof.
  change (a ++ LF :: b) with (a ++ [LF] ++ b). rewrite app_assoc.
  rewrite universal_newlines_app by (left; rewrite last_snoc; discriminate).
  assert (E : exists u, Setup.universal_newlines (a ++ [LF]) = u ++ [LF]
                        /\ Setup.requirements u
                           = Setup.requirements (Setup.universal_newlines a)).
  { destruct (decide (last a = Some 13%N)) as [Ha|Ha].
    - apply last_Some in Ha as (a' & ->). rewrite <- app_assoc. cbn [app].
      exists (Setup.universal_newlines a').
      rewrite !universal_newlines_app by (right; discriminate).
      split; [reflexivity|].
      change (Setup.universal_newlines [13%N]) with [LF].
      symmetry. apply requirements_snoc_LF.
    - exists (Setup.universal_newlines a).
      rewrite universal_newlines_app by (left; exact Ha). auto. }
  destruct E as (u & -> & <-). rewrite <- app_assoc. apply requirements_app_LF.
Qed.

Lemma readlines_elem t line :
  line ∈ Setup.readlines t ->
  exists l a b, t = a ++ l ++ b /\ (LF ∉ l) /\ (line = l ++ [LF] \/ line = l).
Proof.
  destruct (text_lines t) as (ls & l & -> & Hls & Hl).
  rewrite readlines_terminated by assumption. intros H.
  apply elem_of_app in H as [H|H].
  - apply list_elem_of_fmap in H as (l0 & -> & H0).
    apply list_elem_of_split in H0 as (ls1 & ls2 & ->).
    exists l0, (concat (map (fun l => l ++ [LF]) ls1)),
      ([LF] ++ concat (map (fun l => l ++ [LF]) ls2) ++ l).
    split; [|split].
    + rewrite map_app, concat_app. cbn [map concat]. rewrite <- !app_assoc. reflexivity.
    + apply Forall_app in Hls as [_ Hls]. inversion Hls; assumption.
    + left. reflexivity.
  - destruct l as [|c l]; [inversion H|]. apply list_elem_of_singleton in H as ->.
    exists (c :: l), (concat (map (fun l => l ++ [LF]) ls)), [].
    rewrite app_nil_r. auto.
Qed.

(** X1. Every requirement returned by [parse_requirements] is a
    non-empty line without surrounding white space that does not start
    with [#] and holds no line break. *)
Theorem parse_requirements_clean filename σ reqs :
  Setup.parse_requirements filename σ = Setup.Returns reqs ->
  Forall (fun r => r <> [] /\ strip r = r
                   /\ Setup.startswith (lit "#") r = false
                   /\ (LF ∉ r) /\ (13%N ∉ r)) reqs.
Proof.
  unfold Setup.parse_requirements, Setup.open_r.
  destruct (files σ !! filename) as [content|]; [|discriminate].
  intros [= <-]. apply Forall_forall. intros r Hr.
  apply list_elem_of_In, List.filter_In in Hr as [Hr Hk].
  apply in_map_iff in Hr as (line & <- & Hline).
  apply list_elem_of_In, readlines_elem in Hline as (l & a & b & Et & Hl & Hline).
  assert (Es : strip line = strip l) by (destruct Hline as [->| ->]; [apply strip_LF|reflexivity]).
  unfold Setup.kept in Hk. apply andb_true_iff in Hk as [Hne Hhash].
  rewrite Es in *. split; [|split; [|split; [|split]]].
  - intros E. rewrite E in Hne. discriminate Hne.
  - apply strip_by_idem.
  - apply negb_true_iff, Hhash.
  - destruct (strip_by_split isspace l) as (a' & b' & E & _).
    intros H. apply Hl. rewrite E. rewrite !elem_of_app. auto.
  - destruct (strip_by_split isspace l) as (a' & b' & E & _).
    intros H. apply (universal_newlines_no_CR content). rewrite Et, E.
    rewrite !elem_of_app. auto.
Qed.

Lemma parse_requirements_clean_witness :
  Forall (fun r => r <> [] /\ strip r = r
                   /\ Setup.startswith (lit "#") r = false
                   /\ (LF ∉ r) /\ (13%N ∉ r))
    [lit "faster-whisper"; lit "tqdm>=4"].
Proof.
  apply (parse_requirements_clean (lit "requirements.txt")
           {| files := {[ lit "requirements.txt" :=
                            lit "faster-whisper" ++ [13%N; LF] ++ lit "  # torch"
                            ++ [LF; LF] ++ lit "  tqdm>=4 " ]};
              dirs := ∅ |}).
  vm_compute. reflexivity.
Defined.

Lemma requirements_dropped c :
  LF ∉ c -> 13%N ∉ c -> Setup.kept (strip c) = false ->
  Setup.requirements (Setup.universal_newlines c) = [].
Proof.
  intros Hl Hc Hk.
  rewrite <- (app_nil_r c), universal_newlines_plain, app_nil_r by assumption.
  unfold Setup.requirements. cbv zeta. rewrite readlines_last by assumption.
  destruct c; [reflexivity|]. cbn [map List.filter]. rewrite Hk. reflexivity.
Qed.

(** X2. A blank line or a comment line, indented or not, changes nothing:
    with or without it between two lines of the file,
    [parse_requirements] returns the same list. *)
Theorem parse_requirements_skips filename σ σ' a c b :
  files σ !! filename = Some (a ++ c ++ [LF] ++ b) ->
  files σ' !! filename = Some (a ++ b) ->
  (a = [] \/ exists a', a = a' ++ [LF]) ->
  LF ∉ c -> 13%N ∉ c -> Setup.kept (strip c) = false ->
  Setup.parse_requirements filename σ = Setup.parse_requirements filename σ'.
Proof.
  intros Hf Hf' Ha Hl Hc Hk. unfold Setup.parse_requirements, Setup.open_r.
  unfold pystr in *. rewrite Hf, Hf'. f_equal.
  assert (E : Setup.requirements (Setup.universal_newlines (c ++ [LF] ++ b))
              = Setup.requirements (Setup.universal_newlines b)).
  { cbn [app]. rewrite requirements_file_app_LF, requirements_dropped by assumption.
    reflexivity. }
  destruct Ha as [->|(a' & ->)]; [exact E|].
  rewrite <- !app_assoc. cbn [app].
  rewrite !(requirements_file_app_LF a'). f_equal. exact E.
Qed.

Lemma parse_requirements_skips_witness :
  Setup.parse_requirements (lit "r")
    {| files := {[ lit "r" := (lit "a" ++ [LF]) ++ lit " # b" ++ [LF] ++ lit "c" ]};
       dirs := ∅ |}
  = Setup.parse_requirements (lit "r")
      {| files := {[ lit "r" := (lit "a" ++ [LF]) ++ lit "c" ]}; dirs := ∅ |}.
Proof.
  apply (parse_requirements_skips (lit "r") _ _ (lit "a" ++ [LF]) (lit " # b") (lit "c")).
  - reflexivity.
  - reflexivity.
  - right. exists (lit "a"). reflexivity.
  - vm_compute. intros H. repeat (inversion H as [|? ? ? H']; subst; clear H; rename H' into H).
  - vm_compute. intros H. repeat (inversion H as [|? ? ? H']; subst; clear H; rename H' into H).
  - reflexivity.
Defined.

Lemma head_lines term ls last :
  head term <> Some LF -> term <> [] ->
  Forall (fun l => LF ∉ l) (ls ++ [last]) ->
  head (concat (map (fun l => l ++ term) ls) ++ last) <> Some LF.
Proof.
  intros Ht Hne Hls.
  assert (Hhead : forall l z, LF ∉ l -> head z <> Some LF -> head (l ++ z) <> Some LF).
  { intros [|c l] z Hl Hz; [exact Hz|]. cbn. intros [= ->].
    apply Hl. left. }
  destruct ls as [|l ls]; cbn [map concat app].
  - inversion Hls as [|? ? Hl _]; subst. rewrite <- (app_nil_r last).
    apply Hhead; [exact Hl|discriminate].
  - inversion Hls as [|? ? Hl _]; subst. rewrite <- !app_assoc.
    apply Hhead; [exact Hl|]. destruct term; [contradiction|exact Ht].
Qed.

Lemma universal_newlines_CR r :
  head r <> Some LF ->
  Setup.universal_newlines (13%N :: r) = LF :: Setup.universal_newlines r.
Proof.
  intros Hr. rewrite universal_newlines_cons_CR. destruct r as [|c r]; [reflexivity|].
  destruct (N.eqb_spec c LF) as [->|]; [|reflexivity].
  exfalso. apply Hr. reflexivity.
Qed.

(** Lines ended by a line feed, by a carriage return and a line feed, or
    by a carriage return alone, are read as lines ended by a line feed. *)
Lemma universal_newlines_lines term ls last :
  term ∈ [[LF]; [13%N; LF]; [13%N]] ->
  Forall (fun l => (LF ∉ l) /\ (13%N ∉ l)) (ls ++ [last]) ->
  Setup.universal_newlines (concat (map (fun l => l ++ term) ls) ++ last)
  = concat (map (fun l => l ++ [LF]) ls) ++ last.
Proof.
  intros Hterm. induction ls as [|l ls IH]; intros Hls; cbn [map concat app].
  - inversion Hls as [|? ? [_ Hl] _]; subst.
    rewrite <- (app_nil_r last) at 1. rewrite universal_newlines_plain by assumption.
    apply app_nil_r.
  - inversion Hls as [|? ? [Hl Hc] Hls']; subst. rewrite <- !app_assoc.
    rewrite universal_newlines_plain by assumption. f_equal. cbn [app].
    rewrite <- (IH Hls').
    assert (Hhead : head (concat (map (fun l => l ++ [13%N]) ls) ++ last) <> Some LF).
    { apply head_lines; [discriminate|discriminate|].
      eapply Forall_impl; [exact Hls'|]. intros x [Hx _]. exact Hx. }
    repeat (apply elem_of_cons in Hterm as [->|Hterm]).
    + reflexivity.
    + reflexivity.
    + cbn [app]. apply universal_newlines_CR, Hhead.
    + inversion Hterm.
Qed.

(** X3. Whatever ends the lines of the file (a line feed, a carriage
    return and a line feed, or a carriage return alone, the last line
    ended or not), [parse_requirements] returns the stripped lines that
    are neither empty nor comments, in the order of the file. *)
Theorem parse_requirements_line_endings filename σ ls last term :
  term ∈ [[LF]; [13%N; LF]; [13%N]] ->
  Forall (fun l => (LF ∉ l) /\ (13%N ∉ l)) (ls ++ [last]) ->
  files σ !! filename = Some (concat (map (fun l => l ++ term) ls) ++ last) ->
  Setup.parse_requirements filename σ
  = Setup.Returns (List.filter Setup.kept (map strip (ls ++ [last]))).
Proof.
  intros Hterm Hls Hf. unfold Setup.parse_requirements, Setup.open_r.
  unfold pystr in *. rewrite Hf. f_equal.
  rewrite universal_newlines_lines by assumption.
  apply Forall_app in Hls as [Hls Hlast]. inversion Hlast as [|? ? [Hl _] _]; subst.
  apply requirements_terminated; [|exact Hl].
  eapply Forall_impl; [exact Hls|]. intros x [Hx _]. exact Hx.
Qed.

Lemma parse_requirements_line_endings_witness :
  Setup.parse_requirements (lit "requirements.txt")
    {| files := {[ lit "requirements.txt" :=
                     concat (map (fun l => l ++ [13%N; LF])
                               [lit "faster-whisper"; lit "# gpu"; lit " torch "])
                     ++ lit "tqdm" ]};
       dirs := ∅ |}
  = Setup.Returns [lit "faster-whisper"; lit "torch"; lit "tqdm"].
Proof.
  apply (parse_requirements_line_endings (lit "requirements.txt") _
           [lit "faster-whisper"; lit "# gpu"; lit " torch "] (lit "tqdm")
           [13%N; LF]).
  - right. left.
  - repeat constructor; vm_compute; intros H;
      repeat (inversion H as [|? ? ? H']; subst; clear H; rename H' into H).
  - reflexivity.
Defined.


(** ** The prompts *)

(** A prompt returns at the first line it takes, and fails only when the
    input ends before such a line. *)
Lemma retry_inv {A} (answer : pystr -> option A) stdin :
  match retry answer stdin with
  | Ok (v, rest) =>
      exists bad line, stdin = bad ++ line :: rest
        /\ Forall (fun l => answer l = None) bad /\ answer line = Some v
  | Raise e => e = EOFError /\ Forall (fun l => answer l = None) stdin
  end.
Proof.
  induction stdin as [|l stdin IH]; cbn [retry]; [split; [reflexivity|constructor]|].
  destruct (answer l) as [v|] eqn:E.
  - exists [], l. split; [reflexivity|]. split; [constructor|exact E].
  - destruct (retry answer stdin) as [[v rest]|e].
    + destruct IH as (bad & line & -> & Hbad & Hline).
      exists (l :: bad), line. split; [reflexivity|]. split; [|exact Hline].
      constructor; assumption.
    + destruct IH as [-> IH]. split; [reflexivity|]. constructor; assumption.
Qed.

Lemma choice_answer_offered `{Builtins} options default line o :
  choice_answer options default line = Some o ->
  o ∈ options \/ default = Some o.
Proof.
  destruct default as [d|].
  - intros Ho. apply choice_answer_valid in Ho as [->|Ho]; auto.
  - unfold choice_answer. intros Ho. left.
    assert (Hint : match py_int (strip line) with
                   | Some choice =>
                       if (1 <=? choice) && (choice <=? Z.of_nat (length options))
                       then options !! Z.to_nat (choice - 1)
                       else None
                   | None => None
                   end = Some o) by (destruct (strip line); exact Ho).
    destruct (py_int (strip line)) as [choice|]; [|discriminate].
    destruct (_ && _); [|discriminate]. exact (list_elem_of_lookup_2 _ _ _ Hint).
Qed.

(** X4. [get_user_choice] returns one of the options offered or the
    default, at the first line that answers the prompt and with the lines
    after it left unread; it fails only when the input ends before such a
    line, and never by an index out of range. *)
Theorem get_user_choice_offered `{Builtins} (options : list pystr)
  (default : option pystr) (stdin : list pystr) :
  match get_user_choice options default stdin with
  | Ok (v, rest) =>
      (v ∈ options \/ default = Some v)
      /\ exists bad line, stdin = bad ++ line :: rest
           /\ Forall (fun l => choice_answer options default l = None) bad
           /\ choice_answer options default line = Some v
  | Raise e =>
      e = EOFError
      /\ Forall (fun l => choice_answer options default l = None) stdin
  end.
Proof.
  rewrite get_user_choice_retry.
  pose proof (retry_inv (choice_answer options default) stdin) as Hinv.
  destruct (retry (choice_answer options default) stdin) as [[v rest]|e];
    [|exact Hinv].
  split; [|exact Hinv]. destruct Hinv as (bad & line & _ & _ & Hline).
  exact (choice_answer_offered _ _ _ _ Hline).
Qed.

(** X5. With nothing to choose from and no default, no line answers the
    prompt: [get_user_choice] reads the whole input and never returns a
    value. *)
Theorem get_user_choice_nothing `{Builtins} (stdin : list pystr) :
  get_user_choice [] None stdin = Raise EOFError.
Proof.
  rewrite get_user_choice_retry.
  assert (Hno : forall line, choice_answer [] None line = None).
  { intros line. unfold choice_answer.
    assert (Hint : match py_int (strip line) with
                   | Some choice =>
                       if (1 <=? choice) && (choice <=? Z.of_nat (length (@nil pystr)))
                       then (@nil pystr) !! Z.to_nat (choice - 1)
                       else None
                   | None => None
                   end = None).
    { destruct (py_int (strip line)) as [choice|]; [|reflexivity].
      destruct (_ && _); reflexivity. }
    destruct (strip line); exact Hint. }
  induction stdin as [|l stdin IH]; cbn [retry]; [reflexivity|].
  rewrite Hno. exact IH.
Qed.

(** The steps of [interactive_setup] when it returns. *)
Lemma interactive_setup_inv `{Builtins} σ has_gpu args stdin args' rest :
  interactive_setup σ has_gpu args stdin = Ok (args', rest) ->
  exists p s1 dev s2 msize s3 ctype s4 threads s5 beam l7 l8 l9,
    ask_file σ stdin = Ok (p, s1)
    /\ (if has_gpu
        then get_user_choice [lit "cuda"; lit "cpu"] (Some (lit "cuda")) s1 = Ok (dev, s2)
        else dev = lit "cpu" /\ s2 = s1)
    /\ get_user_choice
         [lit "tiny"; lit "base"; lit "small"; lit "medium"; lit "large-v2";
          lit "large-v3"] (Some (lit "medium")) s2 = Ok (msize, s3)
    /\ get_user_choice
         (if str_eqb dev (lit "cuda")
          then [lit "float16"; lit "int8_float16"; lit "int8"]
          else [lit "int8"; lit "float32"])
         (Some (if str_eqb dev (lit "cuda") then lit "float16" else lit "int8")) s3
       = Ok (ctype, s4)
    /\ (if str_eqb dev (lit "cpu")
        then ask_cpu_threads s4 = Ok (threads, s5)
        else threads = cpu_threads args /\ s5 = s4)
    /\ ask_beam_size s5 = Ok (beam, l7 :: l8 :: l9 :: rest)
    /\ args' = {| file := Some p;
                  language := if is_empty (strip l7) then None else Some (strip l7);
                  output_dir := if is_empty (strip l8) then lit "output" else strip l8;
                  formats := if is_empty (str_lower (strip l9)) then lit "srt"
                             else str_lower (strip l9);
                  model_size := msize; device := dev; compute_type := ctype;
                  cpu_threads := threads; beam_size := beam |}.
Proof.
  unfold interactive_setup. intros Hrun.
  destruct (ask_file σ stdin) as [[p s1]|]; [|discriminate]. cbn [bind] in Hrun.
  exists p, s1.
  assert (Hdev : exists dev s2,
            (if 1 <? Z.of_nat (length (if has_gpu then [lit "cuda"; lit "cpu"]
                                       else [lit "cpu"]))
             then get_user_choice (if has_gpu then [lit "cuda"; lit "cpu"]
                                   else [lit "cpu"])
                    (Some (if has_gpu then lit "cuda" else lit "cpu")) s1
             else Ok (if has_gpu then lit "cuda" else lit "cpu", s1)) = Ok (dev, s2)
            /\ (if has_gpu
                then get_user_choice [lit "cuda"; lit "cpu"] (Some (lit "cuda")) s1
                     = Ok (dev, s2)
                else dev = lit "cpu" /\ s2 = s1)).
  { destruct (if 1 <? Z.of_nat (length (if has_gpu then [lit "cuda"; lit "cpu"]
                                        else [lit "cpu"]))
              then get_user_choice (if has_gpu then [lit "cuda"; lit "cpu"]
                                    else [lit "cpu"])
                     (Some (if has_gpu then lit "cuda" else lit "cpu")) s1
              else Ok (if has_gpu then lit "cuda" else lit "cpu", s1))
      as [[dev s2]|] eqn:E; [|discriminate].
    exists dev, s2. split; [reflexivity|].
    destruct has_gpu; [exact E|]. injection E as <- <-. auto. }
  destruct Hdev as (dev & s2 & Edev & Hdev). rewrite Edev in Hrun. cbn [bind] in Hrun.
  exists dev, s2.
  destruct (get_user_choice _ (Some (lit "medium")) s2) as [[msize s3]|]; [|discriminate].
  cbn [bind] in Hrun. exists msize, s3.
  destruct (str_eqb dev (lit "cuda")).
  - destruct (get_user_choice _ (Some (lit "float16")) s3) as [[ctype s4]|];
      [|discriminate].
    cbn [bind] in Hrun. exists ctype, s4.
    destruct (str_eqb dev (lit "cpu")).
    + destruct (ask_cpu_threads s4) as [[threads s5]|]; [|discriminate].
      cbn [bind] in Hrun. exists threads, s5.
      destruct (ask_beam_size s5) as [[beam s6]|]; [|discriminate]. cbn [bind] in Hrun.
      destruct s6 as [|l7 [|l8 [|l9 s9]]]; try discriminate.
      cbn [input bind] in Hrun. injection Hrun as <- <-.
      exists beam, l7, l8, l9. auto 10.
    + cbn [bind] in Hrun. exists (cpu_threads args), s4.
      destruct (ask_beam_size s4) as [[beam s6]|]; [|discriminate]. cbn [bind] in Hrun.
      destruct s6 as [|l7 [|l8 [|l9 s9]]]; try discriminate.
      cbn [input bind] in Hrun. injection Hrun as <- <-.
      exists beam, l7, l8, l9. auto 10.
  - destruct (get_user_choice _ (Some (lit "int8")) s3) as [[ctype s4]|];
      [|discriminate].
    cbn [bind] in Hrun. exists ctype, s4.
    destruct (str_eqb dev (lit "cpu")).
    + destruct (ask_cpu_threads s4) as [[threads s5]|]; [|discriminate].
      cbn [bind] in Hrun. exists threads, s5.
      destruct (ask_beam_size s5) as [[beam s6]|]; [|discriminate]. cbn [bind] in Hrun.
      destruct s6 as [|l7 [|l8 [|l9 s9]]]; try discriminate.
      cbn [input bind] in Hrun. injection Hrun as <- <-.
      exists beam, l7, l8, l9. auto 10.
    + cbn [bind] in Hrun. exists (cpu_threads args), s4.
      destruct (ask_beam_size s4) as [[beam s6]|]; [|discriminate]. cbn [bind] in Hrun.
      destruct s6 as [|l7 [|l8 [|l9 s9]]]; try discriminate.
      cbn [input bind] in Hrun. injection Hrun as <- <-.
      exists beam, l7, l8, l9. auto 10.
Qed.

Lemma get_user_choice_default `{Builtins} options d stdin v rest :
  get_user_choice options (Some d) stdin = Ok (v, rest) -> v = d \/ v ∈ options.
Proof.
  rewrite get_user_choice_retry. intros Hr.
  apply retry_returns in Hr as (line & Hline).
  exact (choice_answer_valid _ _ _ _ Hline).
Qed.

Lemma interactive_setup_settings `{Builtins} (σ : fs) (has_gpu : bool)
  (args : Args) (stdin : list pystr) (args' : Args) (rest : list pystr) :
  interactive_setup σ has_gpu args stdin = Ok (args', rest) ->
  model_size args' ∈ [lit "tiny"; lit "base"; lit "small"; lit "medium";
                      lit "large-v2"; lit "large-v3"]
  /\ (device args' = lit "cuda" /\ has_gpu = true
      /\ compute_type args' ∈ [lit "float16"; lit "int8_float16"; lit "int8"]
      \/ device args' = lit "cpu"
         /\ compute_type args' ∈ [lit "int8"; lit "float32"]).
Proof.
  intros Hrun. apply interactive_setup_inv in Hrun
    as (p & s1 & dev & s2 & msize & s3 & ctype & s4 & threads & s5 & beam
        & l7 & l8 & l9 & _ & Hdev & Hsize & Htype & _ & _ & ->).
  cbn [model_size device compute_type]. split.
  - apply get_user_choice_default in Hsize as [->|Hsize]; [|exact Hsize].
    do 3 right. left.
  - assert (Hd : dev = lit "cuda" /\ has_gpu = true \/ dev = lit "cpu").
    { destruct has_gpu.
      - apply get_user_choice_default in Hdev as [->|Hdev]; [left; auto|].
        apply elem_of_cons in Hdev as [->|Hdev]; [left; auto|].
        apply list_elem_of_singleton in Hdev as ->. right. reflexivity.
      - destruct Hdev as [-> _]. right. reflexivity. }
    destruct Hd as [[-> Hg]| ->].
    + left. split; [reflexivity|]. split; [exact Hg|].
      change (str_eqb (lit "cuda") (lit "cuda")) with true in Htype. cbv iota in Htype.
      apply get_user_choice_default in Htype as [->|Htype]; [left|exact Htype].
    + right. split; [reflexivity|].
      change (str_eqb (lit "cpu") (lit "cuda")) with false in Htype. cbv iota in Htype.
      apply get_user_choice_default in Htype as [->|Htype]; [left|exact Htype].
Qed.

(** X6. The settings [interactive_setup] returns fit together: the model
    size is one of the six names offered, the device is [cuda] only where
    a GPU is available, and the compute type is one of those offered for
    the device chosen. *)
Theorem interactive_setup_choices `{Builtins} (σ : fs) (has_gpu : bool)
  (args : Args) (stdin : list pystr) (args' : Args) (rest : list pystr) :
  interactive_setup σ has_gpu args stdin = Ok (args', rest) ->
  model_size args' ∈ [lit "tiny"; lit "base"; lit "small"; lit "medium";
                      lit "large-v2"; lit "large-v3"]
  /\ (device args' = lit "cuda" /\ has_gpu = true
      /\ compute_type args' ∈ [lit "float16"; lit "int8_float16"; lit "int8"]
      \/ device args' = lit "cpu"
         /\ compute_type args' ∈ [lit "int8"; lit "float32"]).
Proof. apply interactive_setup_settings. Qed.

Lemma interactive_setup_choices_witness :
  model_size Demo.answered ∈ [lit "tiny"; lit "base"; lit "small"; lit "medium";
                              lit "large-v2"; lit "large-v3"]
  /\ (device Demo.answered = lit "cuda" /\ false = true
      /\ compute_type Demo.answered ∈ [lit "float16"; lit "int8_float16"; lit "int8"]
      \/ device Demo.answered = lit "cpu"
         /\ compute_type Demo.answered ∈ [lit "int8"; lit "float32"]).
Proof.
  apply (@interactive_setup_choices Ascii_builtins.ascii Demo.disk false
           Demo.defaults Demo.typed Demo.answered [lit "unread"]).
  vm_compute. reflexivity.
Defined.

(** X7. The three free-text settings are never empty: a blank answer
    gives no language at all, the directory [output] and the format
    [srt]; a language and a directory are returned stripped. *)
Theorem interactive_setup_free_text `{Builtins} (σ : fs) (has_gpu : bool)
  (args : Args) (stdin : list pystr) (args' : Args) (rest : list pystr) :
  interactive_setup σ has_gpu args stdin = Ok (args', rest) ->
  language args' <> Some []
  /\ (forall l, language args' = Some l -> strip l = l)
  /\ output_dir args' <> []
  /\ strip (output_dir args') = output_dir args'
  /\ formats args' <> [].
Proof.
  intros Hrun. apply interactive_setup_inv in Hrun
    as (p & s1 & dev & s2 & msize & s3 & ctype & s4 & threads & s5 & beam
        & l7 & l8 & l9 & _ & _ & _ & _ & _ & _ & ->).
  cbn [language output_dir formats].
  split; [|split; [|split; [|split]]].
  - destruct (strip l7) eqn:E; cbn [is_empty]; discriminate.
  - intros l. destruct (strip l7) as [|c t] eqn:E; cbn [is_empty]; [discriminate|].
    intros [= <-]. rewrite <- E. apply strip_by_idem.
  - destruct (strip l8) eqn:E; cbn [is_empty]; discriminate.
  - destruct (strip l8) as [|c t] eqn:E; cbn [is_empty]; [reflexivity|].
    rewrite <- E. apply strip_by_idem.
  - destruct (str_lower (strip l9)) eqn:E; cbn [is_empty]; discriminate.
Qed.

Lemma interactive_setup_free_text_witness :
  language Demo.answered <> Some []
  /\ (forall l, language Demo.answered = Some l -> strip l = l)
  /\ output_dir Demo.answered <> []
  /\ strip (output_dir Demo.answered) = output_dir Demo.answered
  /\ formats Demo.answered <> [].
Proof.
  apply (@interactive_setup_free_text Ascii_builtins.ascii Demo.disk false
           Demo.defaults Demo.typed Demo.answered [lit "unread"]).
  vm_compute. reflexivity.
Defined.

(** X8. Of the namespace passed in, [interactive_setup] reads nothing but
    [cpu_threads]: every other setting is asked again or set to its
    default; and [cpu_threads] is kept as passed in, without a check,
    exactly when the device chosen is [cuda]. *)
Theorem interactive_setup_namespace `{Builtins} (σ : fs) (has_gpu : bool)
  (args : Args) (stdin : list pystr) :
  (forall args2, cpu_threads args2 = cpu_threads args ->
     interactive_setup σ has_gpu args2 stdin = interactive_setup σ has_gpu args stdin)
  /\ (forall args' rest,
        interactive_setup σ has_gpu args stdin = Ok (args', rest) ->
        device args' = lit "cuda" -> cpu_threads args' = cpu_threads args)
  /\ (forall args' rest args2,
        interactive_setup σ has_gpu args stdin = Ok (args', rest) ->
        device args' = lit "cpu" ->
        interactive_setup σ has_gpu args2 stdin = Ok (args', rest)).
Proof.
  split; [|split].
  - intros args2 E. unfold interactive_setup. rewrite E. reflexivity.
  - intros args' rest Hrun. apply interactive_setup_inv in Hrun
      as (p & s1 & dev & s2 & msize & s3 & ctype & s4 & threads & s5 & beam
          & l7 & l8 & l9 & _ & _ & _ & _ & Hthr & _ & ->).
    cbn [device cpu_threads]. intros ->.
    change (str_eqb (lit "cuda") (lit "cpu")) with false in Hthr.
    destruct Hthr as [-> _]. reflexivity.
  - intros args' rest args2 Hrun Hcpu. rewrite <- Hrun.
    pose proof Hrun as Hinv. apply interactive_setup_inv in Hinv
      as (p & s1 & dev & s2 & msize & s3 & ctype & s4 & threads & s5 & beam
          & l7 & l8 & l9 & Hfile & Hdev & Hsize & Htype & Hthr & Hbeam & ->).
    cbn [device] in Hcpu. subst dev.
    assert (Edev : (if 1 <? Z.of_nat (length (if has_gpu then [lit "cuda"; lit "cpu"]
                                              else [lit "cpu"]))
                    then get_user_choice (if has_gpu then [lit "cuda"; lit "cpu"]
                                          else [lit "cpu"])
                           (Some (if has_gpu then lit "cuda" else lit "cpu")) s1
                    else Ok (if has_gpu then lit "cuda" else lit "cpu", s1))
                   = Ok (lit "cpu", s2)).
    { destruct has_gpu; [exact Hdev|]. destruct Hdev as [_ ->]. reflexivity. }
    unfold interactive_setup. rewrite Hfile. cbn [bind]. rewrite Edev. cbn [bind].
    reflexivity.
Qed.

Lemma get_user_choice_blank `{Builtins} options d line rest :
  strip line = [] -> get_user_choice options (Some d) (line :: rest) = Ok (d, rest).
Proof. intros Hs. cbn [get_user_choice]. rewrite Hs. reflexivity. Qed.

(** X9. Once the file is given, a blank answer to each of the seven
    prompts that follow gives the defaults the prompts announce: the GPU
    with [float16] where there is one and the CPU with [int8] and
    automatic threads otherwise, the model [medium], beam size 5, language
    detection, the directory [output] and the format [srt]. *)
Theorem interactive_setup_defaults `{Builtins} (σ : fs) (has_gpu : bool)
  (args : Args) (line : pystr) (blank rest : list pystr) (p : pystr) :
  str_lower [] = [] ->
  file_answer σ line = Some p ->
  length blank = 7%nat -> Forall (fun l => strip l = []) blank ->
  interactive_setup σ has_gpu args (line :: blank ++ rest)
  = Ok ({| file := Some p; language := None; output_dir := lit "output";
           formats := lit "srt"; model_size := lit "medium";
           device := if has_gpu then lit "cuda" else lit "cpu";
           compute_type := if has_gpu then lit "float16" else lit "int8";
           cpu_threads := if has_gpu then cpu_threads args else 0;
           beam_size := 5 |}, rest).
Proof.
  intros Hlower Hfile Hlen Hblank.
  destruct blank as [|b1 [|b2 [|b3 [|b4 [|b5 [|b6 [|b7 [|]]]]]]]]; try discriminate Hlen.
  rewrite !Forall_cons in Hblank.
  destruct Hblank as (H1 & H2 & H3 & H4 & H5 & H6 & H7 & _).
  unfold interactive_setup. rewrite ask_file_retry. cbn [retry app].
  rewrite Hfile. cbn [bind]. destruct has_gpu.
  - change (1 <? Z.of_nat (length [lit "cuda"; lit "cpu"])) with true. cbv iota.
    rewrite get_user_choice_blank by assumption. cbn [bind].
    rewrite get_user_choice_blank by assumption. cbn [bind].
    change (str_eqb (lit "cuda") (lit "cuda")) with true. cbv iota.
    rewrite get_user_choice_blank by assumption. cbn [bind].
    change (str_eqb (lit "cuda") (lit "cpu")) with false. cbv iota. cbn [bind].
    cbn [ask_beam_size]. rewrite H4. cbn [bind input].
    rewrite H5, H6, H7, Hlower. reflexivity.
  - change (1 <? Z.of_nat (length [lit "cpu"])) with false. cbv iota. cbn [bind].
    rewrite get_user_choice_blank by assumption. cbn [bind].
    change (str_eqb (lit "cpu") (lit "cuda")) with false. cbv iota.
    rewrite get_user_choice_blank by assumption. cbn [bind].
    change (str_eqb (lit "cpu") (lit "cpu")) with true. cbv iota.
    cbn [ask_cpu_threads]. rewrite H3. cbn [bind].
    cbn [ask_beam_size]. rewrite H4. cbn [bind input].
    rewrite H5, H6, H7, Hlower. reflexivity.
Qed.

Lemma interactive_setup_defaults_witness :
  @interactive_setup Ascii_builtins.ascii Demo.disk true Demo.defaults
    (lit " a.mp3" :: [[]; lit " "; []; []; [LF]; []; []] ++ [lit "unread"])
  = Ok ({| file := Some (lit "a.mp3"); language := None; output_dir := lit "output";
           formats := lit "srt"; model_size := lit "medium";
           device := lit "cuda"; compute_type := lit "float16";
           cpu_threads := cpu_threads Demo.defaults; beam_size := 5 |},
        [lit "unread"]).
Proof.
  apply (@interactive_setup_defaults Ascii_builtins.ascii Demo.disk true
           Demo.defaults (lit " a.mp3") [[]; lit " "; []; []; [LF]; []; []]
           [lit "unread"] (lit "a.mp3")).
  - reflexivity.
  - vm_compute. reflexivity.
  - reflexivity.
  - repeat constructor.
Defined.

(** What stands at the two ends of a text made of parts. *)
Lemma ends_app (P : codepoint -> Prop) (x y : pystr) :
  (forall c, head x = Some c \/ last x = Some c -> P c) ->
  (forall c, head y = Some c \/ last y = Some c -> P c) ->
  forall c, head (x ++ y) = Some c \/ last (x ++ y) = Some c -> P c.
Proof.
  intros Hx Hy c [Hc|Hc].
  - destruct x as [|d x]; [apply Hy; left; exact Hc|]. apply Hx. left. exact Hc.
  - destruct y as [|d y].
    + rewrite app_nil_r in Hc. apply Hx. right. exact Hc.
    + rewrite last_app_cons in Hc. apply Hy. right. exact Hc.
Qed.

Lemma ends_all (P : codepoint -> Prop) (x : pystr) :
  Forall P x -> forall c, head x = Some c \/ last x = Some c -> P c.
Proof.
  intros Hx c [Hc|Hc]; rewrite Forall_forall in Hx; apply Hx.
  - destruct x; [discriminate|]. injection Hc as ->. left.
  - apply last_Some in Hc as (x' & ->). apply elem_of_app. right. left.
Qed.

Lemma strip_by_between p a m b :
  forallb p a = true -> forallb p b = true ->
  (forall c, head m = Some c \/ last m = Some c -> p c = false) ->
  strip_by p (a ++ m ++ b) = m.
Proof.
  intros Ha Hb Hm. destruct m as [|c t].
  - apply strip_by_all. rewrite forallb_app, Ha. exact Hb.
  - assert (Hc : p c = false) by (apply Hm; left; reflexivity).
    destruct (rev t) as [|d m'] eqn:Et.
    + apply (f_equal (@rev _)) in Et. rewrite rev_involutive in Et. subst t.
      apply (strip_by_core p a c [] c b); assumption.
    + apply (f_equal (@rev _)) in Et. rewrite rev_involutive in Et. cbn [rev] in Et.
      subst t. apply (strip_by_core p a c (rev m') d b); try assumption.
      apply Hm. right. rewrite app_comm_cons. apply last_snoc.
Qed.

Lemma all_eqb_Forall q (l : pystr) :
  forallb (N.eqb q) l = true -> Forall (eq q) l.
Proof.
  intros H. apply Forall_forall. intros c Hc.
  rewrite forallb_forall in H. apply N.eqb_eq, H, list_elem_of_In, Hc.
Qed.

Lemma strip_chars_between q a m b :
  forallb (N.eqb q) a = true -> forallb (N.eqb q) b = true ->
  (forall c, head m = Some c \/ last m = Some c -> c <> q) ->
  strip_chars [q] (a ++ m ++ b) = m.
Proof.
  intros Ha Hb Hm. unfold strip_chars.
  assert (Hall : forall l, forallb (N.eqb q) l = true ->
                   forallb (fun c => existsb (N.eqb c) [q]) l = true).
  { intros l Hl. rewrite forallb_forall in Hl |- *. intros c Hc.
    apply Hl in Hc. apply N.eqb_eq in Hc as <-. cbn. rewrite N.eqb_refl. reflexivity. }
  apply strip_by_between; [apply Hall, Ha|apply Hall, Hb|].
  intros c Hc. apply Hm in Hc. cbn. destruct (N.eqb_spec c q); [contradiction|reflexivity].
Qed.

(** X10. A path pasted between double quotes, between apostrophes, or
    between apostrophes inside double quotes, with blanks around, is
    taken without them: the prompt for the file returns the bare path as
    soon as it names a regular file. *)
Theorem ask_file_quoted (σ : fs) (ws1 q1 a1 p a2 q2 ws2 : pystr)
  (rest : list pystr) :
  forallb isspace ws1 = true -> forallb isspace ws2 = true ->
  forallb (N.eqb QUOTE) q1 = true -> forallb (N.eqb QUOTE) q2 = true ->
  forallb (N.eqb APOSTROPHE) a1 = true -> forallb (N.eqb APOSTROPHE) a2 = true ->
  (forall c, head p = Some c \/ last p = Some c ->
     isspace c = false /\ c <> QUOTE /\ c <> APOSTROPHE) ->
  isfile p σ = true ->
  ask_file σ ((ws1 ++ q1 ++ a1 ++ p ++ a2 ++ q2 ++ ws2) :: rest) = Ok (p, rest).
Proof.
  intros Hw1 Hw2 Hq1 Hq2 Ha1 Ha2 Hp Hfile. cbn [ask_file].
  assert (Hq : forall l, forallb (N.eqb QUOTE) l = true ->
                 forall c, head l = Some c \/ last l = Some c ->
                   isspace c = false /\ c <> APOSTROPHE).
  { intros l Hl. apply ends_all. eapply Forall_impl; [apply all_eqb_Forall, Hl|].
    intros c <-. split; [reflexivity|discriminate]. }
  assert (Ha : forall l, forallb (N.eqb APOSTROPHE) l = true ->
                 forall c, head l = Some c \/ last l = Some c ->
                   isspace c = false /\ c <> QUOTE).
  { intros l Hl. apply ends_all. eapply Forall_impl; [apply all_eqb_Forall, Hl|].
    intros c <-. split; [reflexivity|discriminate]. }
  assert (E1 : strip (ws1 ++ q1 ++ a1 ++ p ++ a2 ++ q2 ++ ws2)
               = q1 ++ (a1 ++ p ++ a2) ++ q2).
  { replace (ws1 ++ q1 ++ a1 ++ p ++ a2 ++ q2 ++ ws2)
      with (ws1 ++ (q1 ++ (a1 ++ p ++ a2) ++ q2) ++ ws2)
      by (rewrite <- !app_assoc; reflexivity).
    apply strip_by_between; [assumption..|].
    repeat apply ends_app; intros c Hc;
      first [apply (Hq _ Hq1 c Hc) | apply (Hq _ Hq2 c Hc)
            | apply (Ha _ Ha1 c Hc) | apply (Ha _ Ha2 c Hc) | apply (Hp c Hc)]. }
  rewrite E1. rewrite strip_chars_between; try assumption.
  - rewrite strip_chars_between; try assumption.
    + rewrite Hfile. unfold exists_. rewrite Hfile. reflexivity.
    + intros c Hc. apply (Hp c Hc).
  - repeat apply ends_app; intros c Hc;
      first [apply (Ha _ Ha1 c Hc) | apply (Ha _ Ha2 c Hc) | apply (Hp c Hc)].
Qed.

Lemma ask_file_quoted_witness :
  ask_file Demo.disk
    ((lit "  " ++ [QUOTE] ++ [APOSTROPHE] ++ lit "a.mp3" ++ [APOSTROPHE] ++ [QUOTE]
      ++ [LF]) :: [lit "unread"])
  = Ok (lit "a.mp3", [lit "unread"]).
Proof.
  apply (ask_file_quoted Demo.disk (lit "  ") [QUOTE] [APOSTROPHE] (lit "a.mp3")
           [APOSTROPHE] [QUOTE] [LF] [lit "unread"]); try reflexivity.
  intros c [Hc|Hc]; vm_compute in Hc; injection Hc as <-;
    (split; [reflexivity|split; discriminate]).
Defined.

(** ** The start of [main] *)

Lemma model_kwargs_facts (has_gpu : bool) (args : Args) :
  Launch.model_kwargs has_gpu args !! lit "device"
  = Some (Launch.KStr (Launch.resolve_device has_gpu args))
  /\ Launch.model_kwargs has_gpu args !! lit "compute_type"
     = Some (Launch.KStr (Launch.resolve_compute_type
                            (Launch.resolve_device has_gpu args) args))
  /\ Launch.model_kwargs has_gpu args !! lit "cpu_threads"
     = (if str_eqb (Launch.resolve_device has_gpu args) (lit "cpu")
        then Some (Launch.KInt (cpu_threads args)) else None).
Proof.
  unfold Launch.model_kwargs.
  set (d := Launch.resolve_device has_gpu args).
  set (c := Launch.resolve_compute_type d args).
  assert (Hne1 : lit "compute_type" <> lit "device") by discriminate.
  assert (Hne2 : lit "cpu_threads" <> lit "device") by discriminate.
  assert (Hne3 : lit "cpu_threads" <> lit "compute_type") by discriminate.
  split; [|split].
  - destruct (str_eqb d (lit "cpu"));
      rewrite ?(lookup_insert_ne _ (lit "cpu_threads")) by exact Hne2;
      rewrite lookup_insert_ne by exact Hne1; apply lookup_insert_eq.
  - destruct (str_eqb d (lit "cpu"));
      rewrite ?(lookup_insert_ne _ (lit "cpu_threads")) by exact Hne3;
      apply lookup_insert_eq.
  - destruct (str_eqb d (lit "cpu")); [apply lookup_insert_eq|].
    rewrite !lookup_insert_ne by congruence. apply lookup_empty.
Qed.

(** X11. The keyword dict built for the model holds [device] and
    [compute_type] as resolved, [cpu_threads] exactly when the device is
    [cpu], and no other key; the compute type passed is never [auto], and
    a device [auto], [cuda] or [cpu] is passed as [cuda] or [cpu], [auto]
    becoming [cuda] exactly where a GPU is available. *)
Theorem model_kwargs_resolved (has_gpu : bool) (args : Args) :
  let d := Launch.resolve_device has_gpu args in
  let c := Launch.resolve_compute_type d args in
  Launch.model_kwargs has_gpu args !! lit "device" = Some (Launch.KStr d)
  /\ Launch.model_kwargs has_gpu args !! lit "compute_type" = Some (Launch.KStr c)
  /\ Launch.model_kwargs has_gpu args !! lit "cpu_threads"
     = (if str_eqb d (lit "cpu") then Some (Launch.KInt (cpu_threads args)) else None)
  /\ (forall k, is_Some (Launch.model_kwargs has_gpu args !! k) ->
        k ∈ [lit "device"; lit "compute_type"; lit "cpu_threads"])
  /\ c <> lit "auto"
  /\ (compute_type args = lit "auto" ->
      c = if str_eqb d (lit "cuda") then lit "float16" else lit "int8")
  /\ (device args ∈ [lit "auto"; lit "cuda"; lit "cpu"] ->
      d ∈ [lit "cuda"; lit "cpu"]
      /\ (device args = lit "auto" -> d = if has_gpu then lit "cuda" else lit "cpu")
      /\ (device args <> lit "auto" -> d = device args)).
Proof.
  cbv zeta. pose proof (model_kwargs_facts has_gpu args) as (Kd & Kc & Kt).
  set (d := Launch.resolve_device has_gpu args) in *.
  set (c := Launch.resolve_compute_type d args) in *.
  split; [exact Kd|]. split; [exact Kc|]. split; [exact Kt|].
  clear Kd Kc Kt. split; [|split; [|split]].
  - intros k [v Hk].
    destruct (decide (k = lit "cpu_threads")) as [->|H3]; [do 2 right; left|].
    destruct (decide (k = lit "compute_type")) as [->|H2]; [right; left|].
    destruct (decide (k = lit "device")) as [->|H1]; [left|].
    exfalso. unfold Launch.model_kwargs in Hk. fold d in Hk.
    destruct (str_eqb d (lit "cpu"));
      rewrite !lookup_insert_ne in Hk by congruence; rewrite lookup_empty in Hk;
      discriminate Hk.
  - subst c. unfold Launch.resolve_compute_type, str_eqb.
    destruct (bool_decide_reflect (compute_type args = lit "auto")) as [_|Hn];
      [|exact Hn].
    destruct (bool_decide _); discriminate.
  - intros E. subst c. unfold Launch.resolve_compute_type. rewrite E. reflexivity.
  - intros Hdev. subst d. unfold Launch.resolve_device, str_eqb.
    destruct (bool_decide_reflect (device args = lit "auto")) as [E|Hn].
    + split; [|split; [reflexivity|contradiction]].
      destruct has_gpu; [left|right; left].
    + split; [|split; [contradiction|reflexivity]].
      apply elem_of_cons in Hdev as [E|Hdev]; [contradiction|exact Hdev].
Qed.

(** X12. In interactive mode the settings returned by the prompts reach
    the model as they are: the device and the compute type are passed
    unchanged, neither being [auto], and [cpu_threads] is passed exactly
    when the CPU was chosen, with the validated number. When a file is
    given on the command line nothing is read from the input and the
    namespace is used as it is. *)
Theorem setup_then_model_kwargs `{Builtins} (σ : fs) (has_gpu : bool)
  (args : Args) (stdin : list pystr) :
  (forall c p, file args = Some (c :: p) ->
     Launch.setup σ has_gpu args stdin = Ok (args, stdin))
  /\ (forall args' rest,
        file args = None \/ file args = Some [] ->
        Launch.setup σ has_gpu args stdin = Ok (args', rest) ->
        Launch.model_kwargs has_gpu args' !! lit "device"
        = Some (Launch.KStr (device args'))
        /\ Launch.model_kwargs has_gpu args' !! lit "compute_type"
           = Some (Launch.KStr (compute_type args'))
        /\ (device args' = lit "cpu"
            /\ Launch.model_kwargs has_gpu args' !! lit "cpu_threads"
               = Some (Launch.KInt (cpu_threads args'))
            /\ 0 <= cpu_threads args'
            \/ device args' = lit "cuda"
               /\ Launch.model_kwargs has_gpu args' !! lit "cpu_threads" = None)).
Proof.
  split.
  - intros c p E. unfold Launch.setup. rewrite E. reflexivity.
  - intros args' rest Hfile Hrun.
    assert (Hrun' : interactive_setup σ has_gpu args stdin = Ok (args', rest))
      by (unfold Launch.setup in Hrun; destruct Hfile as [E|E]; rewrite E in Hrun;
          exact Hrun).
    clear Hrun. pose proof (interactive_setup_settings _ _ _ _ _ _ Hrun') as [_ Hset].
    assert (Hthr : device args' = lit "cpu" -> 0 <= cpu_threads args').
    { apply interactive_setup_inv in Hrun'
        as (p & s1 & dev & s2 & msize & s3 & ctype & s4 & threads & s5 & beam
            & l7 & l8 & l9 & _ & _ & _ & _ & Hthr & _ & ->).
      cbn [device cpu_threads]. intros ->.
      change (str_eqb (lit "cpu") (lit "cpu")) with true in Hthr.
      rewrite ask_cpu_threads_retry in Hthr.
      apply retry_returns in Hthr as (l & Hl). exact (cpu_threads_answer_valid _ _ Hl). }
    pose proof (model_kwargs_facts has_gpu args') as (Kd & Kc & Kt).
    assert (Ed : Launch.resolve_device has_gpu args' = device args').
    { unfold Launch.resolve_device.
      destruct Hset as [(-> & _)|(-> & _)]; reflexivity. }
    assert (Ec : Launch.resolve_compute_type (device args') args' = compute_type args').
    { unfold Launch.resolve_compute_type, str_eqb.
      destruct (bool_decide_reflect (compute_type args' = lit "auto")) as [E|];
        [|reflexivity].
      exfalso. rewrite E in Hset.
      destruct Hset as [(_ & _ & Hc)|(_ & Hc)];
        repeat (apply elem_of_cons in Hc as [Hc|Hc]; [discriminate Hc|]);
        inversion Hc. }
    rewrite Ed in Kd, Kc, Kt. rewrite Ec in Kc.
    split; [exact Kd|]. split; [exact Kc|].
    destruct Hset as [(Edev & _)|(Edev & _)]; rewrite Edev in Kt.
    + right. split; [exact Edev|exact Kt].
    + left. split; [exact Edev|]. split; [exact Kt|exact (Hthr Edev)].
Qed.

(** ** The cues of [write_srt] *)

Lemma srt_writes_timing segments : forall i k chunk,
  fst (srt_writes i segments) !! (3 * k + 1)%nat = Some chunk ->
  exists seg a b, segments !! k = Some seg
    /\ format_srt_timestamp (start seg) = Ok a
    /\ format_srt_timestamp (end_ seg) = Ok b
    /\ chunk = a ++ lit " --> " ++ b ++ [LF].
Proof.
  induction segments as [|seg rest IH]; intros i k chunk; cbn [srt_writes].
  - intros Hk. discriminate Hk.
  - destruct (format_srt_timestamp (start seg)) as [a|e] eqn:Ea.
    2:{ cbn [fst]. intros Hk. replace (3 * k + 1)%nat with (S (3 * k)) in Hk by lia.
        discriminate Hk. }
    destruct (format_srt_timestamp (end_ seg)) as [b|e] eqn:Eb.
    2:{ cbn [fst]. intros Hk. replace (3 * k + 1)%nat with (S (3 * k)) in Hk by lia.
        discriminate Hk. }
    specialize (IH (i + 1)).
    destruct (srt_writes (i + 1) rest) as [ws r]. cbn [fst] in *.
    intros Hk. destruct k as [|k].
    + injection Hk as <-. exists seg, a, b. auto.
    + replace (3 * S k + 1)%nat with (S (S (S (3 * k + 1)))) in Hk by lia.
      change (ws !! (3 * k + 1)%nat = Some chunk) in Hk.
      destruct (IH k chunk Hk) as (seg' & a' & b' & Hs & H').
      exists seg', a', b'. split; [exact Hs|exact H'].
Qed.

Lemma srt_writes_ok segments : forall i,
  snd (srt_writes i segments) = Ok tt <->
  Forall (fun seg => exists a b, format_srt_timestamp (start seg) = Ok a
                                 /\ format_srt_timestamp (end_ seg) = Ok b) segments.
Proof.
  induction segments as [|seg rest IH]; intros i; cbn [srt_writes].
  - split; [constructor|reflexivity].
  - destruct (format_srt_timestamp (start seg)) as [a|e] eqn:Ea.
    2:{ split; [discriminate|]. intros Hall. inversion Hall as [|? ? (a & b & Ha & _) _].
        congruence. }
    destruct (format_srt_timestamp (end_ seg)) as [b|e] eqn:Eb.
    2:{ split; [discriminate|]. intros Hall. inversion Hall as [|? ? (a' & b & _ & Hb) _].
        congruence. }
    specialize (IH (i + 1)). destruct (srt_writes (i + 1) rest) as [ws r].
    cbn [snd] in *. rewrite IH. split.
    + intros Hall. constructor; [exists a, b; auto|exact Hall].
    + intros Hall. inversion Hall; assumption.
Qed.

(** X13. The second write of every cue is the timing line: the formatted
    start of the segment, [ --> ], its formatted end and a line feed; and
    [write_srt] returns normally exactly when both times of every segment
    can be formatted, every segment then having its timing line. *)
Theorem write_srt_timing_lines (segments : list Segment) (out_path : pystr)
  (σ : fs) :
  let ws := fst (srt_writes 1 segments) in
  files (fst (write_srt segments out_path σ)) !! out_path = Some (concat ws)
  /\ (forall k chunk, ws !! (3 * k + 1)%nat = Some chunk ->
        exists seg a b, segments !! k = Some seg
          /\ format_srt_timestamp (start seg) = Ok a
          /\ format_srt_timestamp (end_ seg) = Ok b
          /\ chunk = a ++ lit " --> " ++ b ++ [LF])
  /\ (snd (write_srt segments out_path σ) = Ok tt <->
      Forall (fun seg => exists a b, format_srt_timestamp (start seg) = Ok a
                                     /\ format_srt_timestamp (end_ seg) = Ok b)
        segments)
  /\ (snd (write_srt segments out_path σ) = Ok tt ->
      forall k seg, segments !! k = Some seg ->
        exists chunk, ws !! (3 * k + 1)%nat = Some chunk).
Proof.
  cbv zeta. split; [|split; [|split]].
  - rewrite write_srt_file, decide_True by reflexivity. reflexivity.
  - apply srt_writes_timing.
  - rewrite write_srt_result. apply srt_writes_ok.
  - rewrite write_srt_result. intros Hok k seg Hk.
    apply lookup_lt_is_Some. rewrite srt_writes_length by exact Hok.
    apply lookup_lt_Some in Hk. lia.
Qed.

Lemma srt_writes_app good : forall i rest,
  Forall (fun seg => exists a b, format_srt_timestamp (start seg) = Ok a
                                 /\ format_srt_timestamp (end_ seg) = Ok b) good ->
  srt_writes i (good ++ rest)
  = (fst (srt_writes i good) ++ fst (srt_writes (i + Z.of_nat (length good)) rest),
     snd (srt_writes (i + Z.of_nat (length good)) rest)).
Proof.
  induction good as [|seg good IH]; intros i rest Hgood.
  - cbn [app length srt_writes fst]. rewrite Z.add_0_r.
    destruct (srt_writes i rest). reflexivity.
  - inversion Hgood as [|? ? (a & b & Ha & Hb) Hgood']; subst.
    cbn [app srt_writes]. rewrite Ha, Hb. rewrite (IH (i + 1) rest Hgood').
    replace (i + 1 + Z.of_nat (length good)) with (i + Z.of_nat (length (seg :: good)))
      by (cbn [length]; lia).
    destruct (srt_writes (i + 1) good) as [ws r]. reflexivity.
Qed.

(** X14. A time that cannot be formatted stops [write_srt] inside the cue
    of its segment: the exception is that of [format_srt_timestamp], and
    the file holds the cues of the segments before, complete, and after
    them only the number of the cue that failed; the segments after it
    are not looked at. *)
Theorem write_srt_stops (good : list Segment) (bad : Segment)
  (rest : list Segment) (e : exn) (out_path : pystr) (σ : fs) :
  Forall (fun seg => exists a b, format_srt_timestamp (start seg) = Ok a
                                 /\ format_srt_timestamp (end_ seg) = Ok b) good ->
  (format_srt_timestamp (start bad) = Raise e
   \/ exists a, format_srt_timestamp (start bad) = Ok a
                /\ format_srt_timestamp (end_ bad) = Raise e) ->
  snd (write_srt (good ++ bad :: rest) out_path σ) = Raise e
  /\ files (fst (write_srt (good ++ bad :: rest) out_path σ)) !! out_path
     = Some (concat (fst (srt_writes 1 good))
             ++ str_int (Z.of_nat (length good) + 1) ++ [LF])
  /\ snd (write_srt good out_path σ) = Ok tt.
Proof.
  intros Hgood Hbad.
  assert (E : srt_writes (1 + Z.of_nat (length good)) (bad :: rest)
              = ([str_int (1 + Z.of_nat (length good)) ++ [LF]], Raise e)).
  { cbn [srt_writes]. destruct Hbad as [->|(a & -> & ->)]; reflexivity. }
  rewrite !write_srt_result, write_srt_file, decide_True by reflexivity.
  rewrite (srt_writes_app good 1 (bad :: rest) Hgood), E. cbn [fst snd].
  split; [reflexivity|]. split.
  - rewrite concat_app. cbn [concat]. rewrite app_nil_r.
    replace (1 + Z.of_nat (length good)) with (Z.of_nat (length good) + 1) by lia.
    reflexivity.
  - apply srt_writes_ok, Hgood.
Qed.

Lemma write_srt_stops_witness :
  snd (write_srt (Demo.segments
                  ++ {| start := of_Z 1; end_ := S754_nan; text := lit "x" |}
                  :: Demo.segments) (lit "a.srt") Demo.empty) = Raise ValueError
  /\ files (fst (write_srt (Demo.segments
                  ++ {| start := of_Z 1; end_ := S754_nan; text := lit "x" |}
                  :: Demo.segments) (lit "a.srt") Demo.empty)) !! lit "a.srt"
     = Some (concat (fst (srt_writes 1 Demo.segments))
             ++ str_int (Z.of_nat (length Demo.segments) + 1) ++ [LF])
  /\ snd (write_srt Demo.segments (lit "a.srt") Demo.empty) = Ok tt.
Proof.
  apply (write_srt_stops Demo.segments
           {| start := of_Z 1; end_ := S754_nan; text := lit "x" |}
           Demo.segments ValueError (lit "a.srt") Demo.empty).
  - repeat constructor; eexists _, _; split; vm_compute; reflexivity.
  - right. eexists. split; vm_compute; reflexivity.
Defined.

(** ** The output stage, run and run again *)

Lemma fs_eq (a b : fs) : files a = files b -> dirs a = dirs b -> a = b.
Proof. destruct a, b. cbn. intros -> ->. reflexivity. Qed.

(** X15. When the output directory can be made, the SRT file is
    requested and a time cannot be formatted, the stage ends with that
    exception after the directory is made and the SRT file started: no
    other file changes, so the JSON and the TXT file are not written
    even if they were requested. *)
Theorem main_output_srt_failure `{Builtins} (args : Args)
  (segment_list : list Segment) (σ : fs) (path : pystr) (e : exn) :
  file args = Some path ->
  snd (makedirs (output_dir args) σ) = Ok tt ->
  requested args "srt" = true ->
  snd (srt_writes 1 segment_list) = Raise e ->
  snd (main_output args segment_list σ) = Raise e
  /\ isdir (output_dir args) (fst (main_output args segment_list σ)) = true
  /\ files (fst (main_output args segment_list σ)) !! output_path args path ".srt"
     = Some (concat (fst (srt_writes 1 segment_list)))
  /\ forall q, q <> output_path args path ".srt" ->
       files (fst (main_output args segment_list σ)) !! q = files σ !! q.
Proof.
  intros Hfile Hmk Hsrt Hraise.
  pose proof (main_output_spec args segment_list σ path Hfile Hmk) as Hspec.
  cbv zeta in Hspec. rewrite Hsrt, Hraise in Hspec.
  destruct Hspec as (Hres & Hdirs & Hfiles).
  destruct (makedirs_spec (output_dir args) σ) as (_ & _ & _ & Hok & _).
  destruct (Hok Hmk) as [Hdir _].
  split; [exact Hres|]. split; [|split].
  - rewrite <- Hdir. apply isdir_agree. rewrite Hdirs. reflexivity.
  - rewrite Hfiles, decide_True by reflexivity. reflexivity.
  - intros q Hq. rewrite Hfiles, decide_False by congruence. reflexivity.
Qed.

Lemma main_output_srt_failure_witness :
  snd (@main_output Ascii_builtins.ascii Demo.args
         [ {| start := S754_nan; end_ := of_Z 1; text := lit "x" |} ] Demo.empty)
  = Raise ValueError
  /\ isdir (output_dir Demo.args)
       (fst (@main_output Ascii_builtins.ascii Demo.args
               [ {| start := S754_nan; end_ := of_Z 1; text := lit "x" |} ]
               Demo.empty)) = true
  /\ files (fst (@main_output Ascii_builtins.ascii Demo.args
                   [ {| start := S754_nan; end_ := of_Z 1; text := lit "x" |} ]
                   Demo.empty))
       !! output_path Demo.args (lit "audio/talk.mp3") ".srt"
     = Some (concat (fst (srt_writes 1
                [ {| start := S754_nan; end_ := of_Z 1; text := lit "x" |} ])))
  /\ forall q, q <> output_path Demo.args (lit "audio/talk.mp3") ".srt" ->
       files (fst (@main_output Ascii_builtins.ascii Demo.args
                     [ {| start := S754_nan; end_ := of_Z 1; text := lit "x" |} ]
                     Demo.empty)) !! q = files Demo.empty !! q.
Proof.
  apply (@main_output_srt_failure Ascii_builtins.ascii Demo.args
           [ {| start := S754_nan; end_ := of_Z 1; text := lit "x" |} ] Demo.empty
           (lit "audio/talk.mp3") ValueError); vm_compute; reflexivity.
Defined.

(** The name of an output file is longer than that of the output
    directory. *)
Lemma output_path_longer (args : Args) (path : pystr) (ext : string) :
  ext ∈ [".srt"; ".json"; ".txt"]%string ->
  (length (output_dir args) < length (output_path args path ext))%nat.
Proof.
  intros Hext. unfold output_path, target.
  destruct (join_name (output_dir args) (base_filename path ++ lit ext))
    as (_ & sep & -> & _).
  - assert (Hbase : SLASH ∉ base_filename path)
      by apply splitext_no_slash, basename_no_slash.
    intros Hin. apply elem_of_app in Hin as [Hin|Hin]; [exact (Hbase Hin)|].
    repeat (apply elem_of_cons in Hext as [->|Hext]);
      [| | |inversion Hext]; vm_compute in Hin;
      repeat (apply elem_of_cons in Hin as [Hin|Hin]; [discriminate Hin|]);
      inversion Hin.
  - rewrite !length_app.
    repeat (apply elem_of_cons in Hext as [->|Hext]);
      [| | |inversion Hext]; cbn [lit length list_ascii_of_string map]; lia.
Qed.

(** X16. Running the output stage again on what it left changes nothing:
    the same result, the same files, the same directories. *)
Theorem main_output_idempotent `{Builtins} (args : Args)
  (segment_list : list Segment) (σ : fs) (path : pystr) :
  file args = Some path ->
  main_output args segment_list (fst (main_output args segment_list σ))
  = main_output args segment_list σ.
Proof.
  intros Hfile.
  destruct (makedirs_spec (output_dir args) σ) as (Hfm & _).
  destruct (makedirs_cases args σ) as [[e He]|Hmk].
  - (* the directory could not be made, and cannot be made now *)
    rewrite (main_output_fails args segment_list σ path Hfile e He). cbn [fst].
    assert (E2 : makedirs (output_dir args) (fst (makedirs (output_dir args) σ))
                 = (fst (makedirs (output_dir args) σ), Raise e)).
    { rewrite <- He. apply makedirs_again; [|reflexivity].
      intros q _. rewrite Hfm. reflexivity. }
    rewrite (main_output_fails args segment_list _ path Hfile e);
      rewrite E2; reflexivity.
  - pose proof (main_output_spec args segment_list σ path Hfile Hmk) as H1.
    cbv zeta in H1. destruct H1 as (Hr1 & Hd1 & Hf1).
    assert (E2 : makedirs (output_dir args) (fst (main_output args segment_list σ))
                 = (fst (main_output args segment_list σ), Ok tt)).
    { rewrite <- Hmk. apply makedirs_again; [|exact Hd1].
      intros q Hq. rewrite Hf1.
      pose proof (output_path_longer args path ".srt" ltac:(repeat constructor)).
      pose proof (output_path_longer args path ".json" ltac:(repeat constructor)).
      pose proof (output_path_longer args path ".txt" ltac:(repeat constructor)).
      assert (Hs : output_path args path ".srt" <> q) by (intros <-; lia).
      assert (Hj : output_path args path ".json" <> q) by (intros <-; lia).
      assert (Ht : output_path args path ".txt" <> q) by (intros <-; lia).
      destruct (if requested args "srt" then snd (srt_writes 1 segment_list) else Ok tt);
        repeat case_decide; try reflexivity; exfalso; intuition congruence. }
    assert (Hmk2 : snd (makedirs (output_dir args)
                          (fst (main_output args segment_list σ))) = Ok tt)
      by (rewrite E2; reflexivity).
    pose proof (main_output_spec args segment_list
                  (fst (main_output args segment_list σ)) path Hfile Hmk2) as H2.
    cbv zeta in H2. destruct H2 as (Hr2 & Hd2 & Hf2).
    rewrite E2 in Hd2. cbn [fst] in Hd2.
    rewrite (surjective_pairing (main_output _ _ (fst _))).
    rewrite (surjective_pairing (main_output args segment_list σ)) at 3.
    f_equal; [|congruence].
    apply fs_eq; [|exact Hd2].
    apply map_eq. intros q. pose proof (Hf1 q) as E1. pose proof (Hf2 q) as E2'.
    clear Hf1 Hf2 Hr1 Hr2 Hd1 Hd2 E2 Hmk2.
    etransitivity; [exact E2'|]. etransitivity; [|symmetry; exact E1].
    clear E2'. revert E1.
    destruct (requested args "srt"); [destruct (snd (srt_writes 1 segment_list))|];
      repeat case_decide; intros E1; first [reflexivity | exact E1].
Qed.

Lemma main_output_idempotent_witness :
  @main_output Ascii_builtins.ascii Demo.args Demo.segments
    (fst (@main_output Ascii_builtins.ascii Demo.args Demo.segments Demo.disk))
  = @main_output Ascii_builtins.ascii Demo.args Demo.segments Demo.disk.
Proof.
  apply (@main_output_idempotent Ascii_builtins.ascii Demo.args Demo.segments
           Demo.disk (lit "audio/talk.mp3")).
  reflexivity.
Defined.

(** ** The characters of the JSON file *)

Lemma hex_digit_ascii d :
  (d < 16)%N -> (32 <= hex_digit d <= 126)%N.
Proof.
  intros Hd. unfold hex_digit. destruct (N.ltb_spec d 10); lia.
Qed.

Ltac ascii_chars :=
  repeat (apply List.Forall_cons;
          [first [ left; reflexivity
                 | right; apply hex_digit_ascii, N.mod_lt; discriminate
                 | right; split; apply N.leb_le; reflexivity ]|]);
  try apply List.Forall_nil.

Lemma hex4_ascii n :
  Forall (fun c => c = LF \/ (32 <= c <= 126)%N) (lit "\u" ++ hex4 n).
Proof.
  unfold hex4. ascii_chars.
Qed.

Lemma escape_char_ascii c :
  Forall (fun c => c = LF \/ (32 <= c <= 126)%N) (escape_char c).
Proof.
  unfold escape_char.
  repeat match goal with
         | |- Forall _ (if (_ =? _)%N then _ else _) =>
             destruct (_ =? _)%N; [ascii_chars|]
         end.
  destruct (N.leb_spec 32 c); cbn [andb].
  - destruct (N.leb_spec c 126).
    + apply List.Forall_cons; [right; unfold codepoint in *; lia|apply List.Forall_nil].
    + destruct (c <? 65536)%N; [apply hex4_ascii|].
      rewrite app_assoc. apply Forall_app. split; apply hex4_ascii.
  - destruct (c <? 65536)%N; [apply hex4_ascii|].
    rewrite app_assoc. apply Forall_app. split; apply hex4_ascii.
Qed.

Lemma encode_str_ascii s :
  Forall (fun c => c = LF \/ (32 <= c <= 126)%N) (encode_str s).
Proof.
  unfold encode_str. apply Forall_app. split; [ascii_chars|].
  apply Forall_app. split; [|ascii_chars].
  induction s as [|c s IH]; [constructor|]. cbn [map concat].
  apply Forall_app. split; [apply escape_char_ascii|exact IH].
Qed.

Lemma newline_indent_ascii level :
  Forall (fun c => c = LF \/ (32 <= c <= 126)%N) (newline_indent level).
Proof.
  unfold newline_indent. constructor; [left; reflexivity|].
  induction level as [|k IH]; [constructor|]. cbn [replicate concat].
  apply Forall_app. split; [ascii_chars|exact IH].
Qed.

(** Whatever the value, [json.dump] writes line feeds and printable ASCII
    characters only, as soon as [repr] does so for floats. *)
Lemma encode_ascii `{Builtins} v :
  (forall x, is_finite x = true ->
     Forall (fun c => c = LF \/ (32 <= c <= 126)%N) (float_repr x)) ->
  forall level, Forall (fun c => c = LF \/ (32 <= c <= 126)%N) (encode level v).
Proof.
  intros Hrepr.
  induction v as [x|s|l IH|items IH] using Json_grammar.json_ind'; intros level.
  - destruct x as [|[|]| |]; try (apply Hrepr; reflexivity);
      ascii_chars.
  - apply encode_str_ascii.
  - destruct IH as [|x xs Hx Hxs]; [ascii_chars|].
    rewrite Json_grammar.encode_list.
    constructor; [right; split; apply N.leb_le; reflexivity|]. apply Forall_app. split; [apply newline_indent_ascii|].
    apply Forall_app. split; [apply Hx|]. apply Forall_app. split.
    + induction Hxs as [|y ys Hy _ IHys]; [constructor|]. cbn [map concat].
      apply Forall_app. split; [|exact IHys]. unfold list_sep.
      constructor; [right; split; apply N.leb_le; reflexivity|]. apply Forall_app. split; [apply newline_indent_ascii|].
      apply Hy.
    + apply Forall_app. split; [apply newline_indent_ascii|].
      ascii_chars.
  - destruct IH as [|[k x] xs Hx Hxs]; [ascii_chars|].
    rewrite Json_grammar.encode_dict. cbn [snd] in Hx.
    constructor; [right; split; apply N.leb_le; reflexivity|]. apply Forall_app. split; [apply newline_indent_ascii|].
    apply Forall_app. split; [apply encode_str_ascii|].
    constructor; [right; split; apply N.leb_le; reflexivity|]. constructor; [right; split; apply N.leb_le; reflexivity|].
    apply Forall_app. split; [apply Hx|]. apply Forall_app. split.
    + induction Hxs as [|[k' y] ys Hy _ IHys]; [constructor|]. cbn [map concat].
      apply Forall_app. split; [|exact IHys]. unfold dict_sep. cbn [fst snd] in *.
      constructor; [right; split; apply N.leb_le; reflexivity|]. apply Forall_app. split; [apply newline_indent_ascii|].
      apply Forall_app. split; [apply encode_str_ascii|].
      constructor; [right; split; apply N.leb_le; reflexivity|]. constructor; [right; split; apply N.leb_le; reflexivity|]. apply Hy.
    + apply Forall_app. split; [apply newline_indent_ascii|].
      ascii_chars.
Qed.

(** X17. Whatever the text of the segments, the JSON file holds line
    feeds and printable ASCII characters only: every other character of a
    text is written as an escape. *)
Theorem write_json_ascii `{Builtins} (segments : list Segment)
  (out_path : pystr) (σ : fs) :
  (forall x, is_finite x = true ->
     Forall (fun c => c = LF \/ (32 <= c <= 126)%N) (float_repr x)) ->
  exists content,
    files (fst (write_json segments out_path σ)) !! out_path = Some content
    /\ Forall (fun c => c = LF \/ (32 <= c <= 126)%N) content.
Proof.
  intros Hrepr. exists (dumps (JList (json_output segments))). split.
  - rewrite write_json_file, decide_True by reflexivity. reflexivity.
  - apply encode_ascii, Hrepr.
Qed.

Lemma dyadic_repr_ascii x :
  is_finite x = true ->
  Forall (fun c => c = LF \/ (32 <= c <= 126)%N) (Ascii_builtins.dyadic_repr x).
Proof.
  assert (Hdig : forall l, Forall (fun c => is_digit c = true) l ->
                   Forall (fun c => c = LF \/ (32 <= c <= 126)%N) l).
  { intros l Hl. eapply Forall_impl; [exact Hl|]. intros c Hc. right.
    unfold is_digit in Hc. apply andb_true_iff in Hc as [H1 H2].
    apply N.leb_le in H1, H2. lia. }
  assert (Hsign : forall s : bool,
            Forall (fun c => c = LF \/ (32 <= c <= 126)%N) (if s then lit "-" else [])).
  { intros [|]; ascii_chars. }
  destruct x as [s| | |s m e]; try discriminate; intros _;
    unfold Ascii_builtins.dyadic_repr.
  - apply Forall_app. split; [apply Hsign|]. ascii_chars.
  - apply Forall_app. split; [apply Hsign|]. destruct (Z.leb_spec 0 e).
    + apply Forall_app. split; [apply Hdig, str_nat_digits|].
      ascii_chars.
    + cbv zeta. apply Forall_app. split; [apply Hdig, str_nat_digits|].
      apply Forall_app. split; [ascii_chars|].
      assert (Hs : 0 < 2 ^ (- e)) by (apply Z.pow_pos_nonneg; lia).
      pose proof (Json_grammar.fraction_digits_digits (2 ^ (- e)) (Z.to_nat (- e))
                    (Z.pos m mod 2 ^ (- e)) (Z.mod_pos_bound _ _ Hs)) as Hd.
      destruct (Ascii_builtins.fraction_digits _ _ _);
        [ascii_chars|apply Hdig, Hd].
Qed.

Lemma write_json_ascii_witness :
  exists content,
    files (fst (@write_json Ascii_builtins.ascii
                  [ {| start := of_Z 0; end_ := dyadic 5 (-1);
                       text := [233%N; 128512%N] |} ]
                  (lit "a.json") Demo.empty)) !! lit "a.json" = Some content
    /\ Forall (fun c => c = LF \/ (32 <= c <= 126)%N) content.
Proof.
  apply (@write_json_ascii Ascii_builtins.ascii
           [ {| start := of_Z 0; end_ := dyadic 5 (-1); text := [233%N; 128512%N] |} ]
           (lit "a.json") Demo.empty).
  exact dyadic_repr_ascii.
Defined.

(** ** The name of the output files *)

(** X19. The output files are named after the last component of the
    input path with its last extension removed: [dir/talk.mp3] gives
    [talk], [a.b.c] gives [a.b], a name without a dot is kept, and so is
    a name whose only dots are leading ones, as [.hidden]. *)
Theorem base_filename_stem (dir stem ext : pystr) :
  (dir = [] \/ exists d, dir = d ++ [SLASH]) ->
  SLASH ∉ stem -> SLASH ∉ ext -> DOT ∉ ext ->
  base_filename (dir ++ stem ++ [DOT] ++ ext)
  = (if forallb (N.eqb DOT) stem then stem ++ [DOT] ++ ext else stem)
  /\ (DOT ∉ stem -> base_filename (dir ++ stem) = stem).
Proof.
  intros Hdir Hstem Hext Hdot.
  assert (Hbase : forall name, SLASH ∉ name -> basename (dir ++ name) = name).
  { intros name Hname. destruct Hdir as [->|(d & ->)]; [apply basename_plain, Hname|].
    rewrite <- app_assoc. apply basename_split, Hname. }
  split.
  - unfold base_filename. rewrite Hbase.
    2:{ rewrite !not_elem_of_app. repeat split; try assumption.
        intros H. apply list_elem_of_singleton in H. discriminate H. }
    unfold splitext. cbv zeta.
    rewrite (rfind_absent SLASH).
    2:{ rewrite !not_elem_of_app. repeat split; try assumption.
        intros H. apply list_elem_of_singleton in H. discriminate H. }
    change (stem ++ [DOT] ++ ext) with (stem ++ DOT :: ext).
    rewrite (rfind_split DOT stem ext Hdot).
    replace (-1 <? Z.of_nat (length stem)) with true by (symmetry; apply Z.ltb_lt; lia).
    unfold slice_to, slice_from. change (Z.to_nat (-1 + 1)) with 0%nat.
    rewrite drop_0. replace (Z.of_nat (length stem) - (-1 + 1)) with (Z.of_nat (length stem))
      by lia.
    rewrite Nat2Z.id, take_app_length. cbn [andb].
    destruct (forallb (N.eqb DOT) stem); reflexivity.
  - intros Hd. unfold base_filename. rewrite Hbase by assumption.
    unfold splitext. cbv zeta.
    rewrite (rfind_absent SLASH), (rfind_absent DOT) by assumption. reflexivity.
Qed.

Lemma base_filename_stem_witness :
  base_filename (lit "audio/" ++ lit "talk.final" ++ [DOT] ++ lit "mp3")
  = (if forallb (N.eqb DOT) (lit "talk.final")
     then lit "talk.final" ++ [DOT] ++ lit "mp3" else lit "talk.final")
  /\ (DOT ∉ lit "talk.final" ->
      base_filename (lit "audio/" ++ lit "talk.final") = lit "talk.final").
Proof.
  apply (base_filename_stem (lit "audio/") (lit "talk.final") (lit "mp3")).
  - right. exists (lit "audio"). reflexivity.
  - vm_compute. intros H. repeat (inversion H as [|? ? ? H']; subst; clear H; rename H' into H).
  - vm_compute. intros H. repeat (inversion H as [|? ? ? H']; subst; clear H; rename H' into H).
  - vm_compute. intros H. repeat (inversion H as [|? ? ? H']; subst; clear H; rename H' into H).
Defined.

(** ** What [format_srt_timestamp] raises *)

Lemma binary_round_aux_not_nan sx m e l :
  0 <= m -> is_nan (binary_round_aux prec emax sx m e l) = false.
Proof.
  intros Hm.
  assert (Hsign : is_nan (binary_round_aux prec emax sx m e l)
                  = is_nan (binary_round_aux prec emax false m e l)).
  { unfold binary_round_aux. destruct (shr_fexp prec emax m e l) as [mrs' e'].
    destruct (shr_fexp prec emax _ e' loc_Exact) as [mrs'' e''].
    destruct (shr_m mrs''); [reflexivity| |reflexivity].
    destruct (e'' <=? emax - prec); reflexivity. }
  rewrite Hsign. destruct (binary_round_aux_steps m e l Hm) as (m2 & Hm2 & ->).
  cbv zeta in *.
  assert (H0 : 0 <= m2).
  { destruct Hm2 as [Hlow _]. eapply Z.le_trans; [|exact Hlow].
    apply Z.div_pos; [exact Hm|]. apply Z.pow_pos_nonneg; [lia|].
    apply Z.le_0_sub, Z.le_max_l. }
  set (e1 := Z.max e (fexp prec emax (Zdigits2 m + e))) in *.
  set (k := Z.max e1 (fexp prec emax (Zdigits2 m2 + e1)) - e1).
  assert (Hq : 0 <= m2 / 2 ^ k).
  { apply Z.div_pos; [exact H0|]. apply Z.pow_pos_nonneg; [lia|].
    apply Z.le_0_sub, Z.le_max_l. }
  destruct (m2 / 2 ^ k); [reflexivity| |lia].
  destruct (_ <=? _); reflexivity.
Qed.

Lemma binary_normalize_not_nan m e s :
  is_nan (binary_normalize prec emax m e s) = false.
Proof.
  unfold binary_normalize. destruct m as [|p|p]; [reflexivity| |];
    unfold binary_round; destruct (shl_align p e _) as [mz ez];
    apply binary_round_aux_not_nan; lia.
Qed.

Lemma mul_million_not_nan f :
  is_nan f = false -> is_nan (mul f (of_Z 1000000)) = false.
Proof.
  rewrite of_Z_million. unfold mul, SFmul.
  destruct f as [s|s| |s m e]; intros Hf; try reflexivity; [discriminate Hf|].
  apply binary_round_aux_not_nan. lia.
Qed.

Lemma fracpart_not_nan x : is_finite x = true -> is_nan (fracpart x) = false.
Proof.
  destruct x as [s|s| |s m e]; try discriminate; intros _; [reflexivity|].
  unfold fracpart. destruct (0 <=? e); [reflexivity|apply binary_normalize_not_nan].
Qed.

Lemma round_half_even_error f e :
  is_nan f = false -> round_half_even f = Raise e -> e = OverflowError.
Proof.
  destruct f as [s|s| |s m ex]; intros Hf; try discriminate Hf; cbn [round_half_even].
  - discriminate.
  - intros [= <-]. reflexivity.
  - destruct (0 <=? ex); discriminate.
Qed.

Lemma true_div_million_error a e :
  (true_div a 1000000 = Raise e -> e = OverflowError)
  /\ forall f, true_div a 1000000 = Ok f -> is_finite f = true.
Proof.
  unfold true_div. destruct a as [|p|p].
  - split; [discriminate|]. intros f [= <-]. reflexivity.
  - destruct (SFdiv_core_binary prec emax (Z.abs (Z.pos p)) 0 1000000 0)
      as [[q e'] l] eqn:E.
    assert (Hq : 0 <= q).
    { unfold SFdiv_core_binary in E. cbv zeta in E.
      destruct (Z.div_eucl _ 1000000) as [q' r'] eqn:Ed. injection E as <- _ _.
      match type of Ed with Z.div_eucl ?m _ = _ =>
        assert (Hm : 0 <= m);
        [|pose proof (Z_div_mod m 1000000 ltac:(lia)) as Hdm; rewrite Ed in Hdm; nia]
      end.
      destruct (0 - 0 - _); [lia|apply Z.shiftl_nonneg; lia|lia]. }
    pose proof (binary_round_aux_not_nan (Z.pos p <? 0) q e' l Hq) as Hn.
    destruct (binary_round_aux prec emax (Z.pos p <? 0) q e' l); try discriminate Hn.
    + split; [discriminate|]. intros f [= <-]. reflexivity.
    + split; [intros [= <-]; reflexivity|discriminate].
    + split; [discriminate|]. intros f [= <-]. reflexivity.
  - destruct (SFdiv_core_binary prec emax (Z.abs (Z.neg p)) 0 1000000 0)
      as [[q e'] l] eqn:E.
    assert (Hq : 0 <= q).
    { unfold SFdiv_core_binary in E. cbv zeta in E.
      destruct (Z.div_eucl _ 1000000) as [q' r'] eqn:Ed. injection E as <- _ _.
      match type of Ed with Z.div_eucl ?m _ = _ =>
        assert (Hm : 0 <= m);
        [|pose proof (Z_div_mod m 1000000 ltac:(lia)) as Hdm; rewrite Ed in Hdm; nia]
      end.
      destruct (0 - 0 - _); [lia|apply Z.shiftl_nonneg; lia|lia]. }
    pose proof (binary_round_aux_not_nan (Z.neg p <? 0) q e' l Hq) as Hn.
    destruct (binary_round_aux prec emax (Z.neg p <? 0) q e' l); try discriminate Hn.
    + split; [discriminate|]. intros f [= <-]. reflexivity.
    + split; [intros [= <-]; reflexivity|discriminate].
    + split; [discriminate|]. intros f [= <-]. reflexivity.
Qed.

Lemma total_seconds_int_error x e :
  is_finite x = true -> total_seconds_int x = Raise e -> e = OverflowError.
Proof.
  intros Hx. unfold total_seconds_int, of_seconds.
  assert (Ht : exists w, trunc x = Ok w)
    by (destruct x; try discriminate; eexists; reflexivity).
  destruct Ht as [w ->]. cbn [bind].
  destruct (round_half_even (mul (fracpart x) (of_Z 1000000))) as [us|e'] eqn:Er.
  2:{ cbn [bind]. intros [= <-].
      exact (round_half_even_error _ _ (mul_million_not_nan _ (fracpart_not_nan x Hx)) Er). }
  cbn [bind]. unfold of_microseconds. cbv zeta.
  destruct (Z.abs _ <=? MAX_DELTA_DAYS); [|intros [= <-]; reflexivity].
  cbn [bind]. unfold total_seconds.
  destruct (true_div_million_error
              ((days {| days := (w * 1000000 + us) / 1000000 / 86400;
                        seconds := ((w * 1000000 + us) / 1000000) mod 86400;
                        microseconds := (w * 1000000 + us) mod 1000000 |} * 86400
                + seconds {| days := (w * 1000000 + us) / 1000000 / 86400;
                             seconds := ((w * 1000000 + us) / 1000000) mod 86400;
                             microseconds := (w * 1000000 + us) mod 1000000 |})
               * 1000000
               + microseconds {| days := (w * 1000000 + us) / 1000000 / 86400;
                                 seconds := ((w * 1000000 + us) / 1000000) mod 86400;
                                 microseconds := (w * 1000000 + us) mod 1000000 |}) e)
    as [Herr Hfin].
  destruct (true_div _ 1000000) as [f|e'']; cbn [bind].
  - specialize (Hfin f eq_refl). destruct f; try discriminate Hfin; discriminate.
  - intros [= <-]. apply Herr. reflexivity.
Qed.

Lemma format_srt_timestamp_raises x e :
  format_srt_timestamp x = Raise e <-> total_seconds_int x = Raise e.
Proof.
  unfold format_srt_timestamp, total_seconds_int.
  destruct (of_seconds x) as [td|e1]; cbn [bind];
    [|split; intros [= ->]; reflexivity].
  destruct (total_seconds td) as [ts|e2]; cbn [bind];
    [|split; intros [= ->]; reflexivity].
  destruct (trunc ts) as [T|e3]; cbn [bind]; [|split; intros [= ->]; reflexivity].
  split; discriminate.
Qed.

(** X20. [format_srt_timestamp] raises [ValueError] for a NaN and for
    nothing else, and [OverflowError] for an infinity; a finite time is
    formatted or raises [OverflowError], which it does from
    86400000000000 seconds on, a thousand million days. *)
Theorem format_srt_timestamp_errors (x : float) :
  (is_nan x = true -> format_srt_timestamp x = Raise ValueError)
  /\ (is_nan x = false -> is_finite x = false ->
      format_srt_timestamp x = Raise OverflowError)
  /\ (is_finite x = true ->
      forall e, format_srt_timestamp x = Raise e -> e = OverflowError)
  /\ (is_finite x = true -> nonneg x = true ->
      forall w, trunc x = Ok w -> 86400000000000 <= w ->
        format_srt_timestamp x = Raise OverflowError).
Proof.
  split; [|split; [|split]].
  - destruct x; try discriminate. reflexivity.
  - destruct x; try discriminate. reflexivity.
  - intros Hx e He. apply format_srt_timestamp_raises in He.
    exact (total_seconds_int_error x e Hx He).
  - intros Hx Hpos w Hw Hbig. apply format_srt_timestamp_raises.
    unfold total_seconds_int, of_seconds. rewrite Hw. cbn [bind].
    destruct (round_half_even_nonneg 22 (mul (fracpart x) (of_Z 1000000)))
      as (us & -> & Hus); [lia|apply mul_million_nonneg, fracpart_nonneg; assumption|].
    cbn [bind]. unfold of_microseconds. cbv zeta.
    assert (Hs : 86400000000000 <= (w * 1000000 + us) / 1000000)
      by (apply Z.div_le_lower_bound; lia).
    assert (Hd : 1000000000 <= (w * 1000000 + us) / 1000000 / 86400)
      by (apply Z.div_le_lower_bound; lia).
    destruct (Z.leb_spec (Z.abs ((w * 1000000 + us) / 1000000 / 86400)) MAX_DELTA_DAYS)
      as [Hle|_]; [|reflexivity].
    unfold MAX_DELTA_DAYS in Hle. lia.
Qed.
